(** * Islamic inheritance calculator: heir detection and share calculation

    A shallow embedding of [heir_detector.py] and [heritage_calculator.py].
    Python strings are sequences of Unicode code points, exact rationals
    ([fractions.Fraction]) are normalised pairs, the mutable calculator and
    detector objects are records threaded through every method, and the
    regular expressions of the detector are run by a backtracking matcher
    with the priorities of Python's [re] module. *)

From Stdlib Require Import String Ascii Decimal.
From Stdlib Require Import List Bool Arith ZArith NArith QArith Qreduction Lia.
From Stdlib Require Import Field Permutation DecimalN.
Import ListNotations.

(* ===================================================================== *)
(** ** Python strings *)
(* ===================================================================== *)

Module PyStr.

(** A Python [str] is a sequence of code points. *)
Definition pystr := list N.

(** Literals are written in UTF-8 in this file and decoded once. *)
Fixpoint bytes_of (s : string) : list N :=
  match s with
  | EmptyString => []
  | String a t => N_of_ascii a :: bytes_of t
  end.

Fixpoint utf8_decode (bs : list N) : pystr :=
  match bs with
  | [] => []
  | b0 :: t =>
      if (b0 <? 128)%N then b0 :: utf8_decode t
      else if (b0 <? 224)%N then
        match t with
        | b1 :: t1 => ((b0 - 192) * 64 + (b1 - 128))%N :: utf8_decode t1
        | _ => []
        end
      else if (b0 <? 240)%N then
        match t with
        | b1 :: b2 :: t2 =>
            ((b0 - 224) * 4096 + (b1 - 128) * 64 + (b2 - 128))%N :: utf8_decode t2
        | _ => []
        end
      else
        match t with
        | b1 :: b2 :: b3 :: t3 =>
            ((b0 - 240) * 262144 + (b1 - 128) * 4096 + (b2 - 128) * 64 + (b3 - 128))%N
              :: utf8_decode t3
        | _ => []
        end
  end.

Definition u (s : string) : pystr := utf8_decode (bytes_of s).

(** The escape [\n] of the source's literals. *)
Definition NL : pystr := [10%N].

(** [a == b] on strings. *)
Fixpoint str_eqb (a b : pystr) : bool :=
  match a, b with
  | [], [] => true
  | x :: a', y :: b' => (x =? y)%N && str_eqb a' b'
  | _, _ => false
  end.

(** [x in l] for a list (or set) of strings. *)
Definition str_in (x : pystr) (l : list pystr) : bool := existsb (str_eqb x) l.

(** [s.startswith(p)]. *)
Fixpoint prefixb (p s : pystr) : bool :=
  match p, s with
  | [], _ => true
  | x :: p', y :: s' => (x =? y)%N && prefixb p' s'
  | _ :: _, [] => false
  end.

(** [sub in s] for strings: [sub] occurs in [s] as a contiguous run. *)
Fixpoint contains (sub s : pystr) : bool :=
  prefixb sub s || match s with [] => false | _ :: t => contains sub t end.

(** Equality of two Python sets of strings given by their elements. *)
Definition set_eqb (a b : list pystr) : bool :=
  forallb (fun x => str_in x b) a && forallb (fun x => str_in x a) b.

(** [str(n)] for a non-negative integer. *)
Fixpoint uint_str (d : Decimal.uint) : pystr :=
  match d with
  | Nil => []
  | D0 r => 48%N :: uint_str r
  | D1 r => 49%N :: uint_str r
  | D2 r => 50%N :: uint_str r
  | D3 r => 51%N :: uint_str r
  | D4 r => 52%N :: uint_str r
  | D5 r => 53%N :: uint_str r
  | D6 r => 54%N :: uint_str r
  | D7 r => 55%N :: uint_str r
  | D8 r => 56%N :: uint_str r
  | D9 r => 57%N :: uint_str r
  end.

Definition N_str (n : N) : pystr := uint_str (N.to_uint n).
Definition nat_str (n : nat) : pystr := N_str (N.of_nat n).

(** [str(z)] for an integer. *)
Definition Z_str (z : Z) : pystr :=
  match z with
  | Z0 => [48%N]
  | Zpos p => N_str (Npos p)
  | Zneg p => 45%N :: N_str (Npos p)
  end.

End PyStr.
Import PyStr.

Arguments u : simpl never.

(* ===================================================================== *)
(** ** Exact rationals: [fractions.Fraction] *)
(* ===================================================================== *)

Module Frac.

(** A [Fraction] is kept in lowest terms with a positive denominator;
    every operation renormalises, as the library does. *)
Definition Fraction := Q.

Definition mk (n : Z) (d : positive) : Fraction := Qred (n # d).
Definition of_nat (n : nat) : Fraction := inject_Z (Z.of_nat n).

Definition add (a b : Fraction) : Fraction := Qred (a + b).
Definition sub (a b : Fraction) : Fraction := Qred (a - b).
Definition mul (a b : Fraction) : Fraction := Qred (a * b).
(** Division; the library raises ZeroDivisionError on a zero divisor, and
    every divisor in the calculator is a positive count. *)
Definition div (a b : Fraction) : Fraction := Qred (a / b).

Definition eqb (a b : Fraction) : bool := Qeq_bool a b.
Definition gtb (a b : Fraction) : bool := negb (Qle_bool a b).

Definition zero : Fraction := 0 # 1.
Definition one : Fraction := 1 # 1.

(** [Fraction.__str__]: the numerator alone when the denominator is 1,
    ["numerator/denominator"] otherwise. *)
Definition str (q : Fraction) : pystr :=
  if (Qden q =? 1)%positive then Z_str (Qnum q)
  else Z_str (Qnum q) ++ [47%N] ++ N_str (Npos (Qden q)).

End Frac.

Abbreviation Fraction := Frac.Fraction.

(* ===================================================================== *)
(** ** Data model ([heir_detector.py]) *)
(* ===================================================================== *)

(** The values of the enumeration [RelationType]. *)
Module RelationType.
Definition SPOUSE_WIFE : pystr := Eval vm_compute in u "الزوجة".
Definition SPOUSE_HUSBAND : pystr := Eval vm_compute in u "الزوج".
Definition SON : pystr := Eval vm_compute in u "الابن".
Definition DAUGHTER : pystr := Eval vm_compute in u "البنت".
Definition FATHER : pystr := Eval vm_compute in u "الأب".
Definition MOTHER : pystr := Eval vm_compute in u "الأم".
Definition GRANDFATHER : pystr := Eval vm_compute in u "الجد".
Definition GRANDMOTHER : pystr := Eval vm_compute in u "الجدة".
Definition GRANDSON : pystr := Eval vm_compute in u "ابن_الابن".
Definition GRANDDAUGHTER : pystr := Eval vm_compute in u "بنت_الابن".
Definition GRANDDAUGHTER_DAUGHTER : pystr := Eval vm_compute in u "بنت_البنت".
Definition BROTHER_FULL : pystr := Eval vm_compute in u "الأخ_الشقيق".
Definition SISTER_FULL : pystr := Eval vm_compute in u "الأخت_الشقيقة".
Definition BROTHER_PATERNAL : pystr := Eval vm_compute in u "الأخ_لأب".
Definition SISTER_PATERNAL : pystr := Eval vm_compute in u "الأخت_لأب".
Definition BROTHER_MATERNAL : pystr := Eval vm_compute in u "الأخ_لأم".
Definition SISTER_MATERNAL : pystr := Eval vm_compute in u "الأخت_لأم".
Definition NEPHEW : pystr := Eval vm_compute in u "ابن_الأخ".
Definition UNCLE_PATERNAL : pystr := Eval vm_compute in u "العم".
Definition NEPHEW_OF_UNCLE : pystr := Eval vm_compute in u "ابن_العم".
End RelationType.
Import RelationType.

(** The two values of the [gender] field. *)
Definition MALE : pystr := Eval vm_compute in u "ذكر".
Definition FEMALE : pystr := Eval vm_compute in u "أنثى".

(** The dataclass [Heir]; [relation] is a plain string in the source. *)
Record Heir := mkHeir {
  name : pystr;
  relation : pystr;
  gender : pystr;
  count : Z;
  is_blocked : bool;
  share : Fraction
}.

(** [Heir(name=..., relation=..., gender=..., count=1)] with the defaults
    [is_blocked=False] and [share=Fraction(0, 1)]. *)
Definition new_Heir (n r g : pystr) : Heir := mkHeir n r g 1 false (Frac.mk 0 1).

(** [heir.is_blocked = True] and [heir.share = s]. *)
Definition set_blocked (h : Heir) : Heir :=
  mkHeir (name h) (relation h) (gender h) (count h) true (share h).
Definition set_share (s : Fraction) (h : Heir) : Heir :=
  mkHeir (name h) (relation h) (gender h) (count h) (is_blocked h) s.

Definition unblocked (h : Heir) : bool := negb (is_blocked h).

(** [Heir.__str__]. *)
Definition Heir_str (h : Heir) : pystr :=
  if (1 <? count h)%Z then name h ++ u " (×" ++ Z_str (count h) ++ u ")"
  else name h.

(* ===================================================================== *)
(** ** The share calculator ([heritage_calculator.py]) *)
(* ===================================================================== *)

Module Calc.

(** The object state of [HeritageCalculator]. *)
Record HeritageCalculator := mkCalc {
  heirs : list Heir;
  steps : list pystr;
  reasoning : list pystr
}.

(** [HeritageCalculator(heirs)]. *)
Definition init (hs : list Heir) : HeritageCalculator := mkCalc hs [] [].

(** [self.reasoning.append(line)], for one line and for several. *)
Definition say (c : HeritageCalculator) (line : pystr) : HeritageCalculator :=
  mkCalc (heirs c) (steps c) (reasoning c ++ [line]).
Definition say_all (c : HeritageCalculator) (lines : list pystr) : HeritageCalculator :=
  mkCalc (heirs c) (steps c) (reasoning c ++ lines).

Definition with_heirs (c : HeritageCalculator) (hs : list Heir) : HeritageCalculator :=
  mkCalc hs (steps c) (reasoning c).

(** [for heir in self.heirs: body], where the body may assign to fields of
    the current heir and updates a state [S] (the trace, a running total). *)
Fixpoint for_each {S : Type} (body : Heir -> S -> Heir * S)
    (hs : list Heir) (s : S) : list Heir * S :=
  match hs with
  | [] => ([], s)
  | h :: t =>
      let '(h', s1) := body h s in
      let '(t', s2) := for_each body t s1 in
      (h' :: t', s2)
  end.

(** The three loops of the exclusion pass share one shape:
    [for heir in self.heirs: if cond(heir): heir.is_blocked = True;
     self.reasoning.append(line(heir))]. *)
Definition block_where (cond : Heir -> bool) (line : Heir -> pystr)
    (c : HeritageCalculator) : HeritageCalculator :=
  let '(hs, log) :=
    for_each (fun heir log =>
                if cond heir then (set_blocked heir, log ++ [line heir])
                else (heir, log))
             (heirs c) (reasoning c) in
  mkCalc hs (steps c) log.

(** The kinds named by the second exclusion rule. *)
Definition blocked_sibling_kinds : list pystr :=
  [BROTHER_FULL; BROTHER_PATERNAL; SISTER_FULL; SISTER_PATERNAL].

Definition apply_hijab_rules (c : HeritageCalculator) : HeritageCalculator :=
  let c := say c (u "🔒 **فحص حالات الحجب:**") in
  let relations := map relation (filter unblocked (heirs c)) in
  (* rule 1: the grandfather is excluded by the father *)
  let c :=
    if str_in FATHER relations then
      block_where (fun heir => str_eqb (relation heir) GRANDFATHER)
                  (fun _ => u "  → الجد محجوب بوجود الأب") c
    else c in
  (* rule 2: brothers and sisters excluded by father, son or grandfather *)
  let has_father := str_in FATHER relations in
  let has_son := str_in SON relations in
  let has_grandfather := str_in GRANDFATHER relations && negb has_father in
  let blocker :=
    if has_father then Some FATHER
    else if has_son then Some SON
    else if has_grandfather then Some GRANDFATHER
    else None in
  let c :=
    match blocker with
    | Some b =>
        block_where (fun heir => str_in (relation heir) blocked_sibling_kinds)
                    (fun heir => u "  → " ++ name heir ++ u " محجوب بوجود " ++ b) c
    | None => c
    end in
  (* rule 3: consanguine siblings excluded by a full brother *)
  let c :=
    if str_in BROTHER_FULL relations then
      block_where (fun heir => str_in (relation heir) [BROTHER_PATERNAL; SISTER_PATERNAL])
                  (fun heir => u "  → " ++ name heir ++ u " محجوب بوجود الأخ الشقيق") c
    else c in
  if negb (existsb is_blocked (heirs c)) then say c (u "  ✓ لا توجد حالات حجب")
  else c.

Definition check_umariyyatayn (c : HeritageCalculator) : bool :=
  let relations := map relation (filter unblocked (heirs c)) in
  if negb (str_in FATHER relations) then false
  else
    let case1 := set_eqb relations [SPOUSE_WIFE; FATHER; MOTHER] in
    let case2 := set_eqb relations [SPOUSE_HUSBAND; FATHER; MOTHER] in
    let num_heirs := length (filter unblocked (heirs c)) in
    (case1 || case2) && (num_heirs =? 3)%nat.

(** [for heir in self.heirs: <assignments to heir only>]. *)
Definition update_heirs (f : Heir -> Heir) (c : HeritageCalculator) : HeritageCalculator :=
  with_heirs c (map f (heirs c)).

Definition solve_umariyyatayn (c : HeritageCalculator) : Fraction * HeritageCalculator :=
  let relations := map relation (filter unblocked (heirs c)) in
  let c := say c (NL ++ u "⭐ **مسألة العمريتين:**") in
  let c := say c (u "  • هذه المسألة من المسائل الشهيرة التي قضى فيها عمر رضي الله عنه") in
  let c :=
    if str_in SPOUSE_WIFE relations then
      let spouse_share := Frac.mk 1 4 in
      let remainder := Frac.mk 3 4 in
      let mother_share := Frac.div remainder (3 # 1) in
      let father_share := Frac.div (Frac.mul remainder (2 # 1)) (3 # 1) in
      let c := say_all c
        [ u "  • العمرية الأولى: زوجة + أب + أم";
          u "  • الزوجة: " ++ Frac.str spouse_share;
          u "  • الباقي: " ++ Frac.str remainder;
          u "  • الأم: " ++ Frac.str mother_share ++ u " (ثلث الباقي)";
          u "  • الأب: " ++ Frac.str father_share ++ u " (ضعف الأم)" ] in
      update_heirs (fun heir =>
        if str_eqb (relation heir) SPOUSE_WIFE then set_share spouse_share heir
        else if str_eqb (relation heir) MOTHER then set_share mother_share heir
        else if str_eqb (relation heir) FATHER then set_share father_share heir
        else heir) c
    else
      let spouse_share := Frac.mk 1 2 in
      let remainder := Frac.mk 1 2 in
      let mother_share := Frac.div remainder (3 # 1) in
      let father_share := Frac.div (Frac.mul remainder (2 # 1)) (3 # 1) in
      let c := say_all c
        [ u "  • العمرية الثانية: زوج + أب + أم";
          u "  • الزوج: " ++ Frac.str spouse_share;
          u "  • الباقي: " ++ Frac.str remainder;
          u "  • الأم: " ++ Frac.str mother_share ++ u " (ثلث الباقي)";
          u "  • الأب: " ++ Frac.str father_share ++ u " (ضعف الأم)" ] in
      update_heirs (fun heir =>
        if str_eqb (relation heir) SPOUSE_HUSBAND then set_share spouse_share heir
        else if str_eqb (relation heir) MOTHER then set_share mother_share heir
        else if str_eqb (relation heir) FATHER then set_share father_share heir
        else heir) c in
  (Frac.mk 1 1, c).

(** One turn of the loop of [calculate_fixed_shares].  [all] is
    [self.heirs]: the loop reads only [relation] and [is_blocked] of the
    other heirs, which it never assigns, so the list at loop entry serves.
    The state is [(total_shares, self.reasoning)]. *)
Definition fixed_share_step (all : list Heir) (has_children : bool)
    (heir : Heir) (st : Fraction * list pystr) : Heir * (Fraction * list pystr) :=
  let '(total_shares, log) := st in
  if is_blocked heir then (heir, st)
  else
    let rel := relation heir in
    if str_eqb rel SPOUSE_WIFE then
      let share := if has_children then Frac.mk 1 8 else Frac.mk 1 4 in
      let verse :=
        if has_children then u "فَإِن كَانَ لَكُمْ وَلَدٌ فَلَهُنَّ الثُّمُنُ"
        else u "وَلَهُنَّ الرُّبُعُ" in
      (set_share share heir,
       (Frac.add total_shares share,
        log ++ [ u "  • الزوجة: " ++ Frac.str share;
                 u "    الدليل: " ++ verse ++ u " (النساء: 12)" ]))
    else if str_eqb rel SPOUSE_HUSBAND then
      let share := if has_children then Frac.mk 1 4 else Frac.mk 1 2 in
      (set_share share heir,
       (Frac.add total_shares share, log ++ [ u "  • الزوج: " ++ Frac.str share ]))
    else if str_eqb rel DAUGHTER then
      let num_daughters :=
        length (filter (fun h => str_eqb (relation h) DAUGHTER && negb (is_blocked h)) all) in
      let num_sons :=
        length (filter (fun h => str_eqb (relation h) SON && negb (is_blocked h)) all) in
      if (num_sons =? 0)%nat then
        let '(share, line) :=
          if (num_daughters =? 1)%nat then
            let share := Frac.mk 1 2 in
            (share, u "  • البنت الواحدة: " ++ Frac.str share)
          else
            let share := Frac.div (Frac.mk 2 3) (Frac.of_nat num_daughters) in
            (share, u "  • البنتان فأكثر: " ++ Frac.str share ++ u " لكل واحدة") in
        (set_share share heir, (Frac.add total_shares share, log ++ [line]))
      else (heir, st)
    else if str_eqb rel FATHER then
      if has_children then
        let share := Frac.mk 1 6 in
        (set_share share heir,
         (Frac.add total_shares share,
          log ++ [ u "  • الأب: " ++ Frac.str share ++ u " (السدس فرضا)" ]))
      else (heir, st)
    else if str_eqb rel GRANDFATHER then
      if has_children then
        let share := Frac.mk 1 6 in
        (set_share share heir,
         (Frac.add total_shares share,
          log ++ [ u "  • الجد: " ++ Frac.str share ++ u " (السدس فرضا - كالأب)" ]))
      else (heir, st)
    else if str_eqb rel MOTHER then
      let num_siblings :=
        length (filter (fun h => (contains (u "أخ") (relation h)
                                  || contains (u "أخت") (relation h))
                                 && negb (is_blocked h)) all) in
      let '(share, line) :=
        if has_children || (2 <=? num_siblings)%nat then
          let share := Frac.mk 1 6 in
          (share, u "  • الأم: " ++ Frac.str share ++ u " (السدس)")
        else
          let share := Frac.mk 1 3 in
          (share, u "  • الأم: " ++ Frac.str share ++ u " (الثلث)") in
      (set_share share heir, (Frac.add total_shares share, log ++ [line]))
    else (heir, st).

Definition calculate_fixed_shares (c : HeritageCalculator) : Fraction * HeritageCalculator :=
  if check_umariyyatayn c then solve_umariyyatayn c
  else
    let total_shares := Frac.mk 0 1 in
    let has_children :=
      existsb (fun h => str_in (relation h) [SON; DAUGHTER]) (filter unblocked (heirs c)) in
    let c := say c (NL ++ u "📊 **حساب الفروض المقدرة:**") in
    let c := say c (u "  • هل يوجد فرع وارث؟ " ++ (if has_children then u "نعم" else u "لا")) in
    let '(hs, (total_shares, log)) :=
      for_each (fixed_share_step (heirs c) has_children) (heirs c)
               (total_shares, reasoning c) in
    let c := mkCalc hs (steps c) log in
    let c := say c (NL ++ u "  📌 **مجموع الفروض = " ++ Frac.str total_shares ++ u "**") in
    (total_shares, c).

(** The selections made by [distribute_asaba], in the order of the source. *)
Definition asaba_son (h : Heir) : bool :=
  str_eqb (relation h) SON && negb (is_blocked h).
Definition asaba_daughter (h : Heir) : bool :=
  str_eqb (relation h) DAUGHTER && negb (is_blocked h) && Frac.eqb (share h) (0 # 1).
Definition asaba_father (h : Heir) : bool :=
  str_eqb (relation h) FATHER && negb (is_blocked h).
Definition asaba_grandfather (h : Heir) : bool :=
  str_eqb (relation h) GRANDFATHER && negb (is_blocked h).
Definition asaba_brother_full (h : Heir) : bool :=
  str_eqb (relation h) BROTHER_FULL && negb (is_blocked h).
Definition asaba_sister_full (h : Heir) : bool :=
  str_eqb (relation h) SISTER_FULL && negb (is_blocked h) && Frac.eqb (share h) (0 # 1).
Definition asaba_brother_paternal (h : Heir) : bool :=
  str_eqb (relation h) BROTHER_PATERNAL && negb (is_blocked h).
Definition asaba_sister_paternal (h : Heir) : bool :=
  str_eqb (relation h) SISTER_PATERNAL && negb (is_blocked h) && Frac.eqb (share h) (0 # 1).

(** [for m in males: m.share = unit_share * 2] followed by
    [for f in females: f.share = unit_share]: the two lists were selected
    from [self.heirs] before either loop, and hold the very objects of
    [self.heirs], so each heir is rewritten according to the list it is in. *)
Definition share_two_to_one (males females : Heir -> bool) (unit_share : Fraction)
    (hs : list Heir) : list Heir :=
  map (fun h =>
         if males h then set_share (Frac.mul unit_share (2 # 1)) h
         else if females h then set_share unit_share h
         else h) hs.

(** Assignment through the object returned by [next(...)]: the first heir
    of the list that satisfies [p]. *)
Fixpoint update_first (p : Heir -> bool) (f : Heir -> Heir) (hs : list Heir) : list Heir :=
  match hs with
  | [] => []
  | h :: t => if p h then f h :: t else h :: update_first p f t
  end.

(** The body shared, up to the wording of the trace, by the father and the
    grandfather branches. *)
Definition take_remainder (p : Heir -> bool) (who : Heir) (remainder : Fraction)
    (l_fard l_takes l_total l_all : pystr) (c : HeritageCalculator) : HeritageCalculator :=
  if Frac.gtb (share who) (0 # 1) then
    let c := say c (l_fard ++ Frac.str (share who) ++ u " فرضا (السدس)") in
    let total := Frac.add (share who) remainder in
    let c := with_heirs c (update_first p (set_share total) (heirs c)) in
    let c := say c (l_takes ++ Frac.str remainder) in
    say c (l_total ++ Frac.str total)
  else
    let c := with_heirs c (update_first p (set_share remainder) (heirs c)) in
    say c (l_all ++ Frac.str remainder).

Definition nonempty {A : Type} (l : list A) : bool :=
  match l with [] => false | _ :: _ => true end.

Definition distribute_asaba (remainder : Fraction) (c : HeritageCalculator)
    : HeritageCalculator :=
  let c := say c (NL ++ u "🔄 **توزيع العصبة (الباقي = " ++ Frac.str remainder ++ u "):**") in
  (* sons and daughters *)
  let sons := filter asaba_son (heirs c) in
  let daughters := filter asaba_daughter (heirs c) in
  if nonempty sons || nonempty daughters then
    let total_units := (length sons * 2 + length daughters)%nat in
    let unit_share := Frac.div remainder (Frac.of_nat total_units) in
    let c := say_all c
      [ u "  • عدد الأبناء: " ++ nat_str (length sons);
        u "  • عدد البنات: " ++ nat_str (length daughters);
        u "  • القاعدة: للذكر مثل حظ الأنثيين" ] in
    with_heirs c (share_two_to_one asaba_son asaba_daughter unit_share (heirs c))
  else
  (* the father takes the rest *)
  let father := find asaba_father (heirs c) in
  match (match father with
         | Some f => if Frac.gtb remainder (0 # 1) then Some f else None
         | None => None end) with
  | Some f =>
      take_remainder asaba_father f remainder
        (u "  • الأب له ") (u "  • الأب يأخذ الباقي عصبة: ")
        (u "  • المجموع للأب: ") (u "  • الأب يرث الباقي عصبة: ") c
  | None =>
  (* the grandfather takes the rest *)
  let grandfather := find asaba_grandfather (heirs c) in
  match (match grandfather with
         | Some g => if Frac.gtb remainder (0 # 1) then Some g else None
         | None => None end) with
  | Some g =>
      take_remainder asaba_grandfather g remainder
        (u "  • الجد له ") (u "  • الجد يأخذ الباقي عصبة: ")
        (u "  • المجموع للجد: ") (u "  • الجد يرث الباقي عصبة (كالأب): ") c
  | None =>
  (* full brothers and sisters *)
  let brothers_full := filter asaba_brother_full (heirs c) in
  let sisters_full := filter asaba_sister_full (heirs c) in
  if nonempty brothers_full || nonempty sisters_full then
    let total_units := (length brothers_full * 2 + length sisters_full)%nat in
    let unit_share := Frac.div remainder (Frac.of_nat total_units) in
    let c := say_all c
      [ u "  • الإخوة الأشقاء يرثون بالعصبة";
        u "  • عدد الإخوة: " ++ nat_str (length brothers_full);
        u "  • عدد الأخوات: " ++ nat_str (length sisters_full) ] in
    with_heirs c (share_two_to_one asaba_brother_full asaba_sister_full unit_share (heirs c))
  else
  (* consanguine brothers and sisters *)
  let brothers_paternal := filter asaba_brother_paternal (heirs c) in
  let sisters_paternal := filter asaba_sister_paternal (heirs c) in
  if nonempty brothers_paternal || nonempty sisters_paternal then
    let total_units := (length brothers_paternal * 2 + length sisters_paternal)%nat in
    let unit_share := Frac.div remainder (Frac.of_nat total_units) in
    let c := say_all c
      [ u "  • الإخوة لأب يرثون بالعصبة";
        u "  • عدد الإخوة: " ++ nat_str (length brothers_paternal);
        u "  • عدد الأخوات: " ++ nat_str (length sisters_paternal) ] in
    with_heirs c (share_two_to_one asaba_brother_paternal asaba_sister_paternal unit_share (heirs c))
  else c
  end end.

(** A value of the result dictionary: the sentinel ["محجوب"], or the
    record of a heir who inherits.  [percent_exact] is the rational
    [share * 100] that the source converts to a binary float and rounds to
    two decimals; the float is not represented. *)
Inductive HeirResult :=
| Blocked
| Share (fraction : pystr) (percent_exact : Fraction) (rel : pystr).

(** [d[k] = v] on an insertion-ordered dictionary: an existing key keeps
    its place and takes the new value, a new key goes last. *)
Fixpoint dict_set {V : Type} (k : pystr) (v : V) (d : list (pystr * V)) : list (pystr * V) :=
  match d with
  | [] => [(k, v)]
  | (k', v') :: t => if str_eqb k k' then (k, v) :: t else (k', v') :: dict_set k v t
  end.

(** The dictionary returned by [calculate]. *)
Record CalcResult := mkCalcResult {
  res_results : list (pystr * HeirResult);
  res_steps : list pystr;
  res_reasoning : list pystr
}.

Definition result_of (heir : Heir) : HeirResult :=
  if is_blocked heir then Blocked
  else Share (Frac.str (share heir)) (Frac.mul (share heir) (100 # 1)) (relation heir).

(** The three passes of [calculate], before the result is assembled. *)
Definition run_passes (c : HeritageCalculator) : HeritageCalculator :=
  let c := mkCalc (heirs c) [] [NL ++ u "🎯 **بدء عملية الحل:**" ++ NL] in
  let c := apply_hijab_rules c in
  let '(total_fards, c) := calculate_fixed_shares c in
  if negb (check_umariyyatayn c) then
    let remainder := Frac.sub (1 # 1) total_fards in
    if Frac.gtb remainder (0 # 1) then distribute_asaba remainder c else c
  else c.

Definition calculate (c : HeritageCalculator) : CalcResult * HeritageCalculator :=
  let c := run_passes c in
  let c := say c (NL ++ u "✅ **النتائج النهائية:**") in
  let results :=
    fold_left (fun results heir => dict_set (name heir) (result_of heir) results)
              (heirs c) [] in
  (mkCalcResult results (steps c) (reasoning c), c).

(** [get_heir_share]: the share of the first heir of that name, and
    [Fraction(0, 1)] when no heir has it. *)
Definition get_heir_share (c : HeritageCalculator) (heir_name : pystr) : Fraction :=
  match find (fun heir => str_eqb (name heir) heir_name) (heirs c) with
  | Some heir => share heir
  | None => Frac.mk 0 1
  end.

Definition get_total_distributed (c : HeritageCalculator) : Fraction :=
  fold_left Frac.add (map share (filter unblocked (heirs c))) (0 # 1).

Definition validate_distribution (c : HeritageCalculator) : bool :=
  Frac.eqb (get_total_distributed c) (Frac.mk 1 1).

End Calc.

(* ===================================================================== *)
(** ** The presentation layer ([application_streamlit_heritage.py]) *)
(* ===================================================================== *)

Module App.

(** [fraction_to_arabic]: the helper of the application that writes a
    fraction with its denominator, also when the denominator is 1.  The
    application defines it and never calls it: the result cards show the
    string stored by [calculate]. *)
Definition fraction_to_arabic (frac : Fraction) : pystr :=
  if (Qden frac =? 1)%positive then Z_str (Qnum frac) ++ u "/1"
  else Z_str (Qnum frac) ++ u "/" ++ N_str (Npos (Qden frac)).

End App.

(* ===================================================================== *)
(** ** Character tables and regular expressions (Python's [str] and [re]) *)
(* ===================================================================== *)

Module Unicode.

(** What the detector asks of the Unicode database of the interpreter:
    which code points are word characters for [\b] (alphanumeric or
    underscore), which are decimal digits and with what value ([\d] and
    [int]), and [str.lower]. *)
Record tables := mkTables {
  is_word : N -> bool;
  digit_value : N -> option N;
  lower : pystr -> pystr
}.

(** [\s] on a [str] pattern: the white space of [str.isspace]. *)
Definition is_space (c : N) : bool :=
  ((9 <=? c) && (c <=? 13) || (28 <=? c) && (c <=? 32) || (c =? 133) || (c =? 160)
   || (c =? 5760) || (8192 <=? c) && (c <=? 8202) || (c =? 8232) || (c =? 8233)
   || (c =? 8239) || (c =? 8287) || (c =? 12288))%N.

(** The tables on Basic Latin and on the Arabic block (U+0600 to U+06FF),
    the alphabet of the detector's patterns.  Code points of other blocks
    are given no class and are left alone by [lower]. *)
Definition basic_is_word (c : N) : bool :=
  ((48 <=? c) && (c <=? 57) || (65 <=? c) && (c <=? 90) || (c =? 95)
   || (97 <=? c) && (c <=? 122)
   || (1568 <=? c) && (c <=? 1610) || (1632 <=? c) && (c <=? 1641)
   || (1646 <=? c) && (c <=? 1647) || (1649 <=? c) && (c <=? 1747) || (c =? 1749)
   || (1765 <=? c) && (c <=? 1766) || (1774 <=? c) && (c <=? 1788) || (c =? 1791))%N.

Definition basic_digit_value (c : N) : option N :=
  if ((48 <=? c) && (c <=? 57))%N then Some (c - 48)%N
  else if ((1632 <=? c) && (c <=? 1641))%N then Some (c - 1632)%N
  else if ((1776 <=? c) && (c <=? 1785))%N then Some (c - 1776)%N
  else None.

Definition basic_lower (s : pystr) : pystr :=
  map (fun c => if ((65 <=? c) && (c <=? 90))%N then (c + 32)%N else c) s.

Definition basic : tables := mkTables basic_is_word basic_digit_value basic_lower.

End Unicode.

Module Regex.
Import Unicode.

(** One-character items: a literal code point, [\d], [\s]. *)
Inductive atom := Chr (c : N) | Digit | Space.

(** The fragment of the [re] syntax that the detector's patterns use.
    Capturing groups only group (the detector reads [group(0)] alone). *)
Inductive regex :=
| Eps
| Atom (a : atom)
| Lit (s : pystr)                (* a run of literal characters *)
| Seq (r1 r2 : regex)
| Alt (r1 r2 : regex)            (* r1|r2, r1 tried first *)
| Star (a : atom)                (* a*, greedy *)
| Plus (a : atom)                (* a+, greedy *)
| WordB                          (* \b *)
| NotAhead (r : regex)           (* (?!r) *)
| NotBehind (l : list atom).     (* (?<!l), of fixed width *)

Fixpoint cat (rs : list regex) : regex :=
  match rs with
  | [] => Eps
  | [r] => r
  | r :: t => Seq r (cat t)
  end.

Fixpoint alts (ws : list pystr) : regex :=
  match ws with
  | [] => Lit []
  | [w] => Lit w
  | w :: t => Alt (Lit w) (alts t)
  end.

Definition chars (s : pystr) : list atom := map Chr s.

Section Matcher.
Variable T : tables.

Definition atom_ok (a : atom) (c : N) : bool :=
  match a with
  | Chr x => (c =? x)%N
  | Digit => match digit_value T c with Some _ => true | None => false end
  | Space => is_space c
  end.

Definition word_at (s : pystr) : bool :=
  match s with c :: _ => is_word T c | [] => false end.

(** A position in the subject is the text before it, nearest character
    first, and the text after it. *)
Definition pos := (pystr * pystr)%type.

(** Greedy repetition of a one-character item, longest first. *)
Fixpoint m_star (a : atom) (pre suf : pystr) (k : pystr -> pystr -> option pos) : option pos :=
  match suf with
  | c :: s' =>
      if atom_ok a c then
        match m_star a (c :: pre) s' k with
        | Some e => Some e
        | None => k pre suf
        end
      else k pre suf
  | [] => k pre suf
  end.

Fixpoint m_lit (s : pystr) (pre suf : pystr) : option pos :=
  match s with
  | [] => Some (pre, suf)
  | x :: s' =>
      match suf with
      | c :: t => if (c =? x)%N then m_lit s' (c :: pre) t else None
      | [] => None
      end
  end.

(** Does the fixed-width item list [rl] (last item first) match the text
    that ends at the position? *)
Fixpoint behind (rl : list atom) (pre : pystr) : bool :=
  match rl, pre with
  | [], _ => true
  | a :: rl', c :: pre' => atom_ok a c && behind rl' pre'
  | _ :: _, [] => false
  end.

(** The backtracking matcher, in continuation-passing style: [k] is what
    remains to be matched after [r]; the first success in priority order
    is the answer. *)
Fixpoint m (r : regex) (pre suf : pystr) (k : pystr -> pystr -> option pos) : option pos :=
  match r with
  | Eps => k pre suf
  | Atom a =>
      match suf with
      | c :: s' => if atom_ok a c then k (c :: pre) s' else None
      | [] => None
      end
  | Lit s =>
      match m_lit s pre suf with
      | Some (p, s') => k p s'
      | None => None
      end
  | Seq r1 r2 => m r1 pre suf (fun p s => m r2 p s k)
  | Alt r1 r2 =>
      match m r1 pre suf k with
      | Some e => Some e
      | None => m r2 pre suf k
      end
  | Star a => m_star a pre suf k
  | Plus a =>
      match suf with
      | c :: s' => if atom_ok a c then m_star a (c :: pre) s' k else None
      | [] => None
      end
  | WordB => if xorb (word_at pre) (word_at suf) then k pre suf else None
  | NotAhead r' =>
      match m r' pre suf (fun p s => Some (p, s)) with
      | Some _ => None
      | None => k pre suf
      end
  | NotBehind l => if behind (rev l) pre then None else k pre suf
  end.

(** A match of [r] starting at the position: where it ends. *)
Definition match_at (r : regex) (pre suf : pystr) : option pos :=
  m r pre suf (fun p s => Some (p, s)).

(** [group(0)] of a match that started at [suf] and ended at [suf']. *)
Definition group0 (suf suf' : pystr) : pystr :=
  firstn (length suf - length suf') suf.

(** [re.search(r, text)]: the leftmost match, as [group(0)]. *)
Fixpoint search_from (r : regex) (pre suf : pystr) : option pystr :=
  match match_at r pre suf with
  | Some (_, suf') => Some (group0 suf suf')
  | None =>
      match suf with
      | [] => None
      | c :: t => search_from r (c :: pre) t
      end
  end.

Definition search (r : regex) (text : pystr) : option pystr := search_from r [] text.

(** The truth value of [re.search(r, text)]. *)
Definition found (r : regex) (text : pystr) : bool :=
  match search r text with Some _ => true | None => false end.

(** [re.finditer(r, text)] as the list of [group(0)]: leftmost matches
    that do not overlap.  [skip] counts the characters of the previous
    match still to be passed over.  No pattern of the detector matches the
    empty string, so the rule for empty matches is not needed. *)
Fixpoint finditer_from (r : regex) (skip : nat) (pre suf : pystr) : list pystr :=
  match skip with
  | S n =>
      match suf with
      | [] => []
      | c :: t => finditer_from r n (c :: pre) t
      end
  | O =>
      match match_at r pre suf with
      | Some (_, suf') =>
          let g := group0 suf suf' in
          g :: match suf with
               | [] => []
               | c :: t => finditer_from r (length g - 1) (c :: pre) t
               end
      | None =>
          match suf with
          | [] => []
          | c :: t => finditer_from r 0 (c :: pre) t
          end
      end
  end.

Definition finditer (r : regex) (text : pystr) : list pystr := finditer_from r 0 [] text.

(** [int(s)] on a run of decimal digits. *)
Definition int_of (s : pystr) : N :=
  fold_left (fun acc c => match digit_value T c with
                          | Some d => (acc * 10 + d)%N
                          | None => acc
                          end) s 0%N.

End Matcher.
End Regex.

(* ===================================================================== *)
(** ** The heir detector ([heir_detector.py]) *)
(* ===================================================================== *)

Module Detector.
Import Unicode Regex.

(** [_initialize_patterns]: the dictionary [self.patterns], one definition
    per key, each list in the order of the source. *)
Module Patterns.

Definition numbers : list (pystr * N) :=
  [ (u "واحد", 1); (u "واحدة", 1);
    (u "اثنان", 2); (u "اثنين", 2); (u "اثنتان", 2); (u "اثنتين", 2);
    (u "ثلاثة", 3); (u "ثلاث", 3);
    (u "أربعة", 4); (u "أربع", 4);
    (u "خمسة", 5); (u "خمس", 5);
    (u "ستة", 6); (u "ست", 6);
    (u "سبعة", 7); (u "سبع", 7);
    (u "ثمانية", 8); (u "ثماني", 8);
    (u "تسعة", 9); (u "تسع", 9);
    (u "عشرة", 10); (u "عشر", 10) ]%N.

Definition sp : regex := Atom Space.
Definition sps : regex := Star Space.
Definition sp1 : regex := Plus Space.
Definition L (s : string) : regex := Lit (u s).
Definition behind_of (s : string) : list atom := chars (u s).

(** The look-aheads [(?!\sX)] and [(?!\s+X)]. *)
Definition not_sp (s : string) : regex := NotAhead (Seq sp (L s)).
Definition not_sp1 (s : string) : regex := NotAhead (Seq sp1 (L s)).

Definition son : list regex :=
  [ cat [Plus Digit; sps; L "أبناء"];
    cat [Plus Digit; sps; L "ابن"];
    cat [alts [u "ثلاثة"; u "أربعة"; u "خمسة"; u "ستة"; u "سبعة"; u "ثمانية"; u "تسعة"; u "عشرة"];
         sps; L "أبناء"];
    cat [alts [u "اثنان"; u "اثنين"]; sps; L "من"; sps; L "الأبناء"];
    L "ولدان";
    L "ولدين";
    cat [WordB; L "وابنا"; WordB];
    cat [WordB; L "وابن"; WordB; NotAhead (L "ة"); not_sp "عم"; not_sp "أخ"; not_sp "الابن"];
    cat [L "و"; sp1; L "ابنا"; WordB];
    cat [L "و"; sp1; L "ابن"; WordB; NotAhead (L "ة"); not_sp "عم"; not_sp "أخ"];
    cat [NotBehind (behind_of "بنت" ++ [Space]); NotBehind (behind_of "ابن" ++ [Space]);
         NotBehind [Space]; WordB; L "ابن"; WordB;
         NotAhead (L "ة"); not_sp "عم"; not_sp "أخ"; not_sp "الابن"];
    cat [L "ولد"; not_sp "ابن"];
    cat [WordB; L "ولدا"; WordB] ].

Definition daughter : list regex :=
  [ cat [Plus Digit; sps; L "بنات"];
    cat [Plus Digit; sps; L "بنت"];
    cat [alts [u "ثلاث"; u "أربع"; u "خمس"; u "ست"; u "سبع"; u "ثماني"; u "تسع"; u "عشر"];
         sps; L "بنات"];
    cat [alts [u "اثنتان"; u "اثنتين"]; sps; L "من"; sps; L "البنات"];
    L "بنتان";
    L "بنتين";
    cat [WordB; L "وبنتا"; WordB; not_sp1 "ابن"; not_sp1 "بنت"];
    cat [WordB; L "وبنت"; WordB; not_sp1 "ابن"; not_sp1 "بنت"];
    cat [L "و"; sp1; L "بنتا"; WordB; not_sp1 "ابن"; not_sp1 "بنت"];
    cat [L "و"; sp1; L "بنت"; WordB; not_sp1 "ابن"; not_sp1 "بنت"];
    cat [WordB; L "بنتا"; WordB; not_sp1 "ابن"; not_sp1 "بنت"];
    cat [NotBehind (behind_of "بنت" ++ [Space]); WordB; L "بنت"; WordB;
         not_sp1 "ابن"; not_sp1 "بنت"; not_sp1 "الابن"] ].

Definition brother_full : list regex :=
  [ cat [Plus Digit; sps; L "إخوة"; sps; L "أشقاء"];
    cat [alts [u "ثلاثة"; u "أربعة"]; sps; L "إخوة"; sps; L "أشقاء"];
    cat [alts [u "أخوين"; u "أخوان"]; sps; L "شقيقين"];
    cat [L "أخ"; sps; L "شقيق"];
    cat [WordB; L "وأخا"; WordB; not_sp "لأب"; not_sp "لأم"];
    cat [WordB; L "وأخ"; WordB; not_sp "لأب"; not_sp "لأم"];
    cat [L "و"; sp1; L "أخا"; WordB; not_sp "لأب"; not_sp "لأم"];
    cat [L "و"; sp1; L "أخ"; WordB; not_sp "لأب"; not_sp "لأم"];
    cat [WordB; L "أخا"; WordB; not_sp "لأب"; not_sp "لأم"];
    cat [NotBehind (behind_of "ابن" ++ [Space]); WordB; L "أخ"; WordB;
         not_sp "لأب"; not_sp "لأم"] ].

Definition sister_full : list regex :=
  [ cat [Plus Digit; sps; L "أخوات"; sps; L "شقيقات"];
    cat [alts [u "أختين"; u "أختان"]; sps; L "شقيقتين"];
    cat [L "أخت"; sps; L "شقيقة"];
    cat [WordB; L "أختا"; WordB; not_sp "لأب"; not_sp "لأم"];
    cat [WordB; L "وأختا"; WordB; not_sp "لأب"; not_sp "لأم"];
    cat [WordB; L "وأخت"; WordB; not_sp "لأب"; not_sp "لأم"];
    cat [L "و"; sp1; L "أختا"; WordB; not_sp "لأب"; not_sp "لأم"];
    cat [L "و"; sp1; L "أخت"; WordB; not_sp "لأب"; not_sp "لأم"];
    cat [NotBehind (behind_of "ابن" ++ [Space]); WordB; L "أخت"; WordB;
         not_sp "لأب"; not_sp "لأم"] ].

Definition brother_paternal : list regex :=
  [ cat [Plus Digit; sps; L "إخوة"; sps; L "لأب"];
    cat [L "أخ"; sps; L "لأب"];
    cat [L "أخا"; sps; L "لأب"];
    cat [L "وأخ"; sps; L "لأب"];
    cat [L "وأخا"; sps; L "لأب"] ].

Definition sister_paternal : list regex :=
  [ cat [Plus Digit; sps; L "أخوات"; sps; L "لأب"];
    cat [L "أخت"; sps; L "لأب"];
    cat [L "أختا"; sps; L "لأب"];
    cat [L "وأخت"; sps; L "لأب"];
    cat [L "وأختا"; sps; L "لأب"] ].

(** [self.patterns.get(f'brother_{t}', [])] and its sister. *)
Definition brother (t : pystr) : list regex :=
  if str_eqb t (u "full") then brother_full
  else if str_eqb t (u "paternal") then brother_paternal
  else [].
Definition sister (t : pystr) : list regex :=
  if str_eqb t (u "full") then sister_full
  else if str_eqb t (u "paternal") then sister_paternal
  else [].

(** The patterns written inside [detect_heirs]. *)
Definition granddaughter : regex := cat [L "بنت"; sp1; L "ابن"].
Definition granddaughter_daughter : regex := cat [L "بنت"; sp1; L "بنت"].

(** The six forms [\bX\b], [\bXا\b], [\bوX\b], [\bوXا\b], [و\s+X\b],
    [و\s+Xا\b] used for the grandfather, the father and the mother. *)
Definition standalone (x xa wx wxa : string) : list regex :=
  [ cat [WordB; L x; WordB];
    cat [WordB; L xa; WordB];
    cat [WordB; L wx; WordB];
    cat [WordB; L wxa; WordB];
    cat [L "و"; sp1; L x; WordB];
    cat [L "و"; sp1; L xa; WordB] ].

Definition grandfather_patterns : list regex := standalone "جد" "جدا" "وجد" "وجدا".
Definition father_patterns : list regex := standalone "أب" "أبا" "وأب" "وأبا".
Definition mother_patterns : list regex := standalone "أم" "أما" "وأم" "وأما".

Definition brother_paternal_search : regex := cat [L "أخ"; sp1; L "لأب"].
Definition brother_paternal_guard : regex := cat [L "أخ"; sps; L "لأب"].
Definition sister_paternal_search : regex := cat [L "أخت"; sp1; L "لأب"].

End Patterns.

(** The object state of [HeirDetector] (the pattern tables never change). *)
Record HeirDetector := mkDetector {
  detected_heirs : list Heir;
  deceased_gender : option pystr
}.

(** [HeirDetector()]. *)
Definition new_detector : HeirDetector := mkDetector [] None.

Section Detect.
Variable T : tables.

Definition detect_deceased_gender (text : pystr) : pystr :=
  let text_lower := lower T text in
  let male_indicators :=
    [u "توفي"; u "مات"; u "توفى"; u "تاركا"; u "وترك"; u "رجل"; u "عن"] in
  let female_indicators :=
    [u "توفيت"; u "ماتت"; u "توفت"; u "تاركة"; u "امرأة"] in
  if existsb (fun indicator => contains indicator text_lower) female_indicators then FEMALE
  else if existsb (fun indicator => contains indicator text_lower) male_indicators then MALE
  else if contains (u "زوجة") text_lower then MALE
  else if contains (u "زوج") text_lower && negb (contains (u "زوجة") text_lower) then FEMALE
  else MALE.

(** The first parameter of the source, [text], is not read. *)
Definition extract_number_from_text (text pattern_match : pystr) : N :=
  match search T (Plus Digit) pattern_match with
  | Some digit_match => int_of T digit_match
  | None =>
      match find (fun wn => contains (fst wn) pattern_match) Patterns.numbers with
      | Some (_, num) => num
      | None =>
          if existsb (fun x => contains x pattern_match)
               [u "ولدان"; u "ولدين"; u "بنتان"; u "بنتين";
                u "اثنان"; u "اثنين"; u "اثنتان"; u "اثنتين"]
          then 2%N else 1%N
      end
  end.

(** The body common to [detect_sons], [detect_daughters], [detect_brothers]
    and [detect_sisters]: the largest count over all matches of all patterns. *)
Definition detect_max (patterns : list regex) (text : pystr) : N :=
  let text_lower := lower T text in
  fold_left
    (fun max_count pattern =>
       fold_left
         (fun max_count full_match =>
            N.max max_count (extract_number_from_text text_lower full_match))
         (finditer T pattern text_lower) max_count)
    patterns 0%N.

Definition detect_sons (text : pystr) : N := detect_max Patterns.son text.
Definition detect_daughters (text : pystr) : N := detect_max Patterns.daughter text.
Definition detect_brothers (text brother_type : pystr) : N :=
  detect_max (Patterns.brother brother_type) text.
Definition detect_sisters (text sister_type : pystr) : N :=
  detect_max (Patterns.sister sister_type) text.

(** The heirs appended for a positive count: one record without suffix,
    or [n] records named ["X 1"], ["X 2"], ... *)
Definition numbered (n : N) (label rel gen : pystr) : list Heir :=
  if (0 <? n)%N then
    if (n =? 1)%N then [new_Heir label rel gen]
    else map (fun i => new_Heir (label ++ u " " ++ nat_str (i + 1)) rel gen)
             (seq 0 (N.to_nat n))
  else [].

(** The loop of the consanguine siblings, which names its heirs inside. *)
Definition numbered_paternal (n : N) (label rel gen : pystr) : list Heir :=
  if (1 <=? n)%N then
    map (fun i => new_Heir (if (1 <? n)%N then label ++ u " " ++ nat_str (i + 1) else label)
                           rel gen)
        (seq 0 (N.to_nat n))
  else [].

(** [self.detected_heirs.append(h)], for one heir and for a run of them. *)
Definition append (d : HeirDetector) (h : Heir) : HeirDetector :=
  mkDetector (detected_heirs d ++ [h]) (deceased_gender d).
Definition append_all (d : HeirDetector) (hs : list Heir) : HeirDetector :=
  mkDetector (detected_heirs d ++ hs) (deceased_gender d).

Definition gender_is (d : HeirDetector) (g : pystr) : bool :=
  match deceased_gender d with Some g' => str_eqb g' g | None => false end.

(** [if b: <statements on the detector>]. *)
Definition when (b : bool) (body : HeirDetector -> HeirDetector) (d : HeirDetector)
    : HeirDetector :=
  if b then body d else d.

Definition detect_heirs (d : HeirDetector) (text : pystr) : list Heir * HeirDetector :=
  let d := mkDetector [] (deceased_gender d) in
  let text_lower := lower T text in
  let d := mkDetector (detected_heirs d) (Some (detect_deceased_gender text)) in
  (* 1. the spouse *)
  let d :=
    if gender_is d MALE then
      when (existsb (fun p => contains p text_lower)
              [u "زوجة"; u "زوجته"; u "وزوجة"; u "وزوجته"])
           (fun d => append d (new_Heir (u "الزوجة") SPOUSE_WIFE FEMALE)) d
    else
      when (contains (u "زوج") text_lower && negb (contains (u "زوجة") text_lower))
           (fun d => append d (new_Heir (u "الزوج") SPOUSE_HUSBAND MALE)) d in
  (* 2. sons *)
  let d := append_all d (numbered (detect_sons text) (u "الابن") SON MALE) in
  (* 3. daughters *)
  let d := append_all d (numbered (detect_daughters text) (u "البنت") DAUGHTER FEMALE) in
  (* 4. the son's daughter *)
  let d :=
    when (found T Patterns.granddaughter text_lower)
         (fun d => append d (new_Heir (u "بنت الابن") GRANDDAUGHTER FEMALE)) d in
  (* 5. the daughter's daughter *)
  let d :=
    when (found T Patterns.granddaughter_daughter text_lower)
         (fun d => append d (new_Heir (u "بنت البنت") GRANDDAUGHTER_DAUGHTER FEMALE)) d in
  (* 6. the grandfather *)
  let has_grandfather :=
    existsb (fun pattern => found T pattern text_lower) Patterns.grandfather_patterns in
  let d :=
    when (has_grandfather && negb (contains (u "جدة") text_lower))
         (fun d => append d (new_Heir (u "الجد") GRANDFATHER MALE)) d in
  (* 7. the father *)
  let has_father :=
    existsb (fun pattern => found T pattern text_lower) Patterns.father_patterns in
  let d :=
    when (has_father && negb (contains (u "أبناء") text_lower)
          && negb (contains (u "لأب") text_lower))
         (when (negb (found T Patterns.brother_paternal_guard text_lower))
               (fun d => append d (new_Heir (u "الأب") FATHER MALE))) d in
  (* 8. the mother *)
  let has_mother :=
    existsb (fun pattern => found T pattern text_lower) Patterns.mother_patterns in
  let d :=
    when (has_mother && negb (contains (u "لأم") text_lower))
         (fun d => append d (new_Heir (u "الأم") MOTHER FEMALE)) d in
  (* 9. full brothers *)
  let d :=
    append_all d (numbered (detect_brothers text (u "full"))
                           (u "الأخ الشقيق") BROTHER_FULL MALE) in
  (* 10. full sisters *)
  let d :=
    append_all d (numbered (detect_sisters text (u "full"))
                           (u "الأخت الشقيقة") SISTER_FULL FEMALE) in
  (* 11. consanguine brothers and sisters *)
  let d :=
    when (found T Patterns.brother_paternal_search text_lower)
         (fun d => append_all d
            (numbered_paternal (extract_number_from_text text_lower (u "أخ لأب"))
                               (u "الأخ لأب") BROTHER_PATERNAL MALE)) d in
  let d :=
    when (found T Patterns.sister_paternal_search text_lower)
         (fun d => append_all d
            (numbered_paternal (extract_number_from_text text_lower (u "أخت لأب"))
                               (u "الأخت لأب") SISTER_PATERNAL FEMALE)) d in
  (detected_heirs d, d).

Definition get_detection_summary (d : HeirDetector) : pystr :=
  let summary := u "🔍 **نتائج الكشف عن الورثة:**" ++ NL in
  let summary :=
    summary ++ u "  • جنس المتوفى: "
            ++ match deceased_gender d with Some g => g | None => u "None" end ++ NL in
  let summary :=
    summary ++ u "  • عدد الورثة المكتشفين: " ++ nat_str (length (detected_heirs d))
            ++ NL ++ NL in
  if Calc.nonempty (detected_heirs d) then
    fold_left (fun summary heir =>
                 summary ++ u "  • " ++ name heir ++ u " (" ++ relation heir ++ u ")" ++ NL)
              (detected_heirs d) (summary ++ u "**قائمة الورثة:**" ++ NL)
  else summary ++ u "⚠️ لم يتم اكتشاف أي ورثة" ++ NL.

End Detect.

(** [get_heirs_list] and [get_deceased_gender]. *)
Definition get_heirs_list (d : HeirDetector) : list Heir := detected_heirs d.
Definition get_deceased_gender (d : HeirDetector) : option pystr := deceased_gender d.

End Detector.

(* ===================================================================== *)
(** ** The complete system ([HeritageSystem]) *)
(* ===================================================================== *)

Module System.
Import Unicode Detector.

Record HeritageSystem := mkSystem {
  detector : HeirDetector;
  calculator : option Calc.HeritageCalculator
}.

(** [HeritageSystem()]. *)
Definition new_system : HeritageSystem := mkSystem new_detector None.

(** The dictionary returned by [solve]: the error envelope, or the result
    of [calculate] with the detection summary added. *)
Inductive Envelope :=
| Failure (error : pystr) (results : list (pystr * Calc.HeirResult)) (reasoning : list pystr)
| Success (result : Calc.CalcResult) (summary : pystr).

(** [solve(query)].  The text printed when [verbose] is set goes to the
    standard output and is not part of the returned value.  The list held
    by the detector is the list the calculator works on, so the detector
    sees the heirs as the calculator leaves them. *)
Definition solve (T : tables) (sys : HeritageSystem) (query : pystr)
    : Envelope * HeritageSystem :=
  let '(heirs, det) := detect_heirs T (detector sys) query in
  if negb (Calc.nonempty heirs) then
    (Failure (u "لم يتم اكتشاف أي ورثة") []
             [u "⚠️ لم يتم العثور على ورثة في النص المدخل"],
     mkSystem det (calculator sys))
  else
    let '(result, calc) := Calc.calculate (Calc.init heirs) in
    let det := mkDetector (Calc.heirs calc) (deceased_gender det) in
    (Success result (get_detection_summary det), mkSystem det (Some calc)).

End System.

(* ===================================================================== *)
(** * Properties *)
(* ===================================================================== *)

(** ** Strings *)

Lemma str_eqb_eq (a b : pystr) : str_eqb a b = true <-> a = b.
Proof.
  revert b; induction a as [|x a IH]; destruct b as [|y b]; simpl;
    try (split; [discriminate | congruence]); try tauto.
  rewrite andb_true_iff, N.eqb_eq, IH. split.
  - intros [-> ->]; reflexivity.
  - intros E; injection E; auto.
Qed.

Lemma str_eqb_refl (a : pystr) : str_eqb a a = true.
Proof. apply str_eqb_eq; reflexivity. Qed.

Lemma str_eqb_neq (a b : pystr) : str_eqb a b = false <-> a <> b.
Proof.
  rewrite <- str_eqb_eq. destruct (str_eqb a b); split; congruence.
Qed.

Lemma str_eqb_sym (a b : pystr) : str_eqb a b = str_eqb b a.
Proof.
  destruct (str_eqb b a) eqn:E.
  - apply str_eqb_eq in E; subst; apply str_eqb_refl.
  - apply str_eqb_neq; apply str_eqb_neq in E; congruence.
Qed.

Lemma str_in_In (x : pystr) (l : list pystr) : str_in x l = true <-> In x l.
Proof.
  unfold str_in. rewrite existsb_exists. split.
  - intros [y [Hy E]]. apply str_eqb_eq in E. subst; assumption.
  - intros H. exists x. split; [assumption | apply str_eqb_refl].
Qed.

Lemma str_in_false (x : pystr) (l : list pystr) : str_in x l = false <-> ~ In x l.
Proof.
  rewrite <- str_in_In. destruct (str_in x l); split; congruence.
Qed.

(** ** Heirs through the passes *)

Module CalcFacts.
Import Calc.

Lemma for_each_fst (S : Type) (body : Heir -> S -> Heir * S) (f : Heir -> Heir) :
  (forall h s, fst (body h s) = f h) ->
  forall hs s, fst (for_each body hs s) = map f hs.
Proof.
  intros Hf; induction hs as [|h t IH]; intros s; simpl; [reflexivity|].
  specialize (Hf h s). destruct (body h s) as [h' s1]. simpl in Hf.
  specialize (IH s1). destruct (for_each body t s1) as [t' s2]. simpl in *.
  congruence.
Qed.

(** What one exclusion loop does to a heir. *)
Definition block_if (cond : Heir -> bool) (h : Heir) : Heir :=
  if cond h then set_blocked h else h.

Lemma heirs_block_where cond line c :
  heirs (block_where cond line c) = map (block_if cond) (heirs c).
Proof.
  unfold block_where.
  rewrite <- (for_each_fst _
    (fun heir log => if cond heir then (set_blocked heir, log ++ [line heir]) else (heir, log))
    (block_if cond)) with (s := reasoning c).
  - destruct (for_each _ (heirs c) (reasoning c)); reflexivity.
  - intros h s; unfold block_if; destruct (cond h); reflexivity.
Qed.

Lemma heirs_say c l : heirs (say c l) = heirs c.
Proof. reflexivity. Qed.

Lemma heirs_say_all c l : heirs (say_all c l) = heirs c.
Proof. reflexivity. Qed.

(** The exclusion pass, heir by heir: [rels] are the kinds of the heirs
    that were not blocked when the pass began. *)
Definition hijab_rule1 (rels : list pystr) (h : Heir) : bool :=
  str_in FATHER rels && str_eqb (relation h) GRANDFATHER.
Definition hijab_rule2 (rels : list pystr) (h : Heir) : bool :=
  (str_in FATHER rels || str_in SON rels || str_in GRANDFATHER rels)
  && str_in (relation h) blocked_sibling_kinds.
Definition hijab_rule3 (rels : list pystr) (h : Heir) : bool :=
  str_in BROTHER_FULL rels && str_in (relation h) [BROTHER_PATERNAL; SISTER_PATERNAL].

Definition hijab_one (rels : list pystr) (h : Heir) : Heir :=
  block_if (fun h => hijab_rule1 rels h || hijab_rule2 rels h || hijab_rule3 rels h) h.

Definition live_kinds (hs : list Heir) : list pystr := map relation (filter unblocked hs).

Lemma block_if_twice c1 c2 h :
  block_if c2 (block_if c1 h) =
  block_if (fun h => c1 h || c2 h) h.
Proof.
  unfold block_if.
  destruct (c1 h) eqn:E1; simpl.
  - destruct (c2 (set_blocked h)); reflexivity.
  - reflexivity.
Qed.

Lemma block_if_ext c1 c2 h : c1 h = c2 h -> block_if c1 h = block_if c2 h.
Proof. unfold block_if; intros ->; reflexivity. Qed.

Lemma heirs_if_say (b : bool) x l : heirs (if b then say x l else x) = heirs x.
Proof. destruct b; reflexivity. Qed.

Lemma block_if_false h : block_if (fun _ => false) h = h.
Proof. reflexivity. Qed.

Lemma heirs_block_flag (b : bool) cond line c :
  heirs (if b then block_where cond line c else c)
  = map (block_if (fun h => b && cond h)) (heirs c).
Proof.
  destruct b; [apply heirs_block_where|].
  simpl. symmetry. rewrite <- (map_id (heirs c)) at 2. apply map_ext.
  intros h; reflexivity.
Qed.

Lemma heirs_block_opt (o : option pystr) cond (line : pystr -> Heir -> pystr) c :
  heirs (match o with Some b => block_where cond (line b) c | None => c end)
  = map (block_if (fun h => (match o with Some _ => true | None => false end) && cond h))
        (heirs c).
Proof.
  destruct o; [apply heirs_block_where|].
  simpl. symmetry. rewrite <- (map_id (heirs c)) at 2. apply map_ext.
  intros h; reflexivity.
Qed.

Lemma heirs_apply_hijab_rules c :
  heirs (apply_hijab_rules c) = map (hijab_one (live_kinds (heirs c))) (heirs c).
Proof.
  unfold apply_hijab_rules. cbv zeta.
  rewrite heirs_if_say, heirs_block_flag.
  rewrite (heirs_block_opt _ _ (fun b heir => u "  → " ++ name heir ++ u " محجوب بوجود " ++ b)).
  rewrite heirs_block_flag, heirs_say, !map_map.
  fold (live_kinds (heirs c)). set (rels := live_kinds (heirs c)).
  apply map_ext. intros h.
  rewrite !block_if_twice. apply block_if_ext.
  unfold hijab_rule1, hijab_rule2, hijab_rule3.
  destruct (str_in FATHER rels), (str_in SON rels), (str_in GRANDFATHER rels);
    simpl; rewrite ?orb_false_r, <- ?orb_assoc; reflexivity.
Qed.

(** The override of the two special cases, heir by heir. *)
Definition umar_one (wife : bool) (h : Heir) : Heir :=
  if wife then
    if str_eqb (relation h) SPOUSE_WIFE then set_share (Frac.mk 1 4) h
    else if str_eqb (relation h) MOTHER then set_share (Frac.div (Frac.mk 3 4) (3 # 1)) h
    else if str_eqb (relation h) FATHER
         then set_share (Frac.div (Frac.mul (Frac.mk 3 4) (2 # 1)) (3 # 1)) h
    else h
  else
    if str_eqb (relation h) SPOUSE_HUSBAND then set_share (Frac.mk 1 2) h
    else if str_eqb (relation h) MOTHER then set_share (Frac.div (Frac.mk 1 2) (3 # 1)) h
    else if str_eqb (relation h) FATHER
         then set_share (Frac.div (Frac.mul (Frac.mk 1 2) (2 # 1)) (3 # 1)) h
    else h.

Lemma heirs_solve_umariyyatayn c :
  heirs (snd (solve_umariyyatayn c))
  = map (umar_one (str_in SPOUSE_WIFE (live_kinds (heirs c)))) (heirs c).
Proof.
  unfold solve_umariyyatayn, umar_one, live_kinds. cbv zeta. simpl snd.
  simpl heirs at 2.
  destruct (str_in SPOUSE_WIFE (map relation (filter unblocked (heirs c))));
    unfold update_heirs, with_heirs; simpl; reflexivity.
Qed.

Lemma fst_solve_umariyyatayn c : fst (solve_umariyyatayn c) = 1 # 1.
Proof. reflexivity. Qed.

(** The furud loop, heir by heir. *)
Definition fixed_one (all : list Heir) (has_children : bool) (h : Heir) : Heir :=
  fst (fixed_share_step all has_children h (0 # 1, [])).

Lemma fixed_share_step_fst all hc h st :
  fst (fixed_share_step all hc h st) = fixed_one all hc h.
Proof.
  unfold fixed_one, fixed_share_step. destruct st as [t l].
  repeat match goal with
         | |- context [if ?b then _ else _] => destruct b
         end; reflexivity.
Qed.

Definition has_children_of (hs : list Heir) : bool :=
  existsb (fun h => str_in (relation h) [SON; DAUGHTER]) (filter unblocked hs).

Lemma heirs_calculate_fixed_shares c :
  heirs (snd (calculate_fixed_shares c))
  = if check_umariyyatayn c
    then map (umar_one (str_in SPOUSE_WIFE (live_kinds (heirs c)))) (heirs c)
    else map (fixed_one (heirs c) (has_children_of (heirs c))) (heirs c).
Proof.
  unfold calculate_fixed_shares.
  destruct (check_umariyyatayn c); [apply heirs_solve_umariyyatayn|].
  cbv zeta. rewrite !heirs_say.
  fold (has_children_of (heirs c)).
  rewrite <- (for_each_fst _ (fixed_share_step (heirs c) (has_children_of (heirs c)))
                (fixed_one (heirs c) (has_children_of (heirs c)))
                (fixed_share_step_fst (heirs c) (has_children_of (heirs c))))
    with (s := (Frac.mk 0 1, reasoning (say (say c (NL ++ u "📊 **حساب الفروض المقدرة:**"))
                  (u "  • هل يوجد فرع وارث؟ " ++
                   (if has_children_of (heirs c) then u "نعم" else u "لا"))))).
  destruct (for_each _ _ _) as [hs [t l]]. reflexivity.
Qed.

Lemma check_umariyyatayn_heirs c c' :
  heirs c = heirs c' -> check_umariyyatayn c = check_umariyyatayn c'.
Proof. unfold check_umariyyatayn. intros ->. reflexivity. Qed.

(** No pass touches [name], [relation], [gender] or [count]; only the
    exclusion pass touches [is_blocked]; it does not touch [share]. *)
Definition same_kind (f : Heir -> Heir) : Prop :=
  forall h, relation (f h) = relation h /\ name (f h) = name h.
Definition same_flag (f : Heir -> Heir) : Prop :=
  forall h, is_blocked (f h) = is_blocked h.

Lemma hijab_one_kind rels : same_kind (hijab_one rels).
Proof.
  intros h. unfold hijab_one, block_if.
  destruct (_ || _ || _)%bool; split; reflexivity.
Qed.

Lemma hijab_one_share rels h : share (hijab_one rels h) = share h.
Proof.
  unfold hijab_one, block_if. destruct (_ || _ || _)%bool; reflexivity.
Qed.

Lemma umar_one_kind w : same_kind (umar_one w).
Proof.
  intros h. unfold umar_one.
  repeat match goal with
         | |- context [if ?b then _ else _] => destruct b
         end; split; reflexivity.
Qed.

Lemma umar_one_flag w : same_flag (umar_one w).
Proof.
  intros h. unfold umar_one.
  repeat match goal with
         | |- context [if ?b then _ else _] => destruct b
         end; reflexivity.
Qed.

Lemma fixed_one_kind all hc : same_kind (fixed_one all hc).
Proof.
  intros h. unfold fixed_one, fixed_share_step.
  repeat match goal with
         | |- context [if ?b then _ else _] => destruct b
         end; split; reflexivity.
Qed.

Lemma fixed_one_flag all hc : same_flag (fixed_one all hc).
Proof.
  intros h. unfold fixed_one, fixed_share_step.
  destruct (is_blocked h) eqn:Hb; [exact Hb|].
  repeat match goal with
         | |- context [if ?b then _ else _] => destruct b
         end; exact Hb.
Qed.

Lemma fixed_one_blocked all hc h : is_blocked h = true -> fixed_one all hc h = h.
Proof.
  intros Hb. unfold fixed_one, fixed_share_step. rewrite Hb. reflexivity.
Qed.

Lemma filter_map_flag (f : Heir -> Heir) hs :
  same_flag f -> filter unblocked (map f hs) = map f (filter unblocked hs).
Proof.
  intros Hf. induction hs as [|h t IH]; simpl; [reflexivity|].
  unfold unblocked at 1. rewrite Hf. fold (unblocked h).
  destruct (unblocked h); simpl; congruence.
Qed.

Lemma live_kinds_map (f : Heir -> Heir) hs :
  same_kind f -> same_flag f -> live_kinds (map f hs) = live_kinds hs.
Proof.
  intros Hk Hf. unfold live_kinds. rewrite (filter_map_flag _ hs Hf), map_map.
  apply map_ext. intros h. apply Hk.
Qed.

Lemma live_count_map (f : Heir -> Heir) hs :
  same_flag f -> length (filter unblocked (map f hs)) = length (filter unblocked hs).
Proof.
  intros Hf. rewrite (filter_map_flag _ hs Hf). apply length_map.
Qed.

(** The special-case test reads only the kinds and the number of the
    heirs that are not blocked. *)
Definition umar_test (kinds : list pystr) (n : nat) : bool :=
  if negb (str_in FATHER kinds) then false
  else (set_eqb kinds [SPOUSE_WIFE; FATHER; MOTHER]
        || set_eqb kinds [SPOUSE_HUSBAND; FATHER; MOTHER]) && (n =? 3)%nat.

Lemma check_umariyyatayn_test c :
  check_umariyyatayn c
  = umar_test (live_kinds (heirs c)) (length (filter unblocked (heirs c))).
Proof. reflexivity. Qed.

Lemma check_after_fixed c :
  check_umariyyatayn (snd (calculate_fixed_shares c)) = check_umariyyatayn c.
Proof.
  rewrite (check_umariyyatayn_test (snd _)), heirs_calculate_fixed_shares.
  destruct (check_umariyyatayn c) eqn:E; rewrite <- E, check_umariyyatayn_test;
    rewrite live_kinds_map, live_count_map;
    auto using umar_one_kind, umar_one_flag, fixed_one_kind, fixed_one_flag.
Qed.

(** The residue pass on the heirs alone, for a positive remainder. *)
Definition take_hs (p : Heir -> bool) (who : Heir) (remainder : Fraction)
    (hs : list Heir) : list Heir :=
  update_first p
    (set_share (if Frac.gtb (share who) (0 # 1)
                then Frac.add (share who) remainder else remainder)) hs.

Definition unit_of (remainder : Fraction) (males females : Heir -> bool)
    (hs : list Heir) : Fraction :=
  Frac.div remainder
    (Frac.of_nat (length (filter males hs) * 2 + length (filter females hs))).

Definition asaba_hs (remainder : Fraction) (hs : list Heir) : list Heir :=
  if nonempty (filter asaba_son hs) || nonempty (filter asaba_daughter hs) then
    share_two_to_one asaba_son asaba_daughter
      (unit_of remainder asaba_son asaba_daughter hs) hs
  else match find asaba_father hs with
  | Some f => take_hs asaba_father f remainder hs
  | None =>
  match find asaba_grandfather hs with
  | Some g => take_hs asaba_grandfather g remainder hs
  | None =>
  if nonempty (filter asaba_brother_full hs) || nonempty (filter asaba_sister_full hs) then
    share_two_to_one asaba_brother_full asaba_sister_full
      (unit_of remainder asaba_brother_full asaba_sister_full hs) hs
  else
  if nonempty (filter asaba_brother_paternal hs)
     || nonempty (filter asaba_sister_paternal hs) then
    share_two_to_one asaba_brother_paternal asaba_sister_paternal
      (unit_of remainder asaba_brother_paternal asaba_sister_paternal hs) hs
  else hs
  end end.

Lemma heirs_take_remainder p who r a b c d cc :
  heirs (take_remainder p who r a b c d cc) = take_hs p who r (heirs cc).
Proof.
  unfold take_remainder, take_hs.
  destruct (Frac.gtb (share who) (0 # 1)); reflexivity.
Qed.

Lemma heirs_distribute_asaba r c :
  Frac.gtb r (0 # 1) = true ->
  heirs (distribute_asaba r c) = asaba_hs r (heirs c).
Proof.
  intros Hr. unfold distribute_asaba, asaba_hs, unit_of. cbv zeta.
  rewrite Hr, !heirs_say.
  destruct (nonempty (filter asaba_son (heirs c)) || _)%bool; [reflexivity|].
  destruct (find asaba_father (heirs c)); [rewrite heirs_take_remainder; reflexivity|].
  destruct (find asaba_grandfather (heirs c)); [rewrite heirs_take_remainder; reflexivity|].
  destruct (nonempty (filter asaba_brother_full (heirs c)) || _)%bool; [reflexivity|].
  destruct (nonempty (filter asaba_brother_paternal (heirs c)) || _)%bool; reflexivity.
Qed.

(** The heirs after the three passes. *)
Definition START : pystr := NL ++ u "🎯 **بدء عملية الحل:**" ++ NL.

Definition after_hijab (hs : list Heir) : HeritageCalculator :=
  apply_hijab_rules (mkCalc hs [] [START]).
Definition after_fixed (hs : list Heir) : Fraction * HeritageCalculator :=
  calculate_fixed_shares (after_hijab hs).

Lemma run_passes_eq c :
  run_passes c =
  if check_umariyyatayn (after_hijab (heirs c)) then snd (after_fixed (heirs c))
  else if Frac.gtb (Frac.sub (1 # 1) (fst (after_fixed (heirs c)))) (0 # 1)
       then distribute_asaba (Frac.sub (1 # 1) (fst (after_fixed (heirs c))))
                             (snd (after_fixed (heirs c)))
       else snd (after_fixed (heirs c)).
Proof.
  unfold after_fixed.
  rewrite <- (check_after_fixed (after_hijab (heirs c))).
  unfold run_passes, after_hijab, START. cbv zeta.
  destruct (calculate_fixed_shares _) as [t c2]. simpl.
  destruct (check_umariyyatayn c2); reflexivity.
Qed.

Lemma nonempty_filter (p : Heir -> bool) hs : nonempty (filter p hs) = existsb p hs.
Proof.
  induction hs as [|h t IH]; simpl; [reflexivity|].
  destruct (p h); simpl; [reflexivity | exact IH].
Qed.

Lemma set_eqb_true (a b : list pystr) :
  set_eqb a b = true -> forall x, In x a -> In x b.
Proof.
  unfold set_eqb. rewrite andb_true_iff, !forallb_forall.
  intros [Hab _] x Hx. apply str_in_In. apply Hab. exact Hx.
Qed.

End CalcFacts.

(** ** Heirs of kinds the calculator never names *)

Module Inert.
Import Calc CalcFacts.

(** The kinds that the calculator compares a heir's [relation] with. *)
Definition acted_kinds : list pystr :=
  [SPOUSE_WIFE; SPOUSE_HUSBAND; SON; DAUGHTER; FATHER; MOTHER; GRANDFATHER;
   BROTHER_FULL; SISTER_FULL; BROTHER_PATERNAL; SISTER_PATERNAL].

Definition acted (h : Heir) : bool := str_in (relation h) acted_kinds.

(** The calculator with the heirs of other kinds taken out of its list. *)
Definition restrict (c : HeritageCalculator) : HeritageCalculator :=
  with_heirs c (filter acted (heirs c)).

Lemma for_each_filter (S : Type) (body : Heir -> S -> Heir * S) hs s :
  (forall h s, acted h = false -> body h s = (h, s)) ->
  (forall h s, acted (fst (body h s)) = acted h) ->
  for_each body (filter acted hs) s
  = (filter acted (fst (for_each body hs s)), snd (for_each body hs s)).
Proof.
  intros Hskip Hkeep. revert s. induction hs as [|h t IH]; intros s; [reflexivity|].
  cbn [filter for_each]. destruct (acted h) eqn:E.
  - cbn [for_each]. specialize (Hkeep h s). destruct (body h s) as [h' s1].
    cbn [fst] in Hkeep. rewrite IH. destruct (for_each body t s1) as [t' s2].
    cbn [fst snd filter]. rewrite Hkeep, E. reflexivity.
  - rewrite (Hskip h s E). rewrite IH. destruct (for_each body t s) as [t' s2].
    cbn [fst snd filter]. rewrite E. reflexivity.
Qed.

Lemma for_each_ext (S : Type) (body body' : Heir -> S -> Heir * S) hs s :
  (forall h s, body h s = body' h s) -> for_each body hs s = for_each body' hs s.
Proof.
  intros H. revert s. induction hs as [|h t IH]; intros s; [reflexivity|].
  cbn [for_each]. rewrite H. destruct (body' h s) as [h' s1]. rewrite IH. reflexivity.
Qed.

Lemma acted_kind (f : Heir -> Heir) h : relation (f h) = relation h -> acted (f h) = acted h.
Proof. unfold acted. intros ->. reflexivity. Qed.

Lemma acted_in k h : In k acted_kinds -> str_eqb (relation h) k = true -> acted h = true.
Proof.
  intros Hk E. apply str_eqb_eq in E. unfold acted. apply str_in_In. rewrite E. exact Hk.
Qed.

Lemma acted_in_list ks h :
  incl ks acted_kinds -> str_in (relation h) ks = true -> acted h = true.
Proof.
  intros Hincl E. apply str_in_In in E. unfold acted. apply str_in_In. auto.
Qed.

Lemma filter_sub (p : Heir -> bool) hs :
  (forall h, In h hs -> p h = true -> acted h = true) ->
  filter p (filter acted hs) = filter p hs.
Proof.
  induction hs as [|h t IH]; intros H; [reflexivity|]. cbn [filter].
  destruct (acted h) eqn:E; cbn [filter].
  - rewrite IH by (intros; apply H; simpl; auto). reflexivity.
  - destruct (p h) eqn:Ep.
    + rewrite (H h (or_introl eq_refl) Ep) in E. discriminate.
    + apply IH. intros; apply H; simpl; auto.
Qed.

Lemma find_sub (p : Heir -> bool) hs :
  (forall h, p h = true -> acted h = true) ->
  find p (filter acted hs) = find p hs.
Proof.
  intros H. induction hs as [|h t IH]; [reflexivity|]. cbn [filter find].
  destruct (acted h) eqn:E; cbn [find].
  - rewrite IH. reflexivity.
  - destruct (p h) eqn:Ep; [|exact IH].
    rewrite (H h Ep) in E. discriminate.
Qed.

Lemma existsb_sub (p : Heir -> bool) hs :
  (forall h, In h hs -> p h = true -> acted h = true) ->
  existsb p (filter acted hs) = existsb p hs.
Proof.
  intros H. rewrite <- !nonempty_filter, filter_sub by exact H. reflexivity.
Qed.

Lemma filter_map_acted (f : Heir -> Heir) hs :
  same_kind f -> filter acted (map f hs) = map f (filter acted hs).
Proof.
  intros Hf. induction hs as [|h t IH]; [reflexivity|]. cbn [map filter].
  rewrite (acted_kind f h (proj1 (Hf h))).
  destruct (acted h); cbn [map]; rewrite IH; reflexivity.
Qed.

(** *** The exclusion pass *)

Lemma str_in_live k hs :
  str_in k (live_kinds hs)
  = existsb (fun h => unblocked h && str_eqb (relation h) k) hs.
Proof.
  unfold live_kinds, str_in. induction hs as [|h t IH]; [reflexivity|].
  cbn [filter existsb]. destruct (unblocked h); cbn [map existsb andb].
  - rewrite IH, (str_eqb_sym k). reflexivity.
  - exact IH.
Qed.

Lemma str_in_live_filter k hs :
  In k acted_kinds ->
  str_in k (live_kinds (filter acted hs)) = str_in k (live_kinds hs).
Proof.
  intros Hk. rewrite !str_in_live. apply existsb_sub.
  intros h _ E. apply andb_true_iff in E. destruct E as [_ E].
  eapply acted_in; eassumption.
Qed.

Ltac in_kinds := unfold acted_kinds; simpl; repeat (first [left; reflexivity | right]).

Lemma hijab_one_filter hs h :
  hijab_one (live_kinds (filter acted hs)) h = hijab_one (live_kinds hs) h.
Proof.
  unfold hijab_one. apply block_if_ext.
  unfold hijab_rule1, hijab_rule2, hijab_rule3.
  rewrite !str_in_live_filter by in_kinds. reflexivity.
Qed.

Lemma hijab_filter hs :
  map (hijab_one (live_kinds (filter acted hs))) (filter acted hs)
  = filter acted (map (hijab_one (live_kinds hs)) hs).
Proof.
  rewrite filter_map_acted by apply hijab_one_kind.
  apply map_ext. intros h. apply hijab_one_filter.
Qed.

(** *** The special-case test *)

Lemma umar_test_acted hs :
  umar_test (live_kinds hs) (length (filter unblocked hs)) = true ->
  forall h, In h hs -> unblocked h = true -> acted h = true.
Proof.
  unfold umar_test. destruct (negb _); [discriminate|].
  rewrite andb_true_iff, orb_true_iff. intros [Hset _] h Hin Hu.
  assert (Hk : In (relation h) (live_kinds hs)).
  { unfold live_kinds. apply in_map. apply filter_In. auto. }
  unfold acted. apply str_in_In.
  destruct Hset as [E|E]; pose proof (@set_eqb_true _ _ E _ Hk) as Hk';
    simpl in Hk'; unfold acted_kinds; simpl; tauto.
Qed.

Lemma live_filter_all hs :
  (forall h, In h hs -> unblocked h = true -> acted h = true) ->
  filter unblocked (filter acted hs) = filter unblocked hs.
Proof. apply filter_sub. Qed.

Lemma umar_test_filter hs :
  umar_test (live_kinds (filter acted hs)) (length (filter unblocked (filter acted hs)))
    = false ->
  umar_test (live_kinds hs) (length (filter unblocked hs)) = false.
Proof.
  intros Hf. destruct (umar_test (live_kinds hs) _) eqn:E; [|reflexivity].
  pose proof (umar_test_acted hs E) as Hall.
  unfold live_kinds in Hf. rewrite (live_filter_all hs Hall) in Hf.
  unfold live_kinds in E. congruence.
Qed.

(** *** The furud pass *)

(** The test by which the mother's rule counts a heir as a sibling. *)
Definition counted_as_sibling (h : Heir) : bool :=
  contains (u "أخ") (relation h) || contains (u "أخت") (relation h).

(** No heir of a kind outside [acted_kinds] is counted as a sibling. *)
Definition no_stray_sibling (hs : list Heir) : Prop :=
  forall h, In h hs -> acted h = false -> counted_as_sibling h = false.

Lemma no_stray_sibling_check hs :
  forallb (fun h => acted h || negb (counted_as_sibling h)) hs = true ->
  no_stray_sibling hs.
Proof.
  rewrite forallb_forall. intros H h Hin Ha. specialize (H h Hin).
  rewrite Ha in H. simpl in H. apply negb_true_iff in H. exact H.
Qed.

Lemma not_acted_neq h k :
  acted h = false -> In k acted_kinds -> str_eqb (relation h) k = false.
Proof.
  intros Ha Hk. destruct (str_eqb (relation h) k) eqn:E; [|reflexivity].
  rewrite (acted_in k h Hk E) in Ha. discriminate.
Qed.

Lemma fixed_share_step_skip all hc h (st : Fraction * list pystr) :
  acted h = false -> fixed_share_step all hc h st = (h, st).
Proof.
  intros Ha. unfold fixed_share_step. destruct st as [t l]. cbv zeta.
  destruct (is_blocked h); [reflexivity|].
  rewrite !(not_acted_neq h) by (assumption || in_kinds). reflexivity.
Qed.

Lemma fixed_share_step_acted all hc h (st : Fraction * list pystr) :
  acted (fst (fixed_share_step all hc h st)) = acted h.
Proof.
  rewrite fixed_share_step_fst. apply acted_kind. apply fixed_one_kind.
Qed.

Lemma fixed_share_step_filter all hc h (st : Fraction * list pystr) :
  no_stray_sibling all ->
  fixed_share_step (filter acted all) hc h st = fixed_share_step all hc h st.
Proof.
  intros Hs. unfold fixed_share_step.
  rewrite !filter_sub; [reflexivity | ..];
    intros x Hx E; apply andb_true_iff in E; destruct E as [E _];
    first [ apply (acted_in SON); [in_kinds | exact E]
          | apply (acted_in DAUGHTER); [in_kinds | exact E]
          | destruct (acted x) eqn:Ea; [reflexivity|];
            specialize (Hs x Hx Ea); unfold counted_as_sibling in Hs; congruence ].
Qed.

Lemma existsb_filter (p q : Heir -> bool) hs :
  existsb q (filter p hs) = existsb (fun h => p h && q h) hs.
Proof.
  induction hs as [|h t IH]; [reflexivity|]. cbn [filter existsb].
  destruct (p h); cbn [existsb andb orb]; rewrite IH; reflexivity.
Qed.

Lemma has_children_filter hs :
  has_children_of (filter acted hs) = has_children_of hs.
Proof.
  unfold has_children_of.
  rewrite (existsb_filter unblocked _ (filter acted hs)), (existsb_filter unblocked _ hs).
  apply existsb_sub.
  intros h _ E. apply andb_true_iff in E. destruct E as [_ E].
  apply (acted_in_list [SON; DAUGHTER]); [|exact E].
  intros k Hk. simpl in Hk. destruct Hk as [<-|[<-|[]]]; in_kinds.
Qed.

(** The loop of the furud pass over the restricted list does what it does
    over the whole list, heir for heir, with the same total and trace. *)
Lemma fixed_loop_filter hs (st : Fraction * list pystr) :
  no_stray_sibling hs ->
  for_each (fixed_share_step (filter acted hs) (has_children_of (filter acted hs)))
           (filter acted hs) st
  = (filter acted (fst (for_each (fixed_share_step hs (has_children_of hs)) hs st)),
     snd (for_each (fixed_share_step hs (has_children_of hs)) hs st)).
Proof.
  intros Hs. rewrite has_children_filter.
  rewrite (for_each_ext _ _ (fixed_share_step hs (has_children_of hs))).
  - apply for_each_filter.
    + intros h s. apply fixed_share_step_skip.
    + intros h s. apply fixed_share_step_acted.
  - intros h s. apply fixed_share_step_filter. exact Hs.
Qed.

(** The total of the furud does not depend on the trace so far. *)
Lemma fixed_share_step_total all hc h t l :
  fst (snd (fixed_share_step all hc h (t, l)))
  = fst (snd (fixed_share_step all hc h (t, []))).
Proof.
  unfold fixed_share_step.
  repeat match goal with
         | |- context [if ?b then _ else _] => destruct b
         end; reflexivity.
Qed.

Lemma fixed_loop_total all hc hs t l :
  fst (snd (for_each (fixed_share_step all hc) hs (t, l)))
  = fst (snd (for_each (fixed_share_step all hc) hs (t, []))).
Proof.
  revert t l. induction hs as [|h r IH]; intros t l; [reflexivity|].
  cbn [for_each].
  pose proof (fixed_share_step_total all hc h t l) as E.
  destruct (fixed_share_step all hc h (t, l)) as [h1 [t1 l1]].
  destruct (fixed_share_step all hc h (t, [])) as [h2 [t2 l2]].
  cbn [fst snd] in E. subst t2.
  pose proof (IH t1 l1) as E1. pose proof (IH t1 l2) as E2.
  destruct (for_each _ r (t1, l1)) as [r1 [ta la]].
  destruct (for_each _ r (t1, l2)) as [r2 [tb lb]].
  cbn [fst snd] in *. congruence.
Qed.

Definition fixed_total (hs : list Heir) : Fraction :=
  fst (snd (for_each (fixed_share_step hs (has_children_of hs)) hs (Frac.mk 0 1, []))).

Lemma fst_calculate_fixed_shares c :
  check_umariyyatayn c = false ->
  fst (calculate_fixed_shares c) = fixed_total (heirs c).
Proof.
  intros Hc. unfold calculate_fixed_shares. rewrite Hc. cbv zeta.
  rewrite !heirs_say. fold (has_children_of (heirs c)). unfold fixed_total.
  rewrite <- (fixed_loop_total (heirs c) (has_children_of (heirs c)) (heirs c) (Frac.mk 0 1)
               (reasoning (say (say c (NL ++ u "📊 **حساب الفروض المقدرة:**"))
                  (u "  • هل يوجد فرع وارث؟ " ++
                   (if has_children_of (heirs c) then u "نعم" else u "لا"))))).
  destruct (for_each _ _ _) as [hs [t l]]. reflexivity.
Qed.

Lemma fixed_total_filter hs :
  no_stray_sibling hs -> fixed_total (filter acted hs) = fixed_total hs.
Proof.
  intros Hs. unfold fixed_total. rewrite (fixed_loop_filter _ _ Hs). reflexivity.
Qed.

Lemma fixed_heirs_filter hs :
  no_stray_sibling hs ->
  map (fixed_one (filter acted hs) (has_children_of (filter acted hs))) (filter acted hs)
  = filter acted (map (fixed_one hs (has_children_of hs)) hs).
Proof.
  intros Hs.
  rewrite <- !(for_each_fst _ _ _ (fixed_share_step_fst _ _)) with (s := (Frac.mk 0 1, [])).
  rewrite (fixed_loop_filter _ _ Hs). reflexivity.
Qed.

(** *** The residue pass *)

Ltac acted_tac k :=
  let h := fresh "h" in let H := fresh "H" in
  intros h H; repeat (apply andb_true_iff in H; destruct H as [H ?]);
  apply (acted_in k); [in_kinds | assumption].

Lemma asaba_son_acted h : asaba_son h = true -> acted h = true.
Proof. revert h. unfold asaba_son. acted_tac SON. Qed.
Lemma asaba_daughter_acted h : asaba_daughter h = true -> acted h = true.
Proof. revert h. unfold asaba_daughter. acted_tac DAUGHTER. Qed.
Lemma asaba_father_acted h : asaba_father h = true -> acted h = true.
Proof. revert h. unfold asaba_father. acted_tac FATHER. Qed.
Lemma asaba_grandfather_acted h : asaba_grandfather h = true -> acted h = true.
Proof. revert h. unfold asaba_grandfather. acted_tac GRANDFATHER. Qed.
Lemma asaba_brother_full_acted h : asaba_brother_full h = true -> acted h = true.
Proof. revert h. unfold asaba_brother_full. acted_tac BROTHER_FULL. Qed.
Lemma asaba_sister_full_acted h : asaba_sister_full h = true -> acted h = true.
Proof. revert h. unfold asaba_sister_full. acted_tac SISTER_FULL. Qed.
Lemma asaba_brother_paternal_acted h : asaba_brother_paternal h = true -> acted h = true.
Proof. revert h. unfold asaba_brother_paternal. acted_tac BROTHER_PATERNAL. Qed.
Lemma asaba_sister_paternal_acted h : asaba_sister_paternal h = true -> acted h = true.
Proof. revert h. unfold asaba_sister_paternal. acted_tac SISTER_PATERNAL. Qed.

Create HintDb acted.
#[local] Hint Resolve asaba_son_acted asaba_daughter_acted asaba_father_acted
  asaba_grandfather_acted asaba_brother_full_acted asaba_sister_full_acted
  asaba_brother_paternal_acted asaba_sister_paternal_acted : acted.

Lemma set_share_acted q h : acted (set_share q h) = acted h.
Proof. reflexivity. Qed.

Lemma two_to_one_filter males females unit_share hs :
  share_two_to_one males females unit_share (filter acted hs)
  = filter acted (share_two_to_one males females unit_share hs).
Proof.
  unfold share_two_to_one. symmetry. apply filter_map_acted.
  intros h. destruct (males h); [split; reflexivity|].
  destruct (females h); split; reflexivity.
Qed.

Lemma update_first_filter p q hs :
  (forall h, p h = true -> acted h = true) ->
  update_first p (set_share q) (filter acted hs)
  = filter acted (update_first p (set_share q) hs).
Proof.
  intros Hp. induction hs as [|h t IH]; [reflexivity|].
  cbn [filter update_first]. destruct (acted h) eqn:Ea; cbn [update_first].
  - destruct (p h); cbn [filter]; rewrite ?set_share_acted, Ea; [reflexivity|].
    rewrite IH. reflexivity.
  - destruct (p h) eqn:Ep.
    + rewrite (Hp h Ep) in Ea. discriminate.
    + cbn [filter]. rewrite Ea. exact IH.
Qed.

Lemma unit_of_filter r males females hs :
  (forall h, males h = true -> acted h = true) ->
  (forall h, females h = true -> acted h = true) ->
  unit_of r males females (filter acted hs) = unit_of r males females hs.
Proof.
  intros Hm Hf. unfold unit_of. rewrite !filter_sub; auto.
Qed.

Lemma asaba_filter r hs :
  asaba_hs r (filter acted hs) = filter acted (asaba_hs r hs).
Proof.
  unfold asaba_hs, take_hs.
  rewrite !unit_of_filter by auto with acted.
  rewrite !filter_sub by auto with acted.
  rewrite !find_sub by auto with acted.
  repeat match goal with
         | |- (if ?b then _ else _) = filter acted (if ?b then _ else _) => destruct b
         | |- match ?o with Some _ => _ | None => _ end = _ => destruct o
         end;
    first [ apply two_to_one_filter
          | apply update_first_filter; auto with acted
          | reflexivity ].
Qed.

(** *** The three passes together *)

Lemma no_stray_sibling_map (f : Heir -> Heir) hs :
  same_kind f -> no_stray_sibling hs -> no_stray_sibling (map f hs).
Proof.
  intros Hf Hs h' Hin Ha. apply in_map_iff in Hin. destruct Hin as [h [<- Hin]].
  unfold counted_as_sibling. rewrite (proj1 (Hf h)).
  rewrite (acted_kind f h (proj1 (Hf h))) in Ha. exact (Hs h Hin Ha).
Qed.

Lemma heirs_after_hijab hs :
  heirs (after_hijab hs) = map (hijab_one (live_kinds hs)) hs.
Proof. unfold after_hijab. rewrite heirs_apply_hijab_rules. reflexivity. Qed.

Lemma after_hijab_filter hs :
  heirs (after_hijab (filter acted hs)) = filter acted (heirs (after_hijab hs)).
Proof. rewrite !heirs_after_hijab. apply hijab_filter. Qed.

(** Taking the heirs of other kinds out of the list before the passes, or
    out of the result after them, comes to the same, provided that the
    remaining heirs are not one of the two special cases and that no heir
    taken out is counted as a sibling by the mother's rule. *)
Lemma run_passes_filter hs :
  no_stray_sibling hs ->
  check_umariyyatayn (after_hijab (filter acted hs)) = false ->
  heirs (run_passes (init (filter acted hs)))
  = filter acted (heirs (run_passes (init hs))).
Proof.
  intros Hs Hchk'.
  assert (Hchk : check_umariyyatayn (after_hijab hs) = false).
  { rewrite check_umariyyatayn_test in Hchk' |- *.
    rewrite after_hijab_filter in Hchk'. apply umar_test_filter. exact Hchk'. }
  assert (HsH : no_stray_sibling (heirs (after_hijab hs))).
  { rewrite heirs_after_hijab. apply no_stray_sibling_map; [apply hijab_one_kind | exact Hs]. }
  assert (Htot : fst (after_fixed (filter acted hs)) = fst (after_fixed hs)).
  { unfold after_fixed. rewrite !fst_calculate_fixed_shares by assumption.
    rewrite after_hijab_filter. apply fixed_total_filter. exact HsH. }
  assert (Hfix : heirs (snd (after_fixed (filter acted hs)))
                 = filter acted (heirs (snd (after_fixed hs)))).
  { unfold after_fixed. rewrite !heirs_calculate_fixed_shares, Hchk, Hchk'.
    rewrite after_hijab_filter. apply fixed_heirs_filter. exact HsH. }
  rewrite !run_passes_eq.
  change (heirs (init (filter acted hs))) with (filter acted hs).
  change (heirs (init hs)) with hs.
  rewrite Hchk, Hchk', Htot.
  destruct (Frac.gtb _ _) eqn:Hr; [|exact Hfix].
  rewrite !heirs_distribute_asaba by exact Hr.
  rewrite Hfix. apply asaba_filter.
Qed.

(** *** What happens to the heirs of other kinds themselves *)

(** A heir of another kind is as the detector made it. *)
Definition untouched (h : Heir) : Prop :=
  acted h = false -> is_blocked h = false /\ share h = 0 # 1.

Lemma untouched_map (f : Heir -> Heir) hs :
  same_kind f -> (forall h, acted h = false -> f h = h) ->
  Forall untouched hs -> Forall untouched (map f hs).
Proof.
  intros Hk Hf Hhs. apply Forall_map. eapply Forall_impl; [|exact Hhs].
  intros h Hu Ha. rewrite (acted_kind f h (proj1 (Hk h))) in Ha.
  rewrite (Hf h Ha). exact (Hu Ha).
Qed.

Lemma untouched_update_first p q hs :
  (forall h, p h = true -> acted h = true) ->
  Forall untouched hs -> Forall untouched (update_first p (set_share q) hs).
Proof.
  intros Hp Hhs. induction Hhs as [|h t Hh Ht IH]; cbn [update_first]; [constructor|].
  destruct (p h) eqn:Ep.
  - constructor; [|exact Ht]. intros Ha. rewrite set_share_acted, (Hp h Ep) in Ha.
    discriminate.
  - constructor; assumption.
Qed.

Lemma hijab_one_skip rels h : acted h = false -> hijab_one rels h = h.
Proof.
  intros Ha. unfold hijab_one, block_if, hijab_rule1, hijab_rule2, hijab_rule3,
    blocked_sibling_kinds, str_in. cbn [existsb].
  rewrite !(not_acted_neq h) by (assumption || in_kinds).
  rewrite !andb_false_r. reflexivity.
Qed.

Lemma umar_one_skip w h : acted h = false -> umar_one w h = h.
Proof.
  intros Ha. unfold umar_one.
  rewrite !(not_acted_neq h) by (assumption || in_kinds).
  destruct w; reflexivity.
Qed.

Lemma fixed_one_skip all hc h : acted h = false -> fixed_one all hc h = h.
Proof.
  intros Ha. unfold fixed_one. rewrite fixed_share_step_skip by exact Ha. reflexivity.
Qed.

Lemma two_to_one_untouched males females unit_share hs :
  (forall h, males h = true -> acted h = true) ->
  (forall h, females h = true -> acted h = true) ->
  Forall untouched hs ->
  Forall untouched (share_two_to_one males females unit_share hs).
Proof.
  intros Hm Hf. unfold share_two_to_one. apply untouched_map.
  - intros h. destruct (males h); [split; reflexivity|].
    destruct (females h); split; reflexivity.
  - intros h Ha. destruct (males h) eqn:Em.
    + rewrite (Hm h Em) in Ha. discriminate.
    + destruct (females h) eqn:Ef; [|reflexivity].
      rewrite (Hf h Ef) in Ha. discriminate.
Qed.

Lemma asaba_untouched r hs : Forall untouched hs -> Forall untouched (asaba_hs r hs).
Proof.
  intros Hhs. unfold asaba_hs, take_hs.
  repeat match goal with
         | |- Forall _ (if ?b then _ else _) => destruct b
         | |- Forall _ (match ?o with Some _ => _ | None => _ end) => destruct o
         end;
    first [ assumption
          | apply two_to_one_untouched; auto with acted
          | apply untouched_update_first; auto with acted ].
Qed.

Lemma run_passes_untouched hs :
  Forall untouched hs -> Forall untouched (heirs (run_passes (init hs))).
Proof.
  intros Hu. rewrite run_passes_eq. change (heirs (init hs)) with hs.
  assert (H : Forall untouched (heirs (snd (after_fixed hs)))).
  { unfold after_fixed. rewrite heirs_calculate_fixed_shares, heirs_after_hijab.
    destruct (check_umariyyatayn _); apply untouched_map;
      try (apply untouched_map; [apply hijab_one_kind | apply hijab_one_skip | exact Hu]).
    - apply umar_one_kind.
    - apply umar_one_skip.
    - apply fixed_one_kind.
    - apply fixed_one_skip. }
  destruct (check_umariyyatayn _); [exact H|].
  destruct (Frac.gtb _ _) eqn:Hr; [|exact H].
  rewrite heirs_distribute_asaba by exact Hr. apply asaba_untouched. exact H.
Qed.

(** *** The blocked flags *)

Definition flags (hs : list Heir) : list (pystr * bool) :=
  map (fun h => (relation h, is_blocked h)) hs.

Lemma flags_map (f : Heir -> Heir) hs :
  same_kind f -> same_flag f -> flags (map f hs) = flags hs.
Proof.
  intros Hk Hf. unfold flags. rewrite map_map. apply map_ext.
  intros h. rewrite (proj1 (Hk h)), (Hf h). reflexivity.
Qed.

Lemma flags_update_first p q hs : flags (update_first p (set_share q) hs) = flags hs.
Proof.
  induction hs as [|h t IH]; [reflexivity|]. cbn [update_first].
  destruct (p h); [reflexivity|]. unfold flags in *. cbn [map]. rewrite IH. reflexivity.
Qed.

Lemma flags_two_to_one males females unit_share hs :
  flags (share_two_to_one males females unit_share hs) = flags hs.
Proof.
  unfold share_two_to_one. apply flags_map; intros h;
    destruct (males h); try (split; reflexivity); try reflexivity;
    destruct (females h); try (split; reflexivity); reflexivity.
Qed.

Lemma flags_asaba r hs : flags (asaba_hs r hs) = flags hs.
Proof.
  unfold asaba_hs, take_hs.
  repeat match goal with
         | |- flags (if ?b then _ else _) = _ => destruct b
         | |- flags (match ?o with Some _ => _ | None => _ end) = _ => destruct o
         end;
    first [ reflexivity | apply flags_two_to_one | apply flags_update_first ].
Qed.

Lemma flags_run_passes hs :
  flags (heirs (run_passes (init hs))) = flags (heirs (after_hijab hs)).
Proof.
  rewrite run_passes_eq. change (heirs (init hs)) with hs.
  assert (H : flags (heirs (snd (after_fixed hs))) = flags (heirs (after_hijab hs))).
  { unfold after_fixed. rewrite heirs_calculate_fixed_shares.
    destruct (check_umariyyatayn _); apply flags_map;
      auto using umar_one_kind, umar_one_flag, fixed_one_kind, fixed_one_flag. }
  destruct (check_umariyyatayn _); [exact H|].
  destruct (Frac.gtb _ _) eqn:Hr; [|exact H].
  rewrite heirs_distribute_asaba by exact Hr. rewrite flags_asaba. exact H.
Qed.

Lemma flags_filter l1 l2 :
  flags l1 = flags l2 ->
  map is_blocked (filter acted l1) = map is_blocked (filter acted l2).
Proof.
  revert l2. induction l1 as [|a t IH]; intros [|b t2] E; try discriminate; [reflexivity|].
  unfold flags in E. cbn [map] in E. injection E as Er Eb Et.
  cbn [filter].
  assert (Ea : acted a = acted b) by (unfold acted; rewrite Er; reflexivity).
  rewrite Ea. specialize (IH t2 Et).
  destruct (acted b); cbn [map]; rewrite ?Eb, IH; reflexivity.
Qed.

Lemma blocked_flags_filter hs :
  map is_blocked (filter acted (heirs (run_passes (init hs))))
  = map is_blocked (heirs (run_passes (init (filter acted hs)))).
Proof.
  rewrite (flags_filter _ _ (flags_run_passes hs)).
  rewrite <- after_hijab_filter.
  pose proof (flags_run_passes (filter acted hs)) as E.
  unfold flags in E. apply (f_equal (map snd)) in E. rewrite !map_map in E.
  cbn [snd] in E. symmetry. exact E.
Qed.

End Inert.

(** ** The detector *)

Module DetectFacts.
Import Unicode Regex Detector.

(** *** Substrings *)

Lemma prefixb_app (p s : pystr) : prefixb p s = true <-> exists b, s = p ++ b.
Proof.
  revert s. induction p as [|x p IH]; intros s; simpl.
  - split; [intros _; exists s; reflexivity | reflexivity].
  - destruct s as [|y s].
    + split; [discriminate | intros [b Hb]; discriminate].
    + rewrite andb_true_iff, N.eqb_eq, IH. split.
      * intros [-> [b ->]]. exists b. reflexivity.
      * intros [b Hb]. injection Hb as -> ->. split; [reflexivity | exists b; reflexivity].
Qed.

Lemma contains_app (sub s : pystr) :
  contains sub s = true <-> exists a b, s = a ++ sub ++ b.
Proof.
  induction s as [|y s IH]; simpl.
  - rewrite orb_false_r, prefixb_app. split.
    + intros [b Hb]. exists [], b. exact Hb.
    + intros [[|x a] [b Hb]]; [exists b; exact Hb | discriminate].
  - rewrite orb_true_iff, prefixb_app, IH. split.
    + intros [[b Hb] | [a [b Hb]]].
      * exists [], b. exact Hb.
      * exists (y :: a), b. rewrite Hb. reflexivity.
    + intros [[|x a] [b Hb]].
      * left. exists b. exact Hb.
      * right. injection Hb as -> ->. exists a, b. reflexivity.
Qed.

(** Code points of the Arabic block, which has no letter case. *)
Definition arabic (c : N) : bool := ((1536 <=? c) && (c <=? 1791))%N.

(** [str.lower] maps every caseless character to itself, so a run of
    Arabic characters of the text is still there after lowering. *)
Definition lower_keeps_arabic (T : tables) : Prop :=
  forall sub text, forallb arabic sub = true ->
                   contains sub text = true -> contains sub (lower T text) = true.

Lemma basic_lower_fixes (s : pystr) : forallb arabic s = true -> basic_lower s = s.
Proof.
  unfold basic_lower. induction s as [|c s IH]; simpl; [reflexivity|].
  rewrite andb_true_iff. intros [Hc Hs]. rewrite (IH Hs). f_equal.
  unfold arabic in Hc. apply andb_true_iff in Hc. destruct Hc as [Hc _].
  apply N.leb_le in Hc.
  destruct ((65 <=? c) && (c <=? 90))%N eqn:E; [|reflexivity].
  apply andb_true_iff in E. destruct E as [_ E]. apply N.leb_le in E. lia.
Qed.

Lemma basic_keeps_arabic : lower_keeps_arabic basic.
Proof.
  intros sub text Hs Hc. apply contains_app in Hc. destruct Hc as [a [b ->]].
  apply contains_app. simpl. unfold basic_lower at 1. rewrite !map_app.
  fold (basic_lower sub). rewrite (basic_lower_fixes sub Hs).
  eexists _, _. reflexivity.
Qed.

(** *** Which heirs [detect_heirs] appends *)

Lemma In_append d x h :
  In h (detected_heirs (append d x)) -> In h (detected_heirs d) \/ h = x.
Proof.
  unfold append. simpl. rewrite in_app_iff. simpl. intuition.
Qed.

Lemma In_append_all d l h :
  In h (detected_heirs (append_all d l)) -> In h (detected_heirs d) \/ In h l.
Proof. unfold append_all. simpl. apply in_app_iff. Qed.

Lemma numbered_relation n label rel gen h :
  In h (numbered n label rel gen) -> relation h = rel.
Proof.
  unfold numbered. destruct (0 <? n)%N; [|intros []].
  destruct (n =? 1)%N.
  - intros [<-|[]]. reflexivity.
  - rewrite in_map_iff. intros [i [<- _]]. reflexivity.
Qed.

Lemma numbered_paternal_relation n label rel gen h :
  In h (numbered_paternal n label rel gen) -> relation h = rel.
Proof.
  unfold numbered_paternal. destruct (1 <=? n)%N; [|intros []].
  rewrite in_map_iff. intros [i [<- _]]. reflexivity.
Qed.

(** A property of every detected heir is kept by each step of
    [detect_heirs] whose new heirs have it. *)
Section Steps.
Variable P : Heir -> Prop.

Lemma step_append d x :
  Forall P (detected_heirs d) -> P x -> Forall P (detected_heirs (append d x)).
Proof.
  intros Hd Hx. unfold append. simpl. apply Forall_app. split; [exact Hd|].
  constructor; [exact Hx | constructor].
Qed.

Lemma step_append_all d l :
  Forall P (detected_heirs d) -> Forall P l ->
  Forall P (detected_heirs (append_all d l)).
Proof.
  intros Hd Hl. unfold append_all. simpl. apply Forall_app. split; assumption.
Qed.

Lemma step_when (b : bool) body d :
  Forall P (detected_heirs d) ->
  (b = true -> Forall P (detected_heirs d) -> Forall P (detected_heirs (body d))) ->
  Forall P (detected_heirs (when b body d)).
Proof. intros Hd Hb. unfold when. destruct b; auto. Qed.

Lemma step_if (g : bool) (body1 body2 : HeirDetector -> HeirDetector) d :
  Forall P (detected_heirs d) ->
  (Forall P (detected_heirs d) -> Forall P (detected_heirs (body1 d))) ->
  (Forall P (detected_heirs d) -> Forall P (detected_heirs (body2 d))) ->
  Forall P (detected_heirs (if g then body1 d else body2 d)).
Proof. intros Hd H1 H2. destruct g; auto. Qed.

Lemma numbered_all n label rel gen :
  (forall h, relation h = rel -> P h) -> Forall P (numbered n label rel gen).
Proof.
  intros H. apply Forall_forall. intros h Hin. apply H.
  eapply numbered_relation. exact Hin.
Qed.

Lemma numbered_paternal_all n label rel gen :
  (forall h, relation h = rel -> P h) -> Forall P (numbered_paternal n label rel gen).
Proof.
  intros H. apply Forall_forall. intros h Hin. apply H.
  eapply numbered_paternal_relation. exact Hin.
Qed.

End Steps.

(** Walks [detect_heirs] from its last step to its first; what is left
    to show is that the heirs appended by each step have the property. *)
Ltac walk_body :=
  repeat first
    [ apply step_when; [assumption | intros ? ?]
    | apply step_append_all; [assumption | first [apply numbered_paternal_all
                                                 | apply numbered_all]]
    | apply step_append; [assumption|] ].

Ltac walk :=
  repeat first
    [ apply step_when; [| intros ? ?; walk_body]
    | apply step_append_all; [| apply numbered_all]
    | match goal with
      | |- Forall _ (detected_heirs (if ?g then when ?b1 ?f1 ?d else when ?b2 ?f2 ?d)) =>
          apply (step_if _ g (when b1 f1) (when b2 f2) d); [| intros ?; walk_body ..]
      end ];
  try apply Forall_nil.

(** A father is detected only when neither "أبناء" nor "لأب" occurs in
    the lowered text. *)
Lemma father_guard T d text h :
  In h (fst (detect_heirs T d text)) -> relation h = FATHER ->
  contains (u "أبناء") (lower T text) = false /\
  contains (u "لأب") (lower T text) = false.
Proof.
  intros Hin.
  assert (H : Forall (fun h => relation h = FATHER ->
                        contains (u "أبناء") (lower T text) = false /\
                        contains (u "لأب") (lower T text) = false)
                     (fst (detect_heirs T d text))).
  { unfold detect_heirs. cbv zeta. cbn [fst]. walk.
    all: try (intros h' E1 E2; rewrite E1 in E2; discriminate E2).
    all: try (intros; discriminate).
    match goal with
    | Hc : (_ && negb (contains _ _) && negb (contains _ _))%bool = true |- _ =>
        rewrite !andb_true_iff, !negb_true_iff in Hc; intros _; tauto
    end. }
  rewrite Forall_forall in H. exact (H h Hin).
Qed.

(** *** The detector reads the character tables only at the characters of
    its text *)

(** Basic Latin and the Arabic block, where the tables are those of
    [Unicode.basic]. *)
Definition in_scope (c : N) : bool := (c <? 128)%N || arabic c.

Definition scoped (s : pystr) : Prop := Forall (fun c => in_scope c = true) s.

(** Tables that are the interpreter's on Basic Latin and the Arabic block. *)
Definition python_like (T : tables) : Prop :=
  (forall c, in_scope c = true -> is_word T c = basic_is_word c) /\
  (forall c, in_scope c = true -> digit_value T c = basic_digit_value c) /\
  (forall s, forallb in_scope s = true -> lower T s = basic_lower s).

Lemma python_like_basic : python_like basic.
Proof. repeat split. Qed.

Lemma scoped_forallb s : forallb in_scope s = true <-> scoped s.
Proof. unfold scoped. rewrite forallb_forall, Forall_forall. reflexivity. Qed.

Lemma scoped_firstn n s : scoped s -> scoped (firstn n s).
Proof.
  intros H. revert n. unfold scoped in *.
  induction H as [|c s Hc Hs IH]; intros [|n]; simpl; try constructor.
  - exact Hc.
  - apply IH.
Qed.

Lemma scoped_basic_lower s : scoped s -> scoped (basic_lower s).
Proof.
  intros H. unfold basic_lower. apply Forall_map.
  eapply Forall_impl; [|exact H]. intros c Hc.
  destruct ((65 <=? c) && (c <=? 90))%N eqn:E; [|exact Hc].
  apply andb_true_iff in E. destruct E as [_ E]. apply N.leb_le in E.
  unfold in_scope. apply orb_true_iff. left. apply N.ltb_lt. lia.
Qed.

Section Ext.
Variable T : tables.
Hypothesis HT : python_like T.

Lemma atom_ok_ext a c : in_scope c = true -> atom_ok T a c = atom_ok basic a c.
Proof.
  intros Hc. destruct a; simpl; try reflexivity.
  rewrite (proj1 (proj2 HT) c Hc). reflexivity.
Qed.

Lemma word_at_ext s : scoped s -> word_at T s = word_at basic s.
Proof.
  intros H. destruct H as [|c s Hc _]; [reflexivity|]. simpl.
  apply (proj1 HT). exact Hc.
Qed.

Lemma behind_ext rl pre : scoped pre -> behind T rl pre = behind basic rl pre.
Proof.
  intros H. revert rl. induction H as [|c s Hc Hs IH]; intros [|a rl]; simpl;
    try reflexivity.
  rewrite atom_ok_ext by exact Hc. rewrite IH. reflexivity.
Qed.

Lemma m_lit_scoped s : forall pre suf p s',
  scoped pre -> scoped suf -> m_lit s pre suf = Some (p, s') -> scoped p /\ scoped s'.
Proof.
  induction s as [|x s IH]; intros pre suf p s' Hp Hs; simpl.
  - intros E. injection E as <- <-. auto.
  - destruct Hs as [|c t Hc Ht]; [discriminate|].
    destruct (c =? x)%N; [|discriminate].
    apply IH; [constructor; assumption | assumption].
Qed.

(** Two continuations that agree wherever the matcher can call them. *)
Definition agree (k k' : pystr -> pystr -> option pos) : Prop :=
  forall p s, scoped p -> scoped s -> k p s = k' p s.

Lemma m_star_ext a : forall suf pre k k',
  scoped pre -> scoped suf -> agree k k' ->
  m_star T a pre suf k = m_star basic a pre suf k'.
Proof.
  induction suf as [|c s IH]; intros pre k k' Hp Hs Hk; simpl.
  - apply Hk; assumption.
  - inversion Hs as [|c' s' Hc Hs']; subst.
    rewrite atom_ok_ext by exact Hc.
    destruct (atom_ok basic a c); [|apply Hk; assumption].
    rewrite (IH (c :: pre) k k') by (try constructor; assumption).
    destruct (m_star basic a (c :: pre) s k'); [reflexivity|].
    apply Hk; assumption.
Qed.

Lemma agree_refl k : agree k k.
Proof. intros p s _ _. reflexivity. Qed.

Lemma m_ext r : forall pre suf k k',
  scoped pre -> scoped suf -> agree k k' ->
  m T r pre suf k = m basic r pre suf k'.
Proof.
  induction r as [ | a | s | r1 IH1 r2 IH2 | r1 IH1 r2 IH2 | a | a | | r IH | l ];
    intros pre suf k k' Hp Hs Hk; simpl.
  - apply Hk; assumption.
  - destruct Hs as [|c t Hc Ht]; [reflexivity|].
    rewrite atom_ok_ext by exact Hc.
    destruct (atom_ok basic a c); [|reflexivity].
    apply Hk; [constructor|]; assumption.
  - destruct (m_lit s pre suf) as [[p s']|] eqn:E; [|reflexivity].
    destruct (m_lit_scoped s pre suf p s' Hp Hs E). apply Hk; assumption.
  - apply IH1; try assumption. intros p s Hp' Hs'. apply IH2; assumption.
  - rewrite (IH1 pre suf k k') by assumption.
    destruct (m basic r1 pre suf k'); [reflexivity|]. apply IH2; assumption.
  - apply m_star_ext; assumption.
  - destruct Hs as [|c t Hc Ht]; [reflexivity|].
    rewrite atom_ok_ext by exact Hc.
    destruct (atom_ok basic a c); [|reflexivity].
    apply m_star_ext; [constructor| |]; assumption.
  - rewrite !word_at_ext by assumption.
    destruct (xorb _ _); [|reflexivity]. apply Hk; assumption.
  - rewrite (IH pre suf _ (fun p s => Some (p, s))) by (try apply agree_refl; assumption).
    destruct (m basic r pre suf _); [reflexivity|]. apply Hk; assumption.
  - rewrite behind_ext by assumption.
    destruct (behind basic (rev l) pre); [reflexivity|]. apply Hk; assumption.
Qed.

Lemma match_at_ext r pre suf :
  scoped pre -> scoped suf -> match_at T r pre suf = match_at basic r pre suf.
Proof. intros Hp Hs. unfold match_at. apply m_ext; auto using agree_refl. Qed.

Lemma search_from_ext r : forall suf pre,
  scoped pre -> scoped suf -> search_from T r pre suf = search_from basic r pre suf.
Proof.
  induction suf as [|c t IH]; intros pre Hp Hs; simpl;
    rewrite match_at_ext by assumption;
    destruct (match_at basic r pre _) as [[p s']|]; try reflexivity.
  inversion Hs; subst. apply IH; [constructor|]; assumption.
Qed.

Lemma search_ext r text : scoped text -> search T r text = search basic r text.
Proof. intros H. apply search_from_ext; [constructor | exact H]. Qed.

Lemma found_ext r text : scoped text -> found T r text = found basic r text.
Proof. intros H. unfold found. rewrite search_ext by exact H. reflexivity. Qed.

Lemma search_from_scoped (U : tables) r : forall suf pre g,
  scoped suf -> search_from U r pre suf = Some g -> scoped g.
Proof.
  induction suf as [|c t IH]; intros pre g Hs; simpl;
    destruct (match_at U r pre _) as [[p s']|].
  - intros E. injection E as <-. apply scoped_firstn. exact Hs.
  - discriminate.
  - intros E. injection E as <-. apply scoped_firstn. exact Hs.
  - inversion Hs; subst. apply IH. assumption.
Qed.

Lemma finditer_from_ext r : forall suf skip pre,
  scoped pre -> scoped suf ->
  finditer_from T r skip pre suf = finditer_from basic r skip pre suf.
Proof.
  induction suf as [|c t IH]; intros skip pre Hp Hs; destruct skip as [|n]; simpl.
  - rewrite match_at_ext by assumption. reflexivity.
  - reflexivity.
  - rewrite match_at_ext by assumption.
    assert (Hp' : scoped (c :: pre)) by (inversion Hs; constructor; assumption).
    assert (Hs' : scoped t) by (inversion Hs; assumption).
    destruct (match_at basic r pre (c :: t)) as [[p s']|].
    + f_equal. apply IH; assumption.
    + apply IH; assumption.
  - inversion Hs; subst. apply IH; [constructor|]; assumption.
Qed.

Lemma finditer_ext r text : scoped text -> finditer T r text = finditer basic r text.
Proof. intros H. apply finditer_from_ext; [constructor | exact H]. Qed.

Lemma finditer_from_scoped (U : tables) r : forall suf skip pre,
  scoped suf -> Forall scoped (finditer_from U r skip pre suf).
Proof.
  induction suf as [|c t IH]; intros skip pre Hs; destruct skip as [|n]; simpl.
  - destruct (match_at U r pre []) as [[p s']|]; repeat constructor.
  - constructor.
  - assert (Hs' : scoped t) by (inversion Hs; assumption).
    destruct (match_at U r pre (c :: t)) as [[p s']|].
    + constructor; [apply scoped_firstn; exact Hs | apply IH; exact Hs'].
    + apply IH; exact Hs'.
  - inversion Hs; subst. apply IH. assumption.
Qed.

Lemma int_of_ext g : scoped g -> int_of T g = int_of basic g.
Proof.
  unfold int_of. generalize 0%N. intros acc H. revert acc.
  induction H as [|c s Hc Hs IH]; intros acc; simpl; [reflexivity|].
  rewrite (proj1 (proj2 HT) c Hc). apply IH.
Qed.

Lemma extract_number_ext text pm :
  scoped pm ->
  extract_number_from_text T text pm = extract_number_from_text basic text pm.
Proof.
  intros H. unfold extract_number_from_text. rewrite search_ext by exact H.
  destruct (search basic (Plus Digit) pm) as [g|] eqn:E; [|reflexivity].
  apply int_of_ext. unfold search in E. eapply search_from_scoped; eassumption.
Qed.

Lemma fold_max_ext tl ms : forall acc,
  Forall scoped ms ->
  fold_left (fun max_count full_match =>
               N.max max_count (extract_number_from_text T tl full_match)) ms acc
  = fold_left (fun max_count full_match =>
               N.max max_count (extract_number_from_text basic tl full_match)) ms acc.
Proof.
  intros acc H. revert acc. induction H as [|g ms Hg Hms IH]; intros acc; simpl;
    [reflexivity|].
  rewrite extract_number_ext by exact Hg. apply IH.
Qed.

Lemma detect_max_ext pats text :
  lower T text = lower basic text -> scoped (lower basic text) ->
  detect_max T pats text = detect_max basic pats text.
Proof.
  intros Hl Hs. unfold detect_max. rewrite Hl. generalize 0%N.
  induction pats as [|r pats IH]; intros acc; simpl; [reflexivity|].
  rewrite finditer_ext by exact Hs.
  rewrite fold_max_ext by (apply finditer_from_scoped; exact Hs).
  apply IH.
Qed.

Lemma existsb_found_ext pats tl :
  scoped tl ->
  existsb (fun pattern => found T pattern tl) pats
  = existsb (fun pattern => found basic pattern tl) pats.
Proof.
  intros H. induction pats as [|r pats IH]; simpl; [reflexivity|].
  rewrite found_ext by exact H. rewrite IH. reflexivity.
Qed.

(** On a text of Basic Latin and Arabic characters the detector gives what
    it gives with the tables of [Unicode.basic]. *)
Lemma detect_heirs_ext d text :
  forallb in_scope text = true ->
  detect_heirs T d text = detect_heirs basic d text.
Proof.
  intros Hscope.
  assert (Hl : lower T text = lower basic text) by (apply (proj2 (proj2 HT)); exact Hscope).
  assert (Hs : scoped (lower basic text)).
  { apply scoped_basic_lower. apply scoped_forallb. exact Hscope. }
  unfold detect_heirs, detect_deceased_gender, detect_sons, detect_daughters,
    detect_brothers, detect_sisters. cbv zeta.
  rewrite !(detect_max_ext _ text Hl Hs).
  rewrite Hl.
  rewrite !(existsb_found_ext _ _ Hs), !(found_ext _ _ Hs).
  rewrite !extract_number_ext by (apply scoped_forallb; vm_compute; reflexivity).
  reflexivity.
Qed.

End Ext.

(** *** The detector starts afresh at every call *)

Lemma detect_heirs_reset (T : tables) d d' text :
  detect_heirs T d text = detect_heirs T d' text.
Proof. reflexivity. Qed.

Lemma detect_heirs_basic (T : tables) d text :
  python_like T -> forallb in_scope text = true ->
  detect_heirs T d text = detect_heirs basic new_detector text.
Proof.
  intros HT Hs. rewrite (detect_heirs_ext T HT d text Hs).
  apply detect_heirs_reset.
Qed.

End DetectFacts.

(* ===================================================================== *)
(** * The claims *)
(* ===================================================================== *)

Module Claims.
Import Calc CalcFacts Inert Unicode Regex Detector DetectFacts System.

(** A heir as the detector builds it, named after its kind. *)
Definition heir_of (kind : pystr) : Heir := new_Heir kind kind MALE.

(** A heir list as it reaches the calculator: nobody is blocked yet and
    every share is [Fraction(0, 1)]. *)
Definition fresh (hs : list Heir) : Prop :=
  Forall (fun h => is_blocked h = false /\ share h = 0 # 1) hs.

(** ** C5: the exclusion of siblings *)

Definition maternal (h : Heir) : bool :=
  str_in (relation h) [BROTHER_MATERNAL; SISTER_MATERNAL].

Lemma filter_maternal_hijab rels hs :
  filter maternal (map (hijab_one rels) hs) = filter maternal hs.
Proof.
  induction hs as [|h t IH]; simpl; [reflexivity|].
  unfold maternal at 1. destruct (hijab_one_kind rels h) as [-> _].
  fold (maternal h). destruct (maternal h) eqn:Hm; [|exact IH].
  rewrite IH. f_equal.
  unfold hijab_one, block_if, hijab_rule1, hijab_rule2, hijab_rule3.
  unfold maternal in Hm. apply str_in_In in Hm.
  replace (str_eqb (relation h) GRANDFATHER) with false.
  2:{ symmetry. apply str_eqb_neq. intros E. rewrite E in Hm.
      simpl in Hm. intuition discriminate. }
  replace (str_in (relation h) blocked_sibling_kinds) with false.
  2:{ symmetry. apply str_in_false.
      destruct Hm as [<-|[<-|[]]]; simpl; intuition discriminate. }
  replace (str_in (relation h) [BROTHER_PATERNAL; SISTER_PATERNAL]) with false.
  2:{ symmetry. apply str_in_false.
      destruct Hm as [<-|[<-|[]]]; simpl; intuition discriminate. }
  rewrite !andb_false_r. reflexivity.
Qed.

(** C5, counterexample: with a father present, a maternal brother comes
    out of the exclusion pass not blocked. *)
Lemma C5_maternal_brother_stays :
  let hs := [heir_of FATHER; heir_of BROTHER_MATERNAL] in
  In FATHER (live_kinds hs) /\
  exists h, In h (heirs (apply_hijab_rules (init hs))) /\
            relation h = BROTHER_MATERNAL /\ is_blocked h = false.
Proof.
  split; [left; reflexivity|].
  exists (heir_of BROTHER_MATERNAL). split; [right; left; reflexivity|].
  split; reflexivity.
Qed.

(** C5, amended: in the exclusion pass the full and the consanguine
    brothers and sisters are all blocked as soon as a father, a son, or
    (the father being absent) a grandfather is among the heirs not yet
    blocked; the maternal brothers and sisters are left as they were. *)
Theorem C5_agnate_siblings_blocked (c : HeritageCalculator) :
  let rels := live_kinds (heirs c) in
  In FATHER rels \/ In SON rels \/ (In GRANDFATHER rels /\ ~ In FATHER rels) ->
  (forall h, In h (heirs (apply_hijab_rules c)) ->
             In (relation h) [BROTHER_FULL; BROTHER_PATERNAL; SISTER_FULL; SISTER_PATERNAL] ->
             is_blocked h = true)
  /\ filter maternal (heirs (apply_hijab_rules c)) = filter maternal (heirs c).
Proof.
  intros rels Hpresent. rewrite heirs_apply_hijab_rules. fold rels. split.
  - intros h' Hin Hkind. apply in_map_iff in Hin. destruct Hin as [h [<- _]].
    destruct (hijab_one_kind rels h) as [Hrel _]. rewrite Hrel in Hkind.
    unfold hijab_one, block_if.
    assert (H2 : hijab_rule2 rels h = true).
    { unfold hijab_rule2. apply andb_true_iff. split.
      - rewrite !orb_true_iff, !str_in_In. tauto.
      - apply str_in_In. exact Hkind. }
    rewrite H2, orb_true_r. reflexivity.
  - apply filter_maternal_hijab.
Qed.

Lemma C5_agnate_siblings_blocked_witness :
  let c := init [heir_of FATHER; heir_of BROTHER_FULL; heir_of SISTER_MATERNAL] in
  (forall h, In h (heirs (apply_hijab_rules c)) ->
             In (relation h) [BROTHER_FULL; BROTHER_PATERNAL; SISTER_FULL; SISTER_PATERNAL] ->
             is_blocked h = true)
  /\ filter maternal (heirs (apply_hijab_rules c)) = filter maternal (heirs c).
Proof.
  apply (C5_agnate_siblings_blocked
           (init [heir_of FATHER; heir_of BROTHER_FULL; heir_of SISTER_MATERNAL])).
  left. simpl. left. reflexivity.
Defined.

(** ** C3: blocked heirs end with a zero share *)

Definition blocked_zero (h : Heir) : Prop := is_blocked h = true -> share h = 0 # 1.

(** The selections of the residue pass take only heirs not blocked. *)
Definition only_live (p : Heir -> bool) : Prop :=
  forall h, p h = true -> is_blocked h = false.

Ltac live_tac :=
  let h := fresh "h" in let H := fresh "H" in
  intros h H; repeat (apply andb_true_iff in H; destruct H as [H ?]);
  match goal with
  | Hn : negb (is_blocked h) = true |- _ => apply negb_true_iff in Hn; exact Hn
  end.

Lemma asaba_son_live : only_live asaba_son.
Proof. unfold asaba_son; live_tac. Qed.
Lemma asaba_daughter_live : only_live asaba_daughter.
Proof. unfold asaba_daughter; live_tac. Qed.
Lemma asaba_father_live : only_live asaba_father.
Proof. unfold asaba_father; live_tac. Qed.
Lemma asaba_grandfather_live : only_live asaba_grandfather.
Proof. unfold asaba_grandfather; live_tac. Qed.
Lemma asaba_brother_full_live : only_live asaba_brother_full.
Proof. unfold asaba_brother_full; live_tac. Qed.
Lemma asaba_sister_full_live : only_live asaba_sister_full.
Proof. unfold asaba_sister_full; live_tac. Qed.
Lemma asaba_brother_paternal_live : only_live asaba_brother_paternal.
Proof. unfold asaba_brother_paternal; live_tac. Qed.
Lemma asaba_sister_paternal_live : only_live asaba_sister_paternal.
Proof. unfold asaba_sister_paternal; live_tac. Qed.

Create HintDb asaba.
#[local] Hint Resolve asaba_son_live asaba_daughter_live asaba_father_live
  asaba_grandfather_live asaba_brother_full_live asaba_sister_full_live
  asaba_brother_paternal_live asaba_sister_paternal_live : asaba.

Lemma two_to_one_blocked_zero males females unit_share hs :
  only_live males -> only_live females ->
  Forall blocked_zero hs ->
  Forall blocked_zero (share_two_to_one males females unit_share hs).
Proof.
  intros Hm Hf Hhs. unfold share_two_to_one. apply Forall_map.
  eapply Forall_impl; [|exact Hhs]. intros h Hz.
  destruct (males h) eqn:Em.
  - intros Hb. simpl in Hb. rewrite (Hm h Em) in Hb. discriminate.
  - destruct (females h) eqn:Ef; [|exact Hz].
    intros Hb. simpl in Hb. rewrite (Hf h Ef) in Hb. discriminate.
Qed.

Lemma update_first_blocked_zero p s hs :
  only_live p -> Forall blocked_zero hs ->
  Forall blocked_zero (update_first p (set_share s) hs).
Proof.
  intros Hp Hhs. induction Hhs as [|h t Hh Ht IH]; simpl; [constructor|].
  destruct (p h) eqn:E.
  - constructor; [|exact Ht]. intros Hb. simpl in Hb.
    rewrite (Hp h E) in Hb. discriminate.
  - constructor; assumption.
Qed.

Lemma asaba_blocked_zero r hs :
  Forall blocked_zero hs -> Forall blocked_zero (asaba_hs r hs).
Proof.
  intros Hhs. unfold asaba_hs, take_hs.
  repeat match goal with
         | |- Forall _ (if ?b then _ else _) => destruct b
         | |- Forall _ (match ?o with Some _ => _ | None => _ end) => destruct o
         end;
    auto using two_to_one_blocked_zero, update_first_blocked_zero with asaba.
Qed.

(** After the exclusion pass of a fresh list, shares are still zero and
    only grandfathers and agnate siblings are blocked. *)
Definition hijab_inv (h : Heir) : Prop :=
  share h = 0 # 1 /\
  (is_blocked h = true -> In (relation h) (GRANDFATHER :: blocked_sibling_kinds)).

Lemma hijab_inv_fresh rels hs :
  fresh hs -> Forall hijab_inv (map (hijab_one rels) hs).
Proof.
  intros Hf. apply Forall_map. eapply Forall_impl; [|exact Hf].
  intros h [Hb Hs]. split.
  - rewrite hijab_one_share. exact Hs.
  - unfold hijab_one, block_if.
    destruct (_ || _ || _)%bool eqn:E; [|rewrite Hb; discriminate].
    intros _. change (In (relation h) (GRANDFATHER :: blocked_sibling_kinds)).
    unfold hijab_rule1, hijab_rule2, hijab_rule3 in E.
    rewrite !orb_true_iff, !andb_true_iff in E.
    destruct E as [[[_ E]|[_ E]]|[_ E]].
    + left. symmetry. apply str_eqb_eq. exact E.
    + right. apply str_in_In. exact E.
    + right. apply str_in_In in E. unfold blocked_sibling_kinds.
      simpl in E |- *. tauto.
Qed.

Lemma umar_one_blocked w h : hijab_inv h -> blocked_zero (umar_one w h).
Proof.
  intros [Hs Hk] Hb. rewrite umar_one_flag in Hb. specialize (Hk Hb).
  assert (E : umar_one w h = h).
  { unfold umar_one.
    assert (N : forall k, In k [SPOUSE_WIFE; SPOUSE_HUSBAND; MOTHER; FATHER] ->
                          str_eqb (relation h) k = false).
    { intros k Hin. apply str_eqb_neq. intros E. rewrite E in Hk.
      simpl in Hin, Hk. unfold blocked_sibling_kinds in Hk. simpl in Hk.
      decompose [or] Hin; subst; decompose [or] Hk; try contradiction;
        match goal with
        | H1 : ?a = relation h, H2 : ?b = relation h |- _ =>
            rewrite <- H1 in H2; discriminate H2
        end. }
    rewrite !N by (simpl; tauto). destruct w; reflexivity. }
  rewrite E. exact Hs.
Qed.

Lemma fixed_one_blocked_zero all hc h : hijab_inv h -> blocked_zero (fixed_one all hc h).
Proof.
  intros [Hs _] Hb. rewrite fixed_one_flag in Hb.
  rewrite fixed_one_blocked by exact Hb. exact Hs.
Qed.

Lemma after_fixed_blocked_zero hs :
  fresh hs -> Forall blocked_zero (heirs (snd (after_fixed hs))).
Proof.
  intros Hf. unfold after_fixed. rewrite heirs_calculate_fixed_shares.
  unfold after_hijab. rewrite heirs_apply_hijab_rules. simpl heirs.
  destruct (check_umariyyatayn _); apply Forall_map;
    (eapply Forall_impl; [|apply hijab_inv_fresh; exact Hf]);
    intros h; [apply umar_one_blocked | apply fixed_one_blocked_zero].
Qed.

Lemma run_passes_blocked_zero hs :
  fresh hs -> Forall blocked_zero (heirs (run_passes (init hs))).
Proof.
  intros Hf. rewrite run_passes_eq. change (heirs (init hs)) with hs.
  pose proof (after_fixed_blocked_zero _ Hf) as H.
  destruct (check_umariyyatayn _); [exact H|].
  destruct (Frac.gtb _ _) eqn:Hr; [|exact H].
  rewrite heirs_distribute_asaba by exact Hr.
  apply asaba_blocked_zero. exact H.
Qed.

(** C3: on every list the calculator receives (nobody blocked, all shares
    zero), once [calculate] has returned, every heir whose blocked flag is
    set has share exactly 0. *)
Theorem C3_blocked_implies_zero (hs : list Heir) :
  fresh hs ->
  forall h, In h (heirs (snd (calculate (init hs)))) ->
            is_blocked h = true -> share h = 0 # 1.
Proof.
  intros Hf h Hin. unfold calculate. cbv zeta in *. simpl snd in Hin.
  rewrite heirs_say in Hin.
  pose proof (run_passes_blocked_zero _ Hf) as H.
  rewrite Forall_forall in H. exact (H h Hin).
Qed.

Lemma C3_blocked_implies_zero_witness :
  let hs := [heir_of FATHER; heir_of GRANDFATHER; heir_of BROTHER_FULL; heir_of DAUGHTER] in
  Forall (fun h => is_blocked h = true -> share h = 0 # 1)
         (heirs (snd (calculate (init hs)))).
Proof.
  apply Forall_forall.
  apply (C3_blocked_implies_zero
           [heir_of FATHER; heir_of GRANDFATHER; heir_of BROTHER_FULL; heir_of DAUGHTER]).
  repeat constructor.
Defined.

(** ** C1: the two special cases *)

Lemma set_eqb_iff (a b : list pystr) :
  set_eqb a b = true <-> (forall x, In x a <-> In x b).
Proof.
  unfold set_eqb. rewrite andb_true_iff, !forallb_forall. split.
  - intros [Hab Hba] x. split; intros Hx.
    + apply str_in_In. apply Hab. exact Hx.
    + apply str_in_In. apply Hba. exact Hx.
  - intros H. split; intros x Hx; apply str_in_In; apply H; exact Hx.
Qed.

(** The kinds of the heirs [live] are exactly the kinds [ks]. *)
Definition kinds_form (live : list Heir) (ks : list pystr) : Prop :=
  forall r, In r (map relation live) <-> In r ks.

Lemma umar_test_true kinds n spouse :
  spouse = SPOUSE_WIFE \/ spouse = SPOUSE_HUSBAND ->
  (forall r, In r kinds <-> In r [spouse; FATHER; MOTHER]) ->
  n = 3%nat -> umar_test kinds n = true.
Proof.
  intros Hsp Hk ->. unfold umar_test.
  assert (HF : str_in FATHER kinds = true).
  { apply str_in_In. apply Hk. simpl. tauto. }
  rewrite HF. simpl negb. cbv iota.
  rewrite andb_true_r. apply orb_true_iff.
  destruct Hsp as [-> | ->]; [left | right]; apply set_eqb_iff; exact Hk.
Qed.

(** C1: if after the exclusion pass exactly three heirs are not blocked
    and their kinds are wife, father, mother (or husband, father, mother),
    the override applies: wife 1/4, mother 1/4, father 1/2 (or husband 1/2,
    mother 1/6, father 1/3); the total of the furud is reported as 1 and
    the passes end there, the residue pass adding nothing to heirs or trace. *)
Theorem C1_umariyyatan_override (hs : list Heir) :
  let live := filter unblocked (heirs (after_hijab hs)) in
  length live = 3%nat ->
  kinds_form live [SPOUSE_WIFE; FATHER; MOTHER]
  \/ kinds_form live [SPOUSE_HUSBAND; FATHER; MOTHER] ->
  let c := run_passes (init hs) in
  (kinds_form live [SPOUSE_WIFE; FATHER; MOTHER] ->
   forall h, In h (heirs c) ->
     (relation h = SPOUSE_WIFE -> share h = 1 # 4) /\
     (relation h = MOTHER -> share h = 1 # 4) /\
     (relation h = FATHER -> share h = 1 # 2))
  /\
  (kinds_form live [SPOUSE_HUSBAND; FATHER; MOTHER] ->
   forall h, In h (heirs c) ->
     (relation h = SPOUSE_HUSBAND -> share h = 1 # 2) /\
     (relation h = MOTHER -> share h = 1 # 6) /\
     (relation h = FATHER -> share h = 1 # 3))
  /\ fst (after_fixed hs) = 1 # 1
  /\ c = snd (after_fixed hs).
Proof.
  intros live Hlen Hkinds c.
  assert (Hchk : check_umariyyatayn (after_hijab hs) = true).
  { rewrite check_umariyyatayn_test. fold live.
    destruct Hkinds as [Hk | Hk].
    - apply (@umar_test_true _ _ SPOUSE_WIFE); auto.
    - apply (@umar_test_true _ _ SPOUSE_HUSBAND); auto. }
  assert (Hc : c = snd (after_fixed hs)).
  { unfold c. rewrite run_passes_eq. change (heirs (init hs)) with hs.
    rewrite Hchk. reflexivity. }
  assert (Hheirs : heirs c = map (umar_one (str_in SPOUSE_WIFE (map relation live)))
                                 (heirs (after_hijab hs))).
  { rewrite Hc. unfold after_fixed. rewrite heirs_calculate_fixed_shares, Hchk.
    reflexivity. }
  split; [|split; [|split; [|exact Hc]]].
  - intros Hk h Hin. rewrite Hheirs in Hin.
    replace (str_in SPOUSE_WIFE (map relation live)) with true in Hin.
    2:{ symmetry. apply str_in_In. apply Hk. left. reflexivity. }
    apply in_map_iff in Hin. destruct Hin as [h0 [<- _]].
    destruct (umar_one_kind true h0) as [-> _].
    repeat split; intros E; unfold umar_one; rewrite E; reflexivity.
  - intros Hk h Hin. rewrite Hheirs in Hin.
    replace (str_in SPOUSE_WIFE (map relation live)) with false in Hin.
    2:{ symmetry. apply str_in_false. intros Hw. apply Hk in Hw.
        simpl in Hw. decompose [or] Hw; try discriminate; contradiction. }
    apply in_map_iff in Hin. destruct Hin as [h0 [<- _]].
    destruct (umar_one_kind false h0) as [-> _].
    repeat split; intros E; unfold umar_one; rewrite E; reflexivity.
  - unfold after_fixed, calculate_fixed_shares. rewrite Hchk. reflexivity.
Qed.

Lemma C1_umariyyatan_override_witness :
  let hs := [heir_of SPOUSE_WIFE; heir_of FATHER; heir_of MOTHER] in
  let c := run_passes (init hs) in
  map share (heirs c) = [1 # 4; 1 # 2; 1 # 4] /\ c = snd (after_fixed hs).
Proof.
  pose (hs := [heir_of SPOUSE_WIFE; heir_of FATHER; heir_of MOTHER]).
  assert (Hk : kinds_form (filter unblocked (heirs (after_hijab hs)))
                          [SPOUSE_WIFE; FATHER; MOTHER]).
  { intros r. vm_compute. tauto. }
  destruct (@C1_umariyyatan_override hs eq_refl (or_introl Hk)) as [_ [_ [_ Hc]]].
  split; [vm_compute; reflexivity | exact Hc].
Defined.

(** ** C9: how a share is rendered *)

(** The shares are [Fraction] values: in lowest terms. *)
Definition normal (h : Heir) : Prop := Qred (share h) = share h.

Lemma Qred_twice (q : Q) : Qred (Qred q) = Qred q.
Proof. apply Qred_complete. apply Qred_correct. Qed.

Lemma set_share_normal q h : Qred q = q -> normal (set_share q h).
Proof. intros H. exact H. Qed.

#[local] Hint Resolve Qred_twice set_share_normal : asaba.

Lemma hijab_one_normal rels h : normal h -> normal (hijab_one rels h).
Proof. unfold normal. rewrite hijab_one_share. auto. Qed.

Lemma umar_one_normal w h : normal h -> normal (umar_one w h).
Proof.
  intros Hn. unfold umar_one.
  repeat match goal with
         | |- context [if ?b then _ else _] => destruct b
         end; try exact Hn; apply set_share_normal; apply Qred_twice.
Qed.

Lemma fixed_one_normal all hc h : normal h -> normal (fixed_one all hc h).
Proof.
  intros Hn. unfold fixed_one, fixed_share_step.
  repeat match goal with
         | |- context [if ?b then _ else _] => destruct b
         end; try exact Hn; apply set_share_normal; apply Qred_twice.
Qed.

Lemma two_to_one_normal males females unit_share hs :
  Qred unit_share = unit_share ->
  Forall normal hs -> Forall normal (share_two_to_one males females unit_share hs).
Proof.
  intros Hu Hhs. unfold share_two_to_one. apply Forall_map.
  eapply Forall_impl; [|exact Hhs]. intros h Hn.
  destruct (males h); [apply set_share_normal; apply Qred_twice|].
  destruct (females h); [apply set_share_normal; exact Hu | exact Hn].
Qed.

Lemma update_first_normal p q hs :
  Qred q = q -> Forall normal hs -> Forall normal (update_first p (set_share q) hs).
Proof.
  intros Hq Hhs. induction Hhs as [|h t Hh Ht IH]; simpl; [constructor|].
  destruct (p h); constructor; auto using set_share_normal.
Qed.

Lemma asaba_normal r hs :
  Qred r = r -> Forall normal hs -> Forall normal (asaba_hs r hs).
Proof.
  intros Hr Hhs. unfold asaba_hs, take_hs, unit_of.
  repeat match goal with
         | |- Forall _ (if ?b then _ else _) => destruct b
         | |- Forall _ (match ?o with Some _ => _ | None => _ end) => destruct o
         end;
    try assumption;
    first [ apply two_to_one_normal; [apply Qred_twice | assumption]
          | apply update_first_normal; [|assumption];
            match goal with
            | |- context [if ?b then _ else _] => destruct b
            end; [apply Qred_twice | assumption] ].
Qed.

Lemma run_passes_normal hs :
  Forall normal hs -> Forall normal (heirs (run_passes (init hs))).
Proof.
  intros Hn. rewrite run_passes_eq. change (heirs (init hs)) with hs.
  assert (H : Forall normal (heirs (snd (after_fixed hs)))).
  { unfold after_fixed. rewrite heirs_calculate_fixed_shares.
    unfold after_hijab. rewrite heirs_apply_hijab_rules. simpl heirs.
    destruct (check_umariyyatayn _); apply Forall_map;
      (eapply Forall_impl; [|apply Forall_map with (f := hijab_one (live_kinds hs));
                              eapply Forall_impl; [|exact Hn];
                              intros h; apply hijab_one_normal]);
      intros h; [apply umar_one_normal | apply fixed_one_normal]. }
  destruct (check_umariyyatayn _); [exact H|].
  destruct (Frac.gtb _ _) eqn:Hr; [|exact H].
  rewrite heirs_distribute_asaba by exact Hr.
  apply asaba_normal; [apply Qred_twice | exact H].
Qed.

Lemma In_dict_set (V : Type) k (v : V) d k' v' :
  In (k', v') (dict_set k v d) -> (k' = k /\ v' = v) \/ In (k', v') d.
Proof.
  induction d as [|[k0 v0] t IH]; simpl.
  - intros [E|[]]. injection E; auto.
  - destruct (str_eqb k k0); simpl.
    + intros [E|H]; [injection E; auto | auto].
    + intros [E|H]; [auto | destruct (IH H); auto].
Qed.

Lemma In_results hs acc k v :
  In (k, v) (fold_left (fun results heir => dict_set (name heir) (result_of heir) results)
                       hs acc) ->
  In (k, v) acc \/ exists h, In h hs /\ k = name h /\ v = result_of h.
Proof.
  revert acc. induction hs as [|h t IH]; simpl; intros acc H; [auto|].
  destruct (IH _ H) as [H1 | [h' [Hin [Hk Hv]]]].
  - apply In_dict_set in H1. destruct H1 as [[-> ->] | H2]; [|auto].
    right. exists h. auto.
  - right. exists h'. auto.
Qed.

(** Every record of the result dictionary is that of a heir who is not
    blocked; its fraction is [str] of the heir's share, a rational in
    lowest terms: "numerator/denominator" when the denominator is not 1
    and the numerator alone when the share is a whole number. *)
Lemma result_fraction_is_str_of_share (hs : list Heir) :
  Forall normal hs ->
  forall k f p r,
    In (k, Share f p r) (res_results (fst (calculate (init hs)))) ->
    exists h, In h (heirs (snd (calculate (init hs)))) /\
      name h = k /\ is_blocked h = false /\ relation h = r /\
      Z.gcd (Qnum (share h)) (Zpos (Qden (share h))) = 1%Z /\
      f = if (Qden (share h) =? 1)%positive then Z_str (Qnum (share h))
          else Z_str (Qnum (share h)) ++ u "/" ++ N_str (Npos (Qden (share h))).
Proof.
  intros Hn k f p r Hin. unfold calculate in *. cbv zeta in *.
  simpl fst in Hin. simpl res_results in Hin. simpl snd.
  rewrite heirs_say in *.
  apply In_results in Hin. destruct Hin as [[] | [h [Hh [Hk Hv]]]].
  exists h. split; [exact Hh|]. split; [auto|].
  unfold result_of in Hv. destruct (is_blocked h); [discriminate|].
  injection Hv as -> _ ->. split; [reflexivity|]. split; [reflexivity|].
  split; [|reflexivity].
  pose proof (run_passes_normal _ Hn) as Hall. rewrite Forall_forall in Hall.
  specialize (Hall h Hh). unfold normal in Hall. rewrite <- Hall.
  apply gcd_Qred.
Qed.

(** The fraction strings of a result dictionary ([None] for a blocked heir). *)
Definition fractions (res : CalcResult) : list (pystr * option pystr) :=
  map (fun kv => (fst kv, match snd kv with Share f _ _ => Some f | Blocked => None end))
      (res_results res).

(** C9, the failing input: for "ترك ولدا" (he left a son) the only heir
    takes the whole estate, and the fraction of the result envelope is the
    one-character string "1", without denominator, where the application's
    own [fraction_to_arabic] writes "1/1" for the same share. *)
Theorem C9_whole_share_without_denominator (T : tables) (d : HeirDetector) :
  python_like T ->
  let detected := fst (detect_heirs T d (u "ترك ولدا")) in
  let out := calculate (init detected) in
  detected = [new_Heir (u "الابن") SON MALE] /\
  map share (heirs (snd out)) = [1 # 1] /\
  fractions (fst out) = [(u "الابن", Some (u "1"))] /\
  App.fraction_to_arabic (1 # 1) = u "1/1".
Proof.
  intros HT. rewrite (detect_heirs_basic T d _ HT) by (vm_compute; reflexivity).
  repeat split; vm_compute; reflexivity.
Qed.

Lemma C9_whole_share_without_denominator_witness :
  let detected := fst (detect_heirs basic new_detector (u "ترك ولدا")) in
  let out := calculate (init detected) in
  detected = [new_Heir (u "الابن") SON MALE] /\
  map share (heirs (snd out)) = [1 # 1] /\
  fractions (fst out) = [(u "الابن", Some (u "1"))] /\
  App.fraction_to_arabic (1 # 1) = u "1/1".
Proof.
  exact (C9_whole_share_without_denominator basic new_detector python_like_basic).
Defined.

(** ** C4: the residue pass hands out exactly the residue, to one group *)

(** The groups of the residue pass, in the order the source tries them. *)
Inductive asaba_group := G_children | G_father | G_grandfather | G_full | G_paternal.

Definition in_group (g : asaba_group) (h : Heir) : bool :=
  match g with
  | G_children => asaba_son h || asaba_daughter h
  | G_father => asaba_father h
  | G_grandfather => asaba_grandfather h
  | G_full => asaba_brother_full h || asaba_sister_full h
  | G_paternal => asaba_brother_paternal h || asaba_sister_paternal h
  end.

Definition rank (g : asaba_group) : nat :=
  match g with
  | G_children => 0 | G_father => 1 | G_grandfather => 2 | G_full => 3 | G_paternal => 4
  end.

Definition has_member (g : asaba_group) (hs : list Heir) : bool := existsb (in_group g) hs.

(** [g] has a member and every group tried before it is empty. *)
Definition first_group (g : asaba_group) (hs : list Heir) : Prop :=
  has_member g hs = true /\
  forall g', (rank g' < rank g)%nat -> has_member g' hs = false.

Definition sum_shares (hs : list Heir) : Q := fold_right Qplus 0 (map share hs).

Lemma existsb_orb (p q : Heir -> bool) hs :
  existsb (fun h => p h || q h) hs = existsb p hs || existsb q hs.
Proof.
  induction hs as [|h t IH]; simpl; [reflexivity|]. rewrite IH.
  destruct (p h), (q h), (existsb p t), (existsb q t); reflexivity.
Qed.

Lemma find_none_existsb (p : Heir -> bool) hs : find p hs = None -> existsb p hs = false.
Proof.
  induction hs as [|h t IH]; simpl; [reflexivity|].
  destruct (p h); [discriminate | exact IH].
Qed.

Lemma find_some_existsb (p : Heir -> bool) hs who :
  find p hs = Some who -> existsb p hs = true.
Proof.
  induction hs as [|h t IH]; simpl; [discriminate|].
  destruct (p h); [reflexivity | exact IH].
Qed.

(** The units of a heir in a two-to-one split, and of a list. *)
Definition units_of (males females : Heir -> bool) (h : Heir) : Z :=
  if males h then 2 else if females h then 1 else 0.

Definition units (males females : Heir -> bool) (hs : list Heir) : Z :=
  fold_right Z.add 0%Z (map (units_of males females) hs).

Lemma units_count males females hs :
  (forall h, males h = true -> females h = false) ->
  units males females hs
  = Z.of_nat (length (filter males hs) * 2 + length (filter females hs)).
Proof.
  intros Hdis. unfold units.
  induction hs as [|h t IH]; [reflexivity|].
  cbn [map fold_right filter]. rewrite IH. unfold units_of.
  destruct (males h) eqn:Em.
  - rewrite (Hdis h Em). cbn [length]. lia.
  - destruct (females h); cbn [length]; lia.
Qed.

(** What the two-to-one split adds to the total of the shares. *)
Lemma two_to_one_gain males females (unit_share : Fraction) hs :
  Forall (fun h => males h || females h = true -> share h == 0) hs ->
  sum_shares (share_two_to_one males females unit_share hs)
  == sum_shares hs + inject_Z (units males females hs) * unit_share.
Proof.
  intros Hz. unfold sum_shares, share_two_to_one, units.
  induction Hz as [|h t Hh Ht IH]; cbn [map fold_right].
  - ring.
  - rewrite IH. clear IH. rewrite inject_Z_plus. unfold units_of.
    destruct (males h) eqn:Em.
    + cbn [share set_share]. rewrite Hh by reflexivity.
      unfold Frac.mul. rewrite Qred_correct. ring.
    + destruct (females h) eqn:Ef.
      * cbn [share set_share]. rewrite Hh by reflexivity. ring.
      * ring.
Qed.

Lemma unit_times_count r (n : nat) :
  (0 < n)%nat -> inject_Z (Z.of_nat n) * Frac.div r (Frac.of_nat n) == r.
Proof.
  intros Hn. unfold Frac.div, Frac.of_nat. rewrite Qred_correct.
  field. intros E. unfold Qeq in E. simpl in E. lia.
Qed.

Lemma count_positive (p q : Heir -> bool) hs :
  existsb p hs || existsb q hs = true ->
  (0 < length (filter p hs) * 2 + length (filter q hs))%nat.
Proof.
  rewrite <- !nonempty_filter.
  destruct (filter p hs), (filter q hs); simpl; try discriminate; lia.
Qed.

(** What the assignment to the first selected heir adds to the total. *)
Lemma update_first_gain p q hs who :
  find p hs = Some who ->
  sum_shares (update_first p (set_share q) hs) == sum_shares hs - share who + q.
Proof.
  unfold sum_shares. induction hs as [|h t IH]; simpl; [discriminate|].
  destruct (p h).
  - intros E. injection E as ->. simpl. ring.
  - intros E. simpl. rewrite (IH E). ring.
Qed.

Lemma has_member_children hs :
  has_member G_children hs
  = nonempty (filter asaba_son hs) || nonempty (filter asaba_daughter hs).
Proof. rewrite !nonempty_filter, <- existsb_orb. reflexivity. Qed.

Lemma has_member_full hs :
  has_member G_full hs
  = nonempty (filter asaba_brother_full hs) || nonempty (filter asaba_sister_full hs).
Proof. rewrite !nonempty_filter, <- existsb_orb. reflexivity. Qed.

Lemma has_member_paternal hs :
  has_member G_paternal hs
  = nonempty (filter asaba_brother_paternal hs) || nonempty (filter asaba_sister_paternal hs).
Proof. rewrite !nonempty_filter, <- existsb_orb. reflexivity. Qed.

(** The five ways the residue pass can go, and the sixth where no group
    has a member. *)
Inductive asaba_case (r : Fraction) (hs : list Heir) : asaba_group -> list Heir -> Prop :=
| case_children :
    has_member G_children hs = true ->
    asaba_case r hs G_children
      (share_two_to_one asaba_son asaba_daughter
         (unit_of r asaba_son asaba_daughter hs) hs)
| case_father f :
    has_member G_children hs = false ->
    find asaba_father hs = Some f ->
    asaba_case r hs G_father (take_hs asaba_father f r hs)
| case_grandfather g :
    has_member G_children hs = false ->
    has_member G_father hs = false ->
    find asaba_grandfather hs = Some g ->
    asaba_case r hs G_grandfather (take_hs asaba_grandfather g r hs)
| case_full :
    has_member G_children hs = false ->
    has_member G_father hs = false ->
    has_member G_grandfather hs = false ->
    has_member G_full hs = true ->
    asaba_case r hs G_full
      (share_two_to_one asaba_brother_full asaba_sister_full
         (unit_of r asaba_brother_full asaba_sister_full hs) hs)
| case_paternal :
    has_member G_children hs = false ->
    has_member G_father hs = false ->
    has_member G_grandfather hs = false ->
    has_member G_full hs = false ->
    has_member G_paternal hs = true ->
    asaba_case r hs G_paternal
      (share_two_to_one asaba_brother_paternal asaba_sister_paternal
         (unit_of r asaba_brother_paternal asaba_sister_paternal hs) hs).

Lemma asaba_hs_case r hs :
  (exists g, has_member g hs = true) ->
  exists g, asaba_case r hs g (asaba_hs r hs).
Proof.
  intros Hex. unfold asaba_hs.
  rewrite <- has_member_children, <- has_member_full, <- has_member_paternal.
  destruct (has_member G_children hs) eqn:E1.
  { exists G_children. constructor. exact E1. }
  destruct (find asaba_father hs) as [f|] eqn:E2.
  { exists G_father. constructor; assumption. }
  apply find_none_existsb in E2.
  destruct (find asaba_grandfather hs) as [g|] eqn:E3.
  { exists G_grandfather. constructor; assumption. }
  apply find_none_existsb in E3.
  destruct (has_member G_full hs) eqn:E4.
  { exists G_full. constructor; assumption. }
  destruct (has_member G_paternal hs) eqn:E5.
  { exists G_paternal. constructor; assumption. }
  destruct Hex as [[] Hg]; try congruence.
  - change (existsb asaba_father hs = true) in Hg. congruence.
  - change (existsb asaba_grandfather hs = true) in Hg. congruence.
Qed.

Lemma asaba_case_first r hs g hs' : asaba_case r hs g hs' -> first_group g hs.
Proof.
  intros H. destruct H; split;
    try assumption;
    try (eapply find_some_existsb; eassumption);
    intros [] Hlt; simpl in Hlt; try lia; assumption.
Qed.

(** Heir by heir, a pass rewrites members of the group [g] only. *)
Definition only_group (g : asaba_group) (before after : list Heir) : Prop :=
  Forall2 (fun a b => a = b \/ in_group g a = true) before after.

Lemma only_group_map g (f : Heir -> Heir) hs :
  (forall a, f a = a \/ in_group g a = true) -> only_group g hs (map f hs).
Proof.
  intros Hf. induction hs as [|h t IH]; simpl; constructor; [|exact IH].
  destruct (Hf h) as [E|E]; [left; symmetry; exact E | right; exact E].
Qed.

Lemma only_group_update_first g p (f : Heir -> Heir) hs :
  (forall a, p a = true -> in_group g a = true) ->
  only_group g hs (update_first p f hs).
Proof.
  intros Hp. induction hs as [|h t IH]; simpl; [constructor|].
  destruct (p h) eqn:E.
  - constructor; [right; auto|].
    clear. induction t; constructor; auto.
  - constructor; [left; reflexivity | exact IH].
Qed.

Lemma only_group_two_to_one g males females unit_share hs :
  (forall a, in_group g a = males a || females a) ->
  only_group g hs (share_two_to_one males females unit_share hs).
Proof.
  intros Hg. apply only_group_map. intros a. rewrite Hg.
  destruct (males a); [right; reflexivity|].
  destruct (females a); [right; reflexivity | left; reflexivity].
Qed.

Lemma asaba_case_only_group r hs g hs' : asaba_case r hs g hs' -> only_group g hs hs'.
Proof.
  intros H. destruct H;
    first [ apply only_group_two_to_one; intros a; reflexivity
          | apply only_group_update_first; intros a Ha; exact Ha ].
Qed.

(** What the residue pass relies on when it starts: no share is negative
    and the males it overwrites (sons, brothers) hold nothing yet. *)
Definition before_asaba (h : Heir) : Prop :=
  0 <= share h /\
  (In (relation h) [SON; BROTHER_FULL; BROTHER_PATERNAL] -> share h == 0).

Lemma eqb_zero q : Frac.eqb q (0 # 1) = true -> q == 0.
Proof. unfold Frac.eqb. apply Qeq_bool_eq. Qed.

Lemma member_zero (males females : Heir -> bool) (k : pystr) hs :
  In k [SON; BROTHER_FULL; BROTHER_PATERNAL] ->
  (forall h, males h = true -> str_eqb (relation h) k = true) ->
  (forall h, females h = true -> Frac.eqb (share h) (0 # 1) = true) ->
  Forall before_asaba hs ->
  Forall (fun h => males h || females h = true -> share h == 0) hs.
Proof.
  intros Hk Hm Hf Hhs. eapply Forall_impl; [|exact Hhs].
  intros h [_ Hz] Hor. apply orb_true_iff in Hor. destruct Hor as [E|E].
  - apply Hz. apply Hm in E. apply str_eqb_eq in E. rewrite E. exact Hk.
  - apply eqb_zero. apply Hf. exact E.
Qed.

Ltac pick_kind :=
  let h := fresh "h" in let H := fresh "H" in
  intros h H; repeat (apply andb_true_iff in H; destruct H as [H ?]); assumption.

Lemma two_to_one_residue r males females (k : pystr) hs :
  In k [SON; BROTHER_FULL; BROTHER_PATERNAL] ->
  (forall h, males h = true -> str_eqb (relation h) k = true) ->
  (forall h, females h = true -> Frac.eqb (share h) (0 # 1) = true) ->
  (forall h, males h = true -> females h = false) ->
  nonempty (filter males hs) || nonempty (filter females hs) = true ->
  Forall before_asaba hs ->
  sum_shares (share_two_to_one males females (unit_of r males females hs) hs)
  == sum_shares hs + r.
Proof.
  intros Hk Hm Hf Hdis Hne Hhs.
  rewrite two_to_one_gain by (eapply member_zero; eassumption).
  rewrite units_count by exact Hdis. unfold unit_of.
  rewrite unit_times_count; [reflexivity|].
  apply count_positive. rewrite <- !nonempty_filter. exact Hne.
Qed.

Lemma take_residue p who r hs :
  find p hs = Some who -> Forall before_asaba hs ->
  sum_shares (take_hs p who r hs) == sum_shares hs + r.
Proof.
  intros Hfind Hhs. unfold take_hs. rewrite (update_first_gain _ _ _ _ Hfind).
  destruct (Frac.gtb (share who) (0 # 1)) eqn:E.
  - unfold Frac.add. rewrite Qred_correct. ring.
  - assert (Hz : share who == 0).
    { apply find_some in Hfind. destruct Hfind as [Hin _].
      rewrite Forall_forall in Hhs. destruct (Hhs who Hin) as [Hge _].
      unfold Frac.gtb in E. apply negb_false_iff in E. apply Qle_bool_iff in E.
      apply Qle_antisym; assumption. }
    rewrite Hz. ring.
Qed.

Lemma sons_not_daughters (k1 k2 : pystr) h :
  k1 <> k2 -> str_eqb (relation h) k1 = true -> str_eqb (relation h) k2 = false.
Proof.
  intros Hne E. apply str_eqb_eq in E. apply str_eqb_neq. congruence.
Qed.

Lemma asaba_case_gain r hs g hs' :
  Forall before_asaba hs -> asaba_case r hs g hs' ->
  sum_shares hs' == sum_shares hs + r.
Proof.
  intros Hhs H. destruct H.
  - apply two_to_one_residue with (k := SON); auto.
    + simpl; tauto.
    + unfold asaba_son; pick_kind.
    + unfold asaba_daughter; pick_kind.
    + intros h Hs. unfold asaba_son in Hs. unfold asaba_daughter.
      apply andb_true_iff in Hs. destruct Hs as [Hs _].
      rewrite (@sons_not_daughters SON DAUGHTER h) by (discriminate || exact Hs).
      reflexivity.
    + rewrite <- has_member_children. assumption.
  - apply take_residue; assumption.
  - apply take_residue; assumption.
  - apply two_to_one_residue with (k := BROTHER_FULL); auto.
    + simpl; tauto.
    + unfold asaba_brother_full; pick_kind.
    + unfold asaba_sister_full; pick_kind.
    + intros h Hs. unfold asaba_brother_full in Hs. unfold asaba_sister_full.
      apply andb_true_iff in Hs. destruct Hs as [Hs _].
      rewrite (@sons_not_daughters BROTHER_FULL SISTER_FULL h)
        by (discriminate || exact Hs).
      reflexivity.
    + rewrite <- has_member_full. assumption.
  - apply two_to_one_residue with (k := BROTHER_PATERNAL); auto.
    + simpl; tauto.
    + unfold asaba_brother_paternal; pick_kind.
    + unfold asaba_sister_paternal; pick_kind.
    + intros h Hs. unfold asaba_brother_paternal in Hs. unfold asaba_sister_paternal.
      apply andb_true_iff in Hs. destruct Hs as [Hs _].
      rewrite (@sons_not_daughters BROTHER_PATERNAL SISTER_PATERNAL h)
        by (discriminate || exact Hs).
      reflexivity.
    + rewrite <- has_member_paternal. assumption.
Qed.

Lemma daughters_share_nonneg (n : nat) : 0 <= Frac.div (Frac.mk 2 3) (Frac.of_nat n).
Proof.
  unfold Frac.div, Frac.of_nat. rewrite Qred_correct.
  unfold Qdiv. apply Qmult_le_0_compat; [discriminate|].
  apply Qinv_le_0_compat. unfold Qle. simpl. lia.
Qed.

Lemma fixed_one_before all hc h :
  share h = 0 # 1 -> before_asaba (fixed_one all hc h).
Proof.
  intros Hs. split.
  - unfold fixed_one, fixed_share_step.
    repeat match goal with
           | |- context [if ?b then _ else _] => destruct b
           end; cbn [fst share set_share]; rewrite ?Hs;
      first [ discriminate | apply daughters_share_nonneg ].
  - intros Hk. destruct (fixed_one_kind all hc h) as [Hrel _]. rewrite Hrel in Hk.
    assert (E : fixed_one all hc h = h).
    { unfold fixed_one, fixed_share_step. cbv zeta.
      destruct (is_blocked h); [reflexivity|].
      destruct Hk as [<-|[<-|[<-|[]]]]; reflexivity. }
    rewrite E, Hs. reflexivity.
Qed.

Lemma after_fixed_before hs :
  fresh hs -> check_umariyyatayn (snd (after_fixed hs)) = false ->
  Forall before_asaba (heirs (snd (after_fixed hs))).
Proof.
  intros Hf Hchk. unfold after_fixed in *. rewrite check_after_fixed in Hchk.
  rewrite heirs_calculate_fixed_shares, Hchk.
  apply Forall_map. unfold after_hijab. rewrite heirs_apply_hijab_rules.
  eapply Forall_impl; [|apply hijab_inv_fresh; exact Hf].
  intros h [Hs _]. apply fixed_one_before. exact Hs.
Qed.

(** C4: when the residue pass fires (the list is fresh, no special case,
    the residue 1 - total of the furud is positive and some group has a
    member), the shares handed out in the pass add up to the residue
    exactly, and they all go to one group, the first of the priority list
    that has a member: every group before it is empty. *)
Theorem C4_residue_partition (hs : list Heir) :
  fresh hs ->
  let c3 := snd (after_fixed hs) in
  let residue := Frac.sub (1 # 1) (fst (after_fixed hs)) in
  check_umariyyatayn c3 = false ->
  0 < residue ->
  (exists g, has_member g (heirs c3) = true) ->
  let c4 := run_passes (init hs) in
  c4 = distribute_asaba residue c3 /\
  sum_shares (heirs c4) - sum_shares (heirs c3) == residue /\
  exists g, first_group g (heirs c3) /\ only_group g (heirs c3) (heirs c4).
Proof.
  intros Hf c3 residue Hchk Hpos Hex c4.
  assert (Hgt : Frac.gtb residue (0 # 1) = true).
  { unfold Frac.gtb. apply negb_true_iff.
    destruct (Qle_bool residue (0 # 1)) eqn:E; [|reflexivity].
    apply Qle_bool_iff in E. exfalso. apply (Qlt_not_le _ _ Hpos). exact E. }
  assert (Hc4 : c4 = distribute_asaba residue c3).
  { unfold c4. rewrite run_passes_eq. change (heirs (init hs)) with hs.
    unfold c3 in Hchk. unfold after_fixed in Hchk. rewrite check_after_fixed in Hchk.
    rewrite Hchk. fold residue. rewrite Hgt. reflexivity. }
  split; [exact Hc4|].
  rewrite Hc4, heirs_distribute_asaba by exact Hgt.
  destruct (@asaba_hs_case residue _ Hex) as [g Hcase].
  split.
  - rewrite (@asaba_case_gain _ _ _ _ (@after_fixed_before _ Hf Hchk) Hcase).
    unfold c3. ring.
  - exists g. split.
    + eapply asaba_case_first. exact Hcase.
    + eapply asaba_case_only_group. exact Hcase.
Qed.

Lemma C4_residue_partition_witness :
  let hs := [heir_of SPOUSE_WIFE; heir_of SON; heir_of SON; heir_of DAUGHTER] in
  let c3 := snd (after_fixed hs) in
  let residue := Frac.sub (1 # 1) (fst (after_fixed hs)) in
  let c4 := run_passes (init hs) in
  residue = 7 # 8 /\
  c4 = distribute_asaba residue c3 /\
  sum_shares (heirs c4) - sum_shares (heirs c3) == residue /\
  exists g, first_group g (heirs c3) /\ only_group g (heirs c3) (heirs c4).
Proof.
  split; [vm_compute; reflexivity|].
  apply (@C4_residue_partition
           [heir_of SPOUSE_WIFE; heir_of SON; heir_of SON; heir_of DAUGHTER]).
  - repeat constructor.
  - vm_compute; reflexivity.
  - vm_compute; reflexivity.
  - exists G_children. vm_compute; reflexivity.
Defined.

(** ** C6: heirs of kinds the calculator does not act on *)

(** The heirs once [calculate] has returned. *)
Definition final (hs : list Heir) : list Heir := heirs (snd (calculate (init hs))).

Lemma final_run_passes hs : final hs = heirs (run_passes (init hs)).
Proof. reflexivity. Qed.

(** C6, counterexample: a paternal uncle beside wife, father and mother
    is of a kind the calculator never names, yet his presence changes the
    shares of the father (1/2 to 5/12) and of the mother (1/4 to 1/3):
    with four heirs that are not blocked the special case no longer holds. *)
Lemma C6_uncle_changes_shares :
  let base := [heir_of SPOUSE_WIFE; heir_of FATHER; heir_of MOTHER] in
  let uncle := heir_of UNCLE_PATERNAL in
  acted uncle = false /\
  map share (final base) = [1 # 4; 1 # 2; 1 # 4] /\
  map share (final (base ++ [uncle])) = [1 # 4; 5 # 12; 1 # 3; 0 # 1].
Proof. repeat split; vm_compute; reflexivity. Qed.

(** The mother's rule counts as a sibling every heir whose kind tag
    contains "أخ"; the nephew's tag "ابن_الأخ" does: two nephews bring the
    mother from 1/3 down to 1/6. *)
Example nephews_counted_as_siblings :
  acted (heir_of NEPHEW) = false /\
  counted_as_sibling (heir_of NEPHEW) = true /\
  map share (final [heir_of MOTHER]) = [1 # 3] /\
  map share (final [heir_of MOTHER; heir_of NEPHEW; heir_of NEPHEW]) = [1 # 6; 0 # 1; 0 # 1].
Proof. repeat split; vm_compute; reflexivity. Qed.

(** The same through the detector: a son's daughter, a kind the detector
    emits and the calculator never names, beside wife, father and mother. *)
Example granddaughter_breaks_special_case :
  let detected := fst (detect_heirs basic new_detector (u "توفي عن زوجة وأب وأم وبنت ابن")) in
  map relation detected = [SPOUSE_WIFE; GRANDDAUGHTER; FATHER; MOTHER] /\
  map share (final detected) = [1 # 4; 0 # 1; 5 # 12; 1 # 3] /\
  map share (final (filter acted detected)) = [1 # 4; 1 # 2; 1 # 4].
Proof. repeat split; vm_compute; reflexivity. Qed.

(** C6, amended: on a fresh list, the heirs of kinds the calculator does
    not act on end unblocked with share 0, and their presence changes no
    other heir's blocked status; it changes no other heir's share either
    when the other heirs are not one of the two special cases (which ask
    for exactly three heirs not blocked) and none of the heirs of other
    kinds is counted as a sibling by the mother's rule. *)
Theorem C6_other_kinds_inert (hs : list Heir) :
  fresh hs ->
  (forall h, In h (final hs) -> acted h = false ->
             is_blocked h = false /\ share h = 0 # 1)
  /\ map is_blocked (filter acted (final hs)) = map is_blocked (final (filter acted hs))
  /\ (no_stray_sibling hs ->
      check_umariyyatayn (after_hijab (filter acted hs)) = false ->
      filter acted (final hs) = final (filter acted hs)).
Proof.
  intros Hf. rewrite !final_run_passes. split; [|split].
  - assert (Hu : Forall untouched hs).
    { eapply Forall_impl; [|exact Hf]. intros h Hh _. exact Hh. }
    pose proof (run_passes_untouched hs Hu) as H. rewrite Forall_forall in H.
    intros h Hin Ha. exact (H h Hin Ha).
  - apply blocked_flags_filter.
  - intros Hs Hchk. symmetry. apply run_passes_filter; assumption.
Qed.

Lemma C6_other_kinds_inert_witness :
  let hs := [heir_of SPOUSE_WIFE; heir_of UNCLE_PATERNAL; heir_of SON;
             heir_of GRANDDAUGHTER; heir_of MOTHER] in
  (forall h, In h (final hs) -> acted h = false ->
             is_blocked h = false /\ share h = 0 # 1)
  /\ map is_blocked (filter acted (final hs)) = map is_blocked (final (filter acted hs))
  /\ filter acted (final hs) = final (filter acted hs).
Proof.
  pose (hs := [heir_of SPOUSE_WIFE; heir_of UNCLE_PATERNAL; heir_of SON;
               heir_of GRANDDAUGHTER; heir_of MOTHER]).
  assert (Hf : fresh hs) by (repeat constructor).
  destruct (C6_other_kinds_inert hs Hf) as [H1 [H2 H3]].
  split; [exact H1|]. split; [exact H2|].
  apply H3.
  - apply no_stray_sibling_check. vm_compute. reflexivity.
  - vm_compute. reflexivity.
Defined.

(** ** C10: no father beside "أبناء" or "لأب" *)

(** C10: if the text contains "أبناء" or "لأب" anywhere, [detect_heirs]
    emits no father, whatever else the text holds (a standalone father
    token included). *)
Theorem C10_no_father_beside_abna_or_li_ab (T : tables) (d : HeirDetector) (text : pystr) :
  lower_keeps_arabic T ->
  contains (u "أبناء") text = true \/ contains (u "لأب") text = true ->
  forall h, In h (fst (detect_heirs T d text)) -> relation h <> FATHER.
Proof.
  intros Hlow Hsub h Hin Hrel.
  destruct (father_guard T d text h Hin Hrel) as [H1 H2].
  destruct Hsub as [Hs | Hs]; apply Hlow in Hs; try reflexivity; congruence.
Qed.

Lemma C10_no_father_beside_abna_or_li_ab_witness :
  let text := u "ترك أبا وثلاثة أبناء" in
  existsb (fun pattern => found basic pattern (lower basic text)) Patterns.father_patterns
    = true /\
  Forall (fun h => relation h <> FATHER) (fst (detect_heirs basic new_detector text)).
Proof.
  split; [vm_compute; reflexivity|].
  apply Forall_forall.
  apply (C10_no_father_beside_abna_or_li_ab basic new_detector (u "ترك أبا وثلاثة أبناء")
           basic_keeps_arabic).
  left. vm_compute. reflexivity.
Defined.

(** ** C2: a wife, two sons and two daughters *)

(** The first test sentence of the source. *)
Definition E1 : pystr := u "ترك زوجة وولدان وبنتان".

(** C2, counterexample: on the sentence of E1 each son ends with 7/24 and
    each daughter with 7/48, not 7/48 and 7/96. *)
Lemma C2_sons_take_seven_twentyfourths :
  let detected := fst (detect_heirs basic new_detector E1) in
  map relation detected = [SPOUSE_WIFE; SON; SON; DAUGHTER; DAUGHTER] /\
  map share (final detected) = [1 # 8; 7 # 24; 7 # 24; 7 # 48; 7 # 48] /\
  ~ (7 # 24 == 7 # 48) /\ ~ (7 # 48 == 7 # 96).
Proof.
  split; [vm_compute; reflexivity|]. split; [vm_compute; reflexivity|].
  split; intros H; vm_compute in H; discriminate H.
Qed.

(** C2, amended: for the sentence "ترك زوجة وولدان وبنتان" the pipeline
    (detect, then calculate) finds a wife, two sons and two daughters and
    gives the wife 1/8, each son 7/24 and each daughter 7/48; the shares
    of the heirs not blocked add up to 1. *)
Theorem C2_wife_two_sons_two_daughters (T : tables) (d : HeirDetector) :
  python_like T ->
  let detected := fst (detect_heirs T d E1) in
  let out := calculate (init detected) in
  map relation detected = [SPOUSE_WIFE; SON; SON; DAUGHTER; DAUGHTER] /\
  fractions (fst out)
  = [ (u "الزوجة", Some (u "1/8"));
      (u "الابن 1", Some (u "7/24")); (u "الابن 2", Some (u "7/24"));
      (u "البنت 1", Some (u "7/48")); (u "البنت 2", Some (u "7/48")) ] /\
  map share (heirs (snd out)) = [1 # 8; 7 # 24; 7 # 24; 7 # 48; 7 # 48] /\
  get_total_distributed (snd out) = 1 # 1 /\
  validate_distribution (snd out) = true.
Proof.
  intros HT. rewrite (detect_heirs_basic T d E1 HT) by (vm_compute; reflexivity).
  repeat split; vm_compute; reflexivity.
Qed.

Lemma C2_wife_two_sons_two_daughters_witness :
  let detected := fst (detect_heirs basic new_detector E1) in
  let out := calculate (init detected) in
  map relation detected = [SPOUSE_WIFE; SON; SON; DAUGHTER; DAUGHTER] /\
  fractions (fst out)
  = [ (u "الزوجة", Some (u "1/8"));
      (u "الابن 1", Some (u "7/24")); (u "الابن 2", Some (u "7/24"));
      (u "البنت 1", Some (u "7/48")); (u "البنت 2", Some (u "7/48")) ] /\
  map share (heirs (snd out)) = [1 # 8; 7 # 24; 7 # 24; 7 # 48; 7 # 48] /\
  get_total_distributed (snd out) = 1 # 1 /\
  validate_distribution (snd out) = true.
Proof.
  exact (C2_wife_two_sons_two_daughters basic new_detector python_like_basic).
Defined.

(** ** C7: telling sons, nephews and granddaughters apart *)

(** C7, the failing input: on the text "ابن الأخ" (the nephew, written
    with the article) the detector emits one heir, a son: the look-ahead of
    the son patterns excludes " أخ" but not " الأخ".  With a wife before
    it the nephew is again taken for a son.  The other two parts of the
    claim hold: "ابن أخ" without the article emits nothing, and "بنت ابن"
    emits the son's daughter and no daughter. *)
Theorem C7_nephew_with_article_is_a_son (T : tables) (d : HeirDetector) :
  python_like T ->
  fst (detect_heirs T d (u "ابن الأخ")) = [new_Heir (u "الابن") SON MALE] /\
  map relation (fst (detect_heirs T d (u "ترك زوجة وابن الأخ"))) = [SPOUSE_WIFE; SON] /\
  fst (detect_heirs T d (u "ابن أخ")) = [] /\
  fst (detect_heirs T d (u "بنت ابن")) = [new_Heir (u "بنت الابن") GRANDDAUGHTER FEMALE].
Proof.
  intros HT.
  rewrite !(detect_heirs_basic T d _ HT) by (vm_compute; reflexivity).
  repeat split; vm_compute; reflexivity.
Qed.

Lemma C7_nephew_with_article_is_a_son_witness :
  fst (detect_heirs basic new_detector (u "ابن الأخ")) = [new_Heir (u "الابن") SON MALE] /\
  map relation (fst (detect_heirs basic new_detector (u "ترك زوجة وابن الأخ")))
    = [SPOUSE_WIFE; SON] /\
  fst (detect_heirs basic new_detector (u "ابن أخ")) = [] /\
  fst (detect_heirs basic new_detector (u "بنت ابن"))
    = [new_Heir (u "بنت الابن") GRANDDAUGHTER FEMALE].
Proof.
  exact (C7_nephew_with_article_is_a_son basic new_detector python_like_basic).
Defined.

(** ** The state a run leaves behind *)

(** [detect_heirs] empties the list of the detector and decides the gender
    anew, and [solve] builds a new calculator from the heirs just detected:
    the envelope [solve] returns does not depend on what an earlier call
    left in the system object. *)
Lemma solve_state_independent (T : tables) (sys sys' : HeritageSystem) (query : pystr) :
  fst (solve T sys query) = fst (solve T sys' query).
Proof.
  unfold solve. rewrite (detect_heirs_reset T (detector sys) (detector sys') query).
  destruct (detect_heirs T (detector sys') query) as [hs det].
  destruct (negb (nonempty hs)); [reflexivity|].
  destruct (calculate (init hs)) as [result calc]. reflexivity.
Qed.

(** Two calls in a row on one system object. *)
Lemma solve_twice (T : tables) (sys : HeritageSystem) (query : pystr) :
  fst (solve T (snd (solve T sys query)) query) = fst (solve T sys query).
Proof. apply solve_state_independent. Qed.

End Claims.

(* ===================================================================== *)
(** * Further properties of the detector, the calculator and the system *)
(* ===================================================================== *)

Module DetectorProps.
Import Calc CalcFacts Unicode Regex Detector DetectFacts.

(** ** The shape of the detected list *)

Lemma detected_append_all d l :
  detected_heirs (append_all d l) = detected_heirs d ++ l.
Proof. reflexivity. Qed.

(** [if b: the heirs of l are appended]. *)
Definition opt (b : bool) (l : list Heir) : list Heir := if b then l else [].

Lemma detected_when_append' (b : bool) x d :
  detected_heirs (when b (fun d => append d x) d) = detected_heirs d ++ opt b [x].
Proof. destruct b; simpl; [reflexivity | rewrite app_nil_r; reflexivity]. Qed.

Lemma detected_when_append_all' (b : bool) l d :
  detected_heirs (when b (fun d => append_all d l) d) = detected_heirs d ++ opt b l.
Proof. destruct b; simpl; [reflexivity | rewrite app_nil_r; reflexivity]. Qed.

Lemma detected_when_when' (c b : bool) x d :
  detected_heirs (when c (when b (fun d => append d x)) d)
  = detected_heirs d ++ opt (c && b) [x].
Proof. destruct c, b; simpl; rewrite ?app_nil_r; reflexivity. Qed.

Lemma In_opt b l h : In h (opt b l) <-> b = true /\ In h l.
Proof. destruct b; simpl; intuition discriminate. Qed.

Lemma filter_opt (p : Heir -> bool) b l : filter p (opt b l) = opt b (filter p l).
Proof. destruct b; reflexivity. Qed.

Section Parts.
Variable T : tables.
Variable text : pystr.

Let text_lower := lower T text.

(** The conditions under which a spouse is appended. *)
Definition wife_found : bool :=
  str_eqb (detect_deceased_gender T text) MALE
  && existsb (fun p => contains p text_lower)
       [u "زوجة"; u "زوجته"; u "وزوجة"; u "وزوجته"].
Definition husband_found : bool :=
  negb (str_eqb (detect_deceased_gender T text) MALE)
  && (contains (u "زوج") text_lower && negb (contains (u "زوجة") text_lower)).

(** What each step of [detect_heirs] appends, with the kind it appends. *)
Definition parts : list (pystr * list Heir) :=
  [ (SPOUSE_WIFE, opt wife_found [new_Heir (u "الزوجة") SPOUSE_WIFE FEMALE]);
    (SPOUSE_HUSBAND, opt husband_found [new_Heir (u "الزوج") SPOUSE_HUSBAND MALE]);
    (SON, numbered (detect_sons T text) (u "الابن") SON MALE);
    (DAUGHTER, numbered (detect_daughters T text) (u "البنت") DAUGHTER FEMALE);
    (GRANDDAUGHTER,
     opt (found T Patterns.granddaughter text_lower)
         [new_Heir (u "بنت الابن") GRANDDAUGHTER FEMALE]);
    (GRANDDAUGHTER_DAUGHTER,
     opt (found T Patterns.granddaughter_daughter text_lower)
         [new_Heir (u "بنت البنت") GRANDDAUGHTER_DAUGHTER FEMALE]);
    (GRANDFATHER,
     opt (existsb (fun pattern => found T pattern text_lower) Patterns.grandfather_patterns
          && negb (contains (u "جدة") text_lower))
         [new_Heir (u "الجد") GRANDFATHER MALE]);
    (FATHER,
     opt (existsb (fun pattern => found T pattern text_lower) Patterns.father_patterns
          && negb (contains (u "أبناء") text_lower)
          && negb (contains (u "لأب") text_lower)
          && negb (found T Patterns.brother_paternal_guard text_lower))
         [new_Heir (u "الأب") FATHER MALE]);
    (MOTHER,
     opt (existsb (fun pattern => found T pattern text_lower) Patterns.mother_patterns
          && negb (contains (u "لأم") text_lower))
         [new_Heir (u "الأم") MOTHER FEMALE]);
    (BROTHER_FULL,
     numbered (detect_brothers T text (u "full")) (u "الأخ الشقيق") BROTHER_FULL MALE);
    (SISTER_FULL,
     numbered (detect_sisters T text (u "full")) (u "الأخت الشقيقة") SISTER_FULL FEMALE);
    (BROTHER_PATERNAL,
     opt (found T Patterns.brother_paternal_search text_lower)
         (numbered_paternal (extract_number_from_text T text_lower (u "أخ لأب"))
                            (u "الأخ لأب") BROTHER_PATERNAL MALE));
    (SISTER_PATERNAL,
     opt (found T Patterns.sister_paternal_search text_lower)
         (numbered_paternal (extract_number_from_text T text_lower (u "أخت لأب"))
                            (u "الأخت لأب") SISTER_PATERNAL FEMALE)) ].

(** The list returned by [detect_heirs] is what its steps append, in the
    order of the steps. *)
Lemma detect_heirs_parts d : fst (detect_heirs T d text) = concat (map snd parts).
Proof.
  unfold detect_heirs. cbv zeta. cbn [fst].
  rewrite !detected_when_append_all', !detected_append_all, detected_when_append',
    detected_when_when', !detected_when_append', !detected_append_all.
  unfold parts. cbn [map snd concat]. rewrite app_nil_r, <- !app_assoc.
  unfold wife_found, husband_found, gender_is. cbn [deceased_gender detected_heirs].
  fold text_lower.
  destruct (str_eqb (detect_deceased_gender T text) MALE);
    rewrite detected_when_append'; cbn [andb negb opt app]; reflexivity.
Qed.

End Parts.

(** ** The records the detector builds *)

Definition of_kind (k : pystr) (h : Heir) : bool := str_eqb (relation h) k.

Lemma numbered_new n label rel gen h :
  In h (numbered n label rel gen) -> exists nm, h = new_Heir nm rel gen.
Proof.
  unfold numbered. destruct (0 <? n)%N; [|intros []].
  destruct (n =? 1)%N.
  - intros [<-|[]]. eexists; reflexivity.
  - intros H. apply in_map_iff in H. destruct H as (i & <- & _). eexists; reflexivity.
Qed.

Lemma numbered_paternal_new n label rel gen h :
  In h (numbered_paternal n label rel gen) -> exists nm, h = new_Heir nm rel gen.
Proof.
  unfold numbered_paternal. destruct (1 <=? n)%N; [|intros []].
  intros H. apply in_map_iff in H. destruct H as (i & <- & _). eexists; reflexivity.
Qed.

(** Every heir of a part is a new record of the part's kind. *)
Definition part_ok (gen : pystr) (kp : pystr * list Heir) : Prop :=
  forall h, In h (snd kp) -> exists nm, h = new_Heir nm (fst kp) gen.

Lemma opt_one_ok b nm k gen : part_ok gen (k, opt b [new_Heir nm k gen]).
Proof.
  intros h H. apply In_opt in H. destruct H as [_ [<-|[]]]. eexists; reflexivity.
Qed.

(** The kinds the detector can emit, each with the gender it records. *)
Definition detector_kinds : list (pystr * pystr) :=
  [ (SPOUSE_WIFE, FEMALE); (SPOUSE_HUSBAND, MALE); (SON, MALE); (DAUGHTER, FEMALE);
    (GRANDDAUGHTER, FEMALE); (GRANDDAUGHTER_DAUGHTER, FEMALE); (GRANDFATHER, MALE);
    (FATHER, MALE); (MOTHER, FEMALE); (BROTHER_FULL, MALE); (SISTER_FULL, FEMALE);
    (BROTHER_PATERNAL, MALE); (SISTER_PATERNAL, FEMALE) ].

Lemma parts_ok T text :
  Forall2 (fun kg kp => fst kp = fst kg /\ part_ok (snd kg) kp)
          detector_kinds (parts T text).
Proof.
  unfold detector_kinds, parts.
  repeat (apply Forall2_cons; [split; [reflexivity|] |]); try apply Forall2_nil;
    try apply opt_one_ok.
  - intros h H. apply (numbered_new _ _ _ _ _ H).
  - intros h H. apply (numbered_new _ _ _ _ _ H).
  - intros h H. apply (numbered_new _ _ _ _ _ H).
  - intros h H. apply (numbered_new _ _ _ _ _ H).
  - intros h H. apply In_opt in H. apply (numbered_paternal_new _ _ _ _ _ (proj2 H)).
  - intros h H. apply In_opt in H. apply (numbered_paternal_new _ _ _ _ _ (proj2 H)).
Qed.

Lemma in_parts (kgs : list (pystr * pystr)) (ps : list (pystr * list Heir)) h :
  Forall2 (fun kg kp => fst kp = fst kg /\ part_ok (snd kg) kp) kgs ps ->
  In h (concat (map snd ps)) ->
  exists kg nm, In kg kgs /\ h = new_Heir nm (fst kg) (snd kg).
Proof.
  induction 1 as [|kg kp kgs ps [Hk Hp] _ IH]; simpl; [intros []|].
  intros H. apply in_app_or in H. destruct H as [H|H].
  - destruct (Hp h H) as (nm & ->). exists kg, nm. rewrite Hk. split; [left|]; reflexivity.
  - destruct (IH H) as (kg' & nm & Hin & ->). exists kg', nm. split; [right; exact Hin|reflexivity].
Qed.

(** A record as the detector builds it: one of the thirteen kinds with
    the gender of that kind, [count] 1, not blocked, share 0, and printed
    by [__str__] as its bare name. *)
Definition as_detected (h : Heir) : Prop :=
  In (relation h, gender h) detector_kinds /\
  count h = 1%Z /\ is_blocked h = false /\ share h = 0 # 1 /\ Heir_str h = name h.

Lemma detected_new T d text h :
  In h (fst (detect_heirs T d text)) ->
  exists kg nm, In kg detector_kinds /\ h = new_Heir nm (fst kg) (snd kg).
Proof.
  rewrite detect_heirs_parts. apply in_parts, parts_ok.
Qed.

Lemma detected_as_detected T d text :
  Forall as_detected (fst (detect_heirs T d text)).
Proof.
  apply Forall_forall. intros h H.
  destruct (detected_new _ _ _ _ H) as ([k g] & nm & Hin & ->).
  unfold as_detected. cbn [relation gender count is_blocked share new_Heir fst snd].
  repeat split; assumption || reflexivity.
Qed.

(** X1.  Whatever the text, [detect_heirs] returns records of thirteen
    kinds only (never a grandmother, a son's son, a maternal brother or
    sister, a nephew, an uncle or a cousin), each with the gender that
    goes with its kind, [count] 1, not blocked and with share 0; their
    [__str__] is the bare name. *)
Theorem detect_heirs_emits_new_records (T : tables) (d : HeirDetector) (text : pystr) :
  Forall as_detected (fst (detect_heirs T d text)).
Proof. apply detected_as_detected. Qed.

(** ** The records of one kind *)

Lemma filter_all (p : Heir -> bool) l : (forall h, In h l -> p h = true) -> filter p l = l.
Proof.
  induction l as [|a l IH]; simpl; intros H; [reflexivity|].
  rewrite (H a (or_introl eq_refl)), IH; [reflexivity|].
  intros h Hh. apply H. right. exact Hh.
Qed.

Lemma filter_none (p : Heir -> bool) l : (forall h, In h l -> p h = false) -> filter p l = [].
Proof.
  induction l as [|a l IH]; simpl; intros H; [reflexivity|].
  rewrite (H a (or_introl eq_refl)), IH; [reflexivity|].
  intros h Hh. apply H. right. exact Hh.
Qed.

Lemma filter_part gen k kp :
  part_ok gen kp -> filter (of_kind k) (snd kp) = if str_eqb (fst kp) k then snd kp else [].
Proof.
  intros Hp. destruct (str_eqb (fst kp) k) eqn:E.
  - apply filter_all. intros h H. destruct (Hp h H) as (nm & ->). exact E.
  - apply filter_none. intros h H. destruct (Hp h H) as (nm & ->). exact E.
Qed.

Lemma filter_parts k (kgs : list (pystr * pystr)) (ps : list (pystr * list Heir)) :
  Forall2 (fun kg kp => fst kp = fst kg /\ part_ok (snd kg) kp) kgs ps ->
  filter (of_kind k) (concat (map snd ps))
  = concat (map snd (filter (fun kp => str_eqb (fst kp) k) ps)).
Proof.
  induction 1 as [|kg kp kgs ps [Hk Hp] _ IH]; [reflexivity|].
  cbn [map concat filter]. rewrite filter_app, IH, (filter_part _ k _ Hp).
  destruct (str_eqb (fst kp) k); reflexivity.
Qed.

(** The records of kind [k] in the detected list are the part of that kind. *)
Lemma detected_of_kind T d text k :
  filter (of_kind k) (fst (detect_heirs T d text))
  = concat (map snd (filter (fun kp => str_eqb (fst kp) k) (parts T text))).
Proof.
  rewrite detect_heirs_parts. apply (filter_parts k detector_kinds), parts_ok.
Qed.

Lemma length_numbered n label rel gen :
  length (numbered n label rel gen) = N.to_nat n.
Proof.
  unfold numbered. destruct (0 <? n)%N eqn:E0.
  - destruct (n =? 1)%N eqn:E1.
    + apply N.eqb_eq in E1. subst n. reflexivity.
    + rewrite length_map, length_seq. reflexivity.
  - apply N.ltb_ge in E0. simpl. lia.
Qed.

(** X2.  The number of son, daughter, full-brother and full-sister records
    in the detected list is the count returned by [detect_sons],
    [detect_daughters], [detect_brothers] and [detect_sisters]: no other
    step of [detect_heirs] appends a record of these kinds. *)
Theorem detected_counts (T : tables) (d : HeirDetector) (text : pystr) :
  let detected := fst (detect_heirs T d text) in
  length (filter (of_kind SON) detected) = N.to_nat (detect_sons T text) /\
  length (filter (of_kind DAUGHTER) detected) = N.to_nat (detect_daughters T text) /\
  length (filter (of_kind BROTHER_FULL) detected)
    = N.to_nat (detect_brothers T text (u "full")) /\
  length (filter (of_kind SISTER_FULL) detected)
    = N.to_nat (detect_sisters T text (u "full")).
Proof.
  cbv zeta. rewrite !detected_of_kind.
  split; [|split; [|split]];
    (etransitivity; [|apply length_numbered]);
    (etransitivity; [|apply f_equal, app_nil_r]); reflexivity.
Qed.

(** ** The spouse *)

Definition is_spouse (h : Heir) : bool := str_in (relation h) [SPOUSE_WIFE; SPOUSE_HUSBAND].

Lemma length_filter_or (p q r : Heir -> bool) l :
  (forall h, r h = p h || q h) ->
  (length (filter r l) <= length (filter p l) + length (filter q l))%nat.
Proof.
  intros E. induction l as [|a l IH]; simpl; [lia|].
  rewrite E. destruct (p a), (q a); simpl; lia.
Qed.

Lemma gender_cases T text :
  detect_deceased_gender T text = MALE \/ detect_deceased_gender T text = FEMALE.
Proof.
  unfold detect_deceased_gender. cbv zeta.
  repeat match goal with |- context [if ?b then _ else _] => destruct b end; auto.
Qed.

Lemma wife_part_eq T d text :
  filter (of_kind SPOUSE_WIFE) (fst (detect_heirs T d text))
  = opt (wife_found T text) [new_Heir (u "الزوجة") SPOUSE_WIFE FEMALE].
Proof. rewrite detected_of_kind. etransitivity; [|apply app_nil_r]. reflexivity. Qed.

Lemma husband_part_eq T d text :
  filter (of_kind SPOUSE_HUSBAND) (fst (detect_heirs T d text))
  = opt (husband_found T text) [new_Heir (u "الزوج") SPOUSE_HUSBAND MALE].
Proof. rewrite detected_of_kind. etransitivity; [|apply app_nil_r]. reflexivity. Qed.

Lemma existsb_filter_nonempty (p : Heir -> bool) l :
  existsb p l = true -> filter p l <> [].
Proof.
  induction l as [|a l IH]; simpl; [discriminate|].
  destruct (p a); [discriminate | exact IH].
Qed.

(** X3.  The detected list holds at most one spouse record.  A wife is
    recorded only for a deceased taken to be a man, a husband only for a
    deceased taken to be a woman and only when the word for wife does not
    occur in the text. *)
Theorem at_most_one_spouse (T : tables) (d : HeirDetector) (text : pystr) :
  let detected := fst (detect_heirs T d text) in
  (length (filter is_spouse detected) <= 1)%nat /\
  (existsb (of_kind SPOUSE_WIFE) detected = true ->
   detect_deceased_gender T text = MALE) /\
  (existsb (of_kind SPOUSE_HUSBAND) detected = true ->
   detect_deceased_gender T text = FEMALE /\
   contains (u "زوجة") (lower T text) = false).
Proof.
  cbv zeta. split; [|split].
  - etransitivity.
    + apply (length_filter_or (of_kind SPOUSE_WIFE) (of_kind SPOUSE_HUSBAND)).
      intros h. unfold is_spouse, str_in, of_kind. simpl. rewrite orb_false_r. reflexivity.
    + rewrite wife_part_eq, husband_part_eq. unfold wife_found, husband_found.
      destruct (str_eqb (detect_deceased_gender T text) MALE); simpl;
        match goal with |- context [opt ?b _] => destruct b end; simpl; lia.
  - intros H. apply existsb_filter_nonempty in H. rewrite wife_part_eq in H.
    unfold wife_found in H.
    destruct (str_eqb (detect_deceased_gender T text) MALE) eqn:E.
    + apply str_eqb_eq. exact E.
    + exfalso. apply H. reflexivity.
  - intros H. apply existsb_filter_nonempty in H. rewrite husband_part_eq in H.
    unfold husband_found in H.
    destruct (str_eqb (detect_deceased_gender T text) MALE) eqn:E.
    + exfalso. apply H. reflexivity.
    + destruct (contains (u "زوجة") (lower T text)).
      * exfalso. apply H. rewrite andb_false_r. reflexivity.
      * split; [|reflexivity].
        destruct (gender_cases T text) as [G|G]; [|exact G].
        rewrite G in E. discriminate E.
Qed.

Lemma at_most_one_spouse_witness :
  detect_deceased_gender basic (u "توفي عن زوجة وابن") = MALE /\
  (detect_deceased_gender basic (u "توفيت عن زوج وأم") = FEMALE /\
   contains (u "زوجة") (lower basic (u "توفيت عن زوج وأم")) = false).
Proof.
  split.
  - apply (proj1 (proj2 (at_most_one_spouse basic new_detector (u "توفي عن زوجة وابن")))).
    vm_compute. reflexivity.
  - apply (proj2 (proj2 (at_most_one_spouse basic new_detector (u "توفيت عن زوج وأم")))).
    vm_compute. reflexivity.
Defined.

(** ** Consanguine brothers and sisters *)

(** X4.  However the text counts them, the detected list holds at most one
    consanguine brother and at most one consanguine sister, under their
    bare names: the count is read from the literal the source passes to
    [extract_number_from_text], which holds no number. *)
Theorem paternal_siblings_at_most_one (T : tables) (d : HeirDetector) (text : pystr) :
  python_like T ->
  let detected := fst (detect_heirs T d text) in
  filter (of_kind BROTHER_PATERNAL) detected
  = (if found T Patterns.brother_paternal_search (lower T text)
     then [new_Heir (u "الأخ لأب") BROTHER_PATERNAL MALE] else []) /\
  filter (of_kind SISTER_PATERNAL) detected
  = (if found T Patterns.sister_paternal_search (lower T text)
     then [new_Heir (u "الأخت لأب") SISTER_PATERNAL FEMALE] else []).
Proof.
  intros HT. cbv zeta. rewrite !detected_of_kind. split.
  - etransitivity; [etransitivity; [|apply app_nil_r]; reflexivity|].
    rewrite (extract_number_ext T HT).
    + destruct (found T Patterns.brother_paternal_search (lower T text)); reflexivity.
    + apply scoped_forallb. vm_compute. reflexivity.
  - etransitivity; [etransitivity; [|apply app_nil_r]; reflexivity|].
    rewrite (extract_number_ext T HT).
    + destruct (found T Patterns.sister_paternal_search (lower T text)); reflexivity.
    + apply scoped_forallb. vm_compute. reflexivity.
Qed.

Lemma paternal_siblings_at_most_one_witness :
  let detected := fst (detect_heirs basic new_detector (u "ترك 3 أخ لأب وأخت لأب")) in
  filter (of_kind BROTHER_PATERNAL) detected
  = [new_Heir (u "الأخ لأب") BROTHER_PATERNAL MALE] /\
  filter (of_kind SISTER_PATERNAL) detected
  = [new_Heir (u "الأخت لأب") SISTER_PATERNAL FEMALE].
Proof.
  cbv zeta.
  destruct (paternal_siblings_at_most_one basic new_detector (u "ترك 3 أخ لأب وأخت لأب")
              python_like_basic) as [E1 E2].
  split; [rewrite E1 | rewrite E2]; vm_compute; reflexivity.
Defined.

(** ** Guards of the mother and of the grandfather *)

Lemma guarded_by T (word : pystr) (k nm gen : pystr) (b : bool) (text : pystr) l :
  lower_keeps_arabic T -> forallb arabic word = true ->
  contains word text = true ->
  l = opt (b && negb (contains word (lower T text))) [new_Heir nm k gen] ->
  l = [].
Proof.
  intros HT Hw Hc ->. rewrite (HT _ _ Hw Hc), andb_false_r. reflexivity.
Qed.

Lemma none_of_kind k l :
  filter (of_kind k) l = [] -> Forall (fun h => relation h <> k) l.
Proof.
  intros H. apply Forall_forall. intros h Hin E.
  assert (Hf : In h (filter (of_kind k) l)).
  { apply filter_In. split; [exact Hin|]. apply str_eqb_eq. exact E. }
  rewrite H in Hf. exact Hf.
Qed.

(** X5.  When the text contains the letters of "li-umm" (as in the phrase
    for a maternal brother or sister), [detect_heirs] records no mother,
    whatever else the text says. *)
Theorem no_mother_beside_li_umm (T : tables) (d : HeirDetector) (text : pystr) :
  lower_keeps_arabic T ->
  contains (u "لأم") text = true ->
  Forall (fun h => relation h <> MOTHER) (fst (detect_heirs T d text)).
Proof.
  intros HT Hc. apply none_of_kind. rewrite detected_of_kind.
  etransitivity; [etransitivity; [|apply app_nil_r]; reflexivity|].
  eapply (guarded_by T (u "لأم") _ _ _ _ text _ HT); [reflexivity | exact Hc | reflexivity].
Qed.

Lemma no_mother_beside_li_umm_witness :
  let text := u "ترك أما وأخا لأم" in
  existsb (fun pattern => found basic pattern (lower basic text)) Patterns.mother_patterns
    = true /\
  Forall (fun h => relation h <> MOTHER) (fst (detect_heirs basic new_detector text)).
Proof.
  split; [vm_compute; reflexivity|].
  apply (no_mother_beside_li_umm basic new_detector _ basic_keeps_arabic).
  vm_compute. reflexivity.
Defined.

(** X6.  When the text contains the word for a grandmother, [detect_heirs]
    records no grandfather, whatever else the text says. *)
Theorem no_grandfather_beside_jadda (T : tables) (d : HeirDetector) (text : pystr) :
  lower_keeps_arabic T ->
  contains (u "جدة") text = true ->
  Forall (fun h => relation h <> GRANDFATHER) (fst (detect_heirs T d text)).
Proof.
  intros HT Hc. apply none_of_kind. rewrite detected_of_kind.
  etransitivity; [etransitivity; [|apply app_nil_r]; reflexivity|].
  eapply (guarded_by T (u "جدة") _ _ _ _ text _ HT); [reflexivity | exact Hc | reflexivity].
Qed.

Lemma no_grandfather_beside_jadda_witness :
  let text := u "ترك جدا وجدة" in
  existsb (fun pattern => found basic pattern (lower basic text))
          Patterns.grandfather_patterns = true /\
  Forall (fun h => relation h <> GRANDFATHER) (fst (detect_heirs basic new_detector text)).
Proof.
  split; [vm_compute; reflexivity|].
  apply (no_grandfather_beside_jadda basic new_detector _ basic_keeps_arabic).
  vm_compute. reflexivity.
Defined.

(** ** Counting *)

(** The numbers read from all matches of all patterns, in the order in
    which [detect_sons] and its three siblings visit them. *)
Definition numbers_found (T : tables) (patterns : list regex) (text : pystr) : list N :=
  flat_map (fun pattern =>
              map (extract_number_from_text T (lower T text))
                  (finditer T pattern (lower T text)))
           patterns.

Lemma fold_max_map (A : Type) (f : A -> N) l : forall acc,
  fold_left (fun max_count x => N.max max_count (f x)) l acc
  = fold_left N.max (map f l) acc.
Proof. induction l as [|a l IH]; simpl; intros acc; [reflexivity | apply IH]. Qed.

Lemma detect_max_flat T patterns text :
  detect_max T patterns text = fold_left N.max (numbers_found T patterns text) 0%N.
Proof.
  unfold detect_max, numbers_found. cbv zeta. generalize 0%N.
  induction patterns as [|p ps IH]; simpl; intros acc; [reflexivity|].
  rewrite IH, fold_left_app. f_equal. apply fold_max_map.
Qed.

Lemma fold_max_spec l : forall acc,
  (acc <= fold_left N.max l acc)%N /\
  Forall (fun n => (n <= fold_left N.max l acc)%N) l /\
  (fold_left N.max l acc = acc \/ In (fold_left N.max l acc) l).
Proof.
  induction l as [|a l IH]; simpl; intros acc.
  - split; [lia|]. split; [constructor | left; reflexivity].
  - destruct (IH (N.max acc a)) as (H1 & H2 & H3). split; [lia|]. split.
    + constructor; [lia | exact H2].
    + destruct H3 as [H3|H3]; [|right; right; exact H3].
      rewrite H3. destruct (N.max_spec acc a) as [[_ E]|[_ E]]; rewrite E; auto.
Qed.

(** X7.  [detect_sons], [detect_daughters], [detect_brothers] and
    [detect_sisters] return the largest number read from any single match,
    not the sum over the matches, and 0 when nothing matches. *)
Theorem detect_max_is_maximum (T : tables) (patterns : list regex) (text : pystr) :
  let found := numbers_found T patterns text in
  Forall (fun n => (n <= detect_max T patterns text)%N) found /\
  (detect_max T patterns text = 0%N \/ In (detect_max T patterns text) found).
Proof.
  cbv zeta. rewrite detect_max_flat.
  destruct (fold_max_spec (numbers_found T patterns text) 0%N) as (_ & H2 & H3).
  split; assumption.
Qed.

Example three_sons_and_two_boys_make_three :
  numbers_found basic Patterns.son (u "ترك ثلاثة أبناء وولدين") = [3; 2; 1]%N /\
  detect_sons basic (u "ترك ثلاثة أبناء وولدين") = 3%N.
Proof. vm_compute. split; reflexivity. Qed.

Lemma numbers_range w n : In (w, n) Patterns.numbers -> (1 <= n <= 10)%N.
Proof.
  unfold Patterns.numbers. simpl.
  intros H. repeat (destruct H as [H|H]; [inversion H; lia|]). destruct H.
Qed.

(** X8.  When the matched text holds no digit, [extract_number_from_text]
    returns a number between 1 and 10: a value of the table of number
    words, 2 for a dual form, and 1 otherwise.  Its first argument is not
    read. *)
Theorem extract_number_without_digits (T : tables) (text text' pattern_match : pystr) :
  search T (Plus Digit) pattern_match = None ->
  (1 <= extract_number_from_text T text pattern_match <= 10)%N /\
  extract_number_from_text T text' pattern_match
  = extract_number_from_text T text pattern_match.
Proof.
  intros H. split; [|reflexivity]. unfold extract_number_from_text. rewrite H.
  destruct (find _ Patterns.numbers) as [[w n]|] eqn:E.
  - apply find_some in E. apply (numbers_range w n), E.
  - destruct (existsb _ _); lia.
Qed.

Lemma extract_number_without_digits_witness :
  extract_number_from_text basic [] (u "ثلاثة أبناء") = 3%N /\
  (1 <= extract_number_from_text basic [] (u "ثلاثة أبناء") <= 10)%N.
Proof.
  split; [vm_compute; reflexivity|].
  apply (extract_number_without_digits basic [] [] (u "ثلاثة أبناء")).
  vm_compute. reflexivity.
Defined.

(** ** The state left by a detection *)

Lemma gender_when (b : bool) body d :
  (forall d, deceased_gender (body d) = deceased_gender d) ->
  deceased_gender (when b body d) = deceased_gender d.
Proof. intros H. destruct b; simpl; [apply H | reflexivity]. Qed.

Lemma snd_detect_heirs T d text :
  snd (detect_heirs T d text)
  = mkDetector (fst (detect_heirs T d text)) (Some (detect_deceased_gender T text)).
Proof.
  assert (G : deceased_gender (snd (detect_heirs T d text))
              = Some (detect_deceased_gender T text)).
  { unfold detect_heirs. cbv zeta. cbn [snd].
    repeat first
      [ rewrite gender_when; [| intros ?; try reflexivity; apply gender_when; reflexivity]
      | progress cbn [deceased_gender append_all append] ].
    match goal with |- context [if ?g then _ else _] => destruct g end;
      rewrite gender_when; reflexivity. }
  destruct (snd (detect_heirs T d text)) as [hs g] eqn:E. simpl in G. subst g.
  f_equal. change hs with (detected_heirs (mkDetector hs (Some (detect_deceased_gender T text)))).
  rewrite <- E. reflexivity.
Qed.

(** X9.  A call of [detect_heirs] starts from an empty list whatever the
    detector held before; afterwards [get_heirs_list] is the list it
    returned and [get_deceased_gender] is the gender it decided, one of
    the two gender strings. *)
Theorem detect_heirs_state (T : tables) (d d' : HeirDetector) (text : pystr) :
  let out := detect_heirs T d text in
  out = detect_heirs T d' text /\
  get_heirs_list (snd out) = fst out /\
  get_deceased_gender (snd out) = Some (detect_deceased_gender T text) /\
  (detect_deceased_gender T text = MALE \/ detect_deceased_gender T text = FEMALE).
Proof.
  cbv zeta. split; [apply detect_heirs_reset|].
  rewrite snd_detect_heirs. repeat split. apply gender_cases.
Qed.

(** ** The names of the detected heirs *)

Lemma uint_str_inj (a b : Decimal.uint) : uint_str a = uint_str b -> a = b.
Proof.
  revert b. induction a; intros b; destruct b; simpl; intros E;
    try discriminate E; try reflexivity;
    injection E as E; f_equal; apply IHa, E.
Qed.

Lemma nat_str_inj (i j : nat) : nat_str i = nat_str j -> i = j.
Proof.
  unfold nat_str, N_str. intros E. apply uint_str_inj in E.
  apply (f_equal N.of_uint) in E. rewrite !DecimalN.Unsigned.of_to in E. lia.
Qed.

Definition ascii_digit (c : N) : bool := ((48 <=? c) && (c <=? 57))%N.

Lemma uint_str_digits (a : Decimal.uint) : forallb ascii_digit (uint_str a) = true.
Proof. induction a; simpl; try reflexivity; exact IHa. Qed.

(** The name without a trailing number: what is left after dropping
    digits and blanks from the end. *)
Fixpoint drop_tail (s : pystr) : pystr :=
  match s with
  | [] => []
  | c :: t => if ascii_digit c || (c =? 32)%N then drop_tail t else s
  end.

Definition stem (nm : pystr) : pystr := rev (drop_tail (rev nm)).

Lemma drop_tail_digits ds s : forallb ascii_digit ds = true -> drop_tail (ds ++ s) = drop_tail s.
Proof.
  induction ds as [|c ds IH]; simpl; intros H; [reflexivity|].
  apply andb_true_iff in H. destruct H as [Hc H]. rewrite Hc. apply IH, H.
Qed.

(** A label that does not end in a digit or a blank. *)
Definition label_ok (label : pystr) : Prop := drop_tail (rev label) = rev label.

Lemma stem_label label : label_ok label -> stem label = label.
Proof. unfold stem, label_ok. intros ->. apply rev_involutive. Qed.

Lemma forallb_rev (p : N -> bool) l : forallb p l = true -> forallb p (rev l) = true.
Proof.
  intros H. apply forallb_forall. intros x Hx. apply in_rev in Hx.
  apply (proj1 (forallb_forall _ _) H x Hx).
Qed.

Lemma stem_numbered label i :
  label_ok label -> stem (label ++ u " " ++ nat_str i) = label.
Proof.
  unfold stem, label_ok. intros L.
  rewrite !rev_app_distr, <- app_assoc.
  rewrite drop_tail_digits by apply forallb_rev, uint_str_digits.
  change (rev (u " ")) with [32%N]. cbn [app drop_tail]. 
  change (ascii_digit 32 || (32 =? 32)%N) with true. cbv iota.
  rewrite L. apply rev_involutive.
Qed.

(** The names of a part: all with the stem of the part's label, and
    pairwise distinct. *)
Definition names_ok (label : pystr) (l : list Heir) : Prop :=
  Forall (fun h => stem (name h) = label) l /\ NoDup (map name l).

Lemma names_opt_one b label k g :
  label_ok label -> names_ok label (opt b [new_Heir label k g]).
Proof.
  intros L. destruct b; split; simpl; repeat constructor.
  - apply stem_label, L.
  - intros [].
Qed.

Lemma names_suffixed label k g n :
  label_ok label ->
  names_ok label (map (fun i => new_Heir (label ++ u " " ++ nat_str (i + 1)) k g) (seq 0 n)).
Proof.
  intros L. split.
  - apply Forall_forall. intros h H. apply in_map_iff in H. destruct H as (i & <- & _).
    apply stem_numbered, L.
  - rewrite map_map. cbn [name new_Heir].
    apply NoDup_map_NoDup_ForallPairs; [|apply seq_NoDup].
    intros i j _ _ E. apply app_inv_head in E. apply app_inv_head in E.
    apply nat_str_inj in E. lia.
Qed.

Lemma names_numbered n label k g : label_ok label -> names_ok label (numbered n label k g).
Proof.
  intros L. unfold numbered. destruct (0 <? n)%N; [|split; constructor].
  destruct (n =? 1)%N; [apply (names_opt_one true), L | apply names_suffixed, L].
Qed.

Lemma names_numbered_paternal b n label k g :
  label_ok label -> names_ok label (opt b (numbered_paternal n label k g)).
Proof.
  intros L. destruct b; [|split; constructor]. unfold opt, numbered_paternal.
  destruct (1 <=? n)%N; [|split; constructor].
  destruct (1 <? n)%N eqn:E; [apply names_suffixed, L|].
  split.
  - apply Forall_forall. intros h H. apply in_map_iff in H. destruct H as (i & <- & _).
    apply stem_label, L.
  - assert (n = 1 \/ n = 0)%N as [->| ->] by (apply N.ltb_ge in E; lia);
      simpl; repeat constructor. intros [].
Qed.

(** The labels of the thirteen parts, in the order of the parts. *)
Definition labels : list pystr :=
  [ u "الزوجة"; u "الزوج"; u "الابن"; u "البنت"; u "بنت الابن"; u "بنت البنت"; u "الجد";
    u "الأب"; u "الأم"; u "الأخ الشقيق"; u "الأخت الشقيقة"; u "الأخ لأب"; u "الأخت لأب" ].

Lemma parts_names T text :
  Forall2 (fun label kp => names_ok label (snd kp)) labels (parts T text).
Proof.
  unfold labels, parts.
  repeat (apply Forall2_cons; [|]); try apply Forall2_nil;
    first [ apply names_opt_one | apply names_numbered | apply names_numbered_paternal ];
    vm_compute; reflexivity.
Qed.

Lemma NoDup_parts (ls : list pystr) (ps : list (pystr * list Heir)) :
  NoDup ls -> Forall2 (fun label kp => names_ok label (snd kp)) ls ps ->
  NoDup (map name (concat (map snd ps))) /\
  Forall (fun h => In (stem (name h)) ls) (concat (map snd ps)).
Proof.
  intros N H. induction H as [|label kp ls ps [Hs Hn] _ IH]; simpl.
  - split; constructor.
  - inversion N as [|? ? Nl N']; subst. destruct (IH N') as [IH1 IH2]. split.
    + rewrite map_app. apply NoDup_app; [exact Hn | exact IH1|].
      intros nm H1 H2. apply in_map_iff in H1. destruct H1 as (h1 & <- & H1).
      apply in_map_iff in H2. destruct H2 as (h2 & E & H2).
      apply Nl. rewrite <- (proj1 (Forall_forall _ _) Hs h1 H1), <- E.
      apply (proj1 (Forall_forall _ _) IH2 h2 H2).
    + apply Forall_app. split.
      * apply (Forall_impl _ (fun h (E : stem (name h) = label) => or_introl (eq_sym E)) Hs).
      * apply (Forall_impl _ (fun h E => or_intror E) IH2).
Qed.

Lemma labels_NoDup : NoDup labels.
Proof.
  unfold labels.
  repeat (constructor; [simpl; intros H; decompose [or] H; discriminate || assumption|]).
  constructor.
Qed.

Lemma detected_names_nodup T d text : NoDup (map name (fst (detect_heirs T d text))).
Proof.
  rewrite detect_heirs_parts.
  apply (NoDup_parts labels (parts T text) labels_NoDup (parts_names T text)).
Qed.

(** X10.  Whatever the text, the heirs [detect_heirs] returns have
    pairwise distinct names: the labels of the thirteen kinds differ, and
    within a kind the records are numbered 1, 2, ... *)
Theorem detected_names_distinct (T : tables) (d : HeirDetector) (text : pystr) :
  NoDup (map name (fst (detect_heirs T d text))).
Proof. apply detected_names_nodup. Qed.

End DetectorProps.

Module CalculatorProps.
Import Calc CalcFacts Inert Claims.

(** ** The exclusion pass *)

(** What the exclusion pass may do to one heir: nothing but set the flag,
    and that only for a grandfather or a full or consanguine sibling. *)
Definition hijab_step (a b : Heir) : Prop :=
  name b = name a /\ relation b = relation a /\ gender b = gender a /\
  count b = count a /\ share b = share a /\
  (is_blocked a = true -> is_blocked b = true) /\
  (is_blocked b = true ->
   is_blocked a = true \/ In (relation a) (GRANDFATHER :: blocked_sibling_kinds)).

Lemma Forall2_map_r (A B : Type) (R : A -> B -> Prop) (f : A -> B) l :
  (forall a, In a l -> R a (f a)) -> Forall2 R l (map f l).
Proof.
  induction l as [|a l IH]; simpl; intros H; constructor.
  - apply H. left. reflexivity.
  - apply IH. intros x Hx. apply H. right. exact Hx.
Qed.

Lemma hijab_cond_kind rels h :
  hijab_rule1 rels h || hijab_rule2 rels h || hijab_rule3 rels h = true ->
  In (relation h) (GRANDFATHER :: blocked_sibling_kinds).
Proof.
  unfold hijab_rule1, hijab_rule2, hijab_rule3. intros H.
  apply orb_true_iff in H. destruct H as [H|H]; [apply orb_true_iff in H; destruct H as [H|H]|];
    apply andb_true_iff in H; destruct H as [_ H].
  - left. symmetry. apply str_eqb_eq. exact H.
  - right. apply str_in_In. exact H.
  - right. apply str_in_In in H. simpl in H. simpl. intuition.
Qed.

Lemma hijab_one_step rels h : hijab_step h (hijab_one rels h).
Proof.
  unfold hijab_step, hijab_one, block_if.
  destruct (hijab_rule1 rels h || hijab_rule2 rels h || hijab_rule3 rels h) eqn:E.
  - cbn [set_blocked name relation gender count share is_blocked].
    repeat split; try reflexivity. intros _. right. apply (hijab_cond_kind rels), E.
  - repeat split; auto.
Qed.

(** X11.  [apply_hijab_rules] keeps the heirs in place and changes nothing
    but the flag [is_blocked]: it never clears the flag, never touches a
    share, and sets the flag only on a grandfather or on a full or
    consanguine brother or sister. *)
Theorem hijab_only_sets_flags (c : HeritageCalculator) :
  Forall2 hijab_step (heirs c) (heirs (apply_hijab_rules c)).
Proof.
  rewrite heirs_apply_hijab_rules. apply Forall2_map_r. intros a _. apply hijab_one_step.
Qed.

Lemma hijab_one_blocked rels h :
  is_blocked (hijab_one rels h)
  = is_blocked h || (hijab_rule1 rels h || hijab_rule2 rels h || hijab_rule3 rels h).
Proof.
  unfold hijab_one, block_if.
  destruct (hijab_rule1 rels h || hijab_rule2 rels h || hijab_rule3 rels h); simpl;
    [rewrite orb_true_r | rewrite orb_false_r]; reflexivity.
Qed.

Lemma str_in_false_not x l : ~ In x l -> str_in x l = false.
Proof. apply str_in_false. Qed.

(** X12.  The first and the third exclusion rule: beside a father who is
    not blocked every grandfather is blocked, and beside a full brother
    who is not blocked every consanguine brother and sister is blocked.
    When no father, son, grandfather or full brother is among the heirs
    who are not blocked, the pass changes no heir. *)
Theorem hijab_rules_one_and_three (c : HeritageCalculator) :
  let rels := live_kinds (heirs c) in
  (In FATHER rels ->
   Forall (fun h => relation h = GRANDFATHER -> is_blocked h = true)
          (heirs (apply_hijab_rules c))) /\
  (In BROTHER_FULL rels ->
   Forall (fun h => In (relation h) [BROTHER_PATERNAL; SISTER_PATERNAL] ->
                    is_blocked h = true)
          (heirs (apply_hijab_rules c))) /\
  (~ In FATHER rels -> ~ In SON rels -> ~ In GRANDFATHER rels -> ~ In BROTHER_FULL rels ->
   heirs (apply_hijab_rules c) = heirs c).
Proof.
  cbv zeta. rewrite heirs_apply_hijab_rules. split; [|split].
  - intros HF. apply Forall_forall. intros h' Hin Hk.
    apply in_map_iff in Hin. destruct Hin as (h & <- & _).
    rewrite hijab_one_blocked. rewrite (proj1 (proj2 (hijab_one_step _ h))) in Hk.
    unfold hijab_rule1. apply str_in_In in HF. rewrite HF.
    apply str_eqb_eq in Hk. rewrite Hk. simpl. apply orb_true_r.
  - intros HB. apply Forall_forall. intros h' Hin Hk.
    apply in_map_iff in Hin. destruct Hin as (h & <- & _).
    rewrite hijab_one_blocked. rewrite (proj1 (proj2 (hijab_one_step _ h))) in Hk.
    unfold hijab_rule3. apply str_in_In in HB. rewrite HB.
    apply str_in_In in Hk. rewrite Hk. simpl. rewrite !orb_true_r. reflexivity.
  - intros H1 H2 H3 H4. etransitivity; [|apply map_id]. apply map_ext. intros h.
    unfold hijab_one, block_if, hijab_rule1, hijab_rule2, hijab_rule3.
    rewrite (str_in_false_not _ _ H1), (str_in_false_not _ _ H2),
      (str_in_false_not _ _ H3), (str_in_false_not _ _ H4). reflexivity.
Qed.

Lemma hijab_rules_one_and_three_witness :
  let c := init [heir_of FATHER; heir_of GRANDFATHER; heir_of BROTHER_FULL;
                 heir_of SISTER_PATERNAL; heir_of MOTHER] in
  Forall (fun h => relation h = GRANDFATHER -> is_blocked h = true)
         (heirs (apply_hijab_rules c)) /\
  Forall (fun h => In (relation h) [BROTHER_PATERNAL; SISTER_PATERNAL] ->
                   is_blocked h = true)
         (heirs (apply_hijab_rules c)) /\
  heirs (apply_hijab_rules (init [heir_of MOTHER; heir_of SISTER_FULL]))
  = [heir_of MOTHER; heir_of SISTER_FULL].
Proof.
  cbv zeta. split; [|split].
  - apply (proj1 (hijab_rules_one_and_three _)). vm_compute. auto.
  - apply (proj1 (proj2 (hijab_rules_one_and_three _))). vm_compute. auto.
  - apply (proj2 (proj2 (hijab_rules_one_and_three
                           (init [heir_of MOTHER; heir_of SISTER_FULL]))));
      vm_compute; intros H; decompose [or] H; discriminate || assumption.
Defined.

Lemma live_after_hijab rels hs k :
  In k (live_kinds (map (hijab_one rels) hs)) -> In k (live_kinds hs).
Proof.
  unfold live_kinds. intros H. apply in_map_iff in H. destruct H as (h' & <- & H).
  apply filter_In in H. destruct H as [H U]. apply in_map_iff in H.
  destruct H as (h & <- & H).
  destruct (hijab_one_step rels h) as (_ & Hr & _ & _ & _ & Hb & _).
  rewrite Hr. apply in_map_iff. exists h. split; [reflexivity|].
  apply filter_In. split; [exact H|]. unfold unblocked in *.
  destruct (is_blocked h); [rewrite (Hb eq_refl) in U; discriminate U | reflexivity].
Qed.

Lemma str_in_mono x l l' :
  (In x l' -> In x l) -> str_in x l' = true -> str_in x l = true.
Proof. intros H H'. apply str_in_In, H, str_in_In, H'. Qed.

Lemma hijab_cond_mono rels rels' h :
  (forall k, In k rels' -> In k rels) ->
  hijab_rule1 rels' h || hijab_rule2 rels' h || hijab_rule3 rels' h = true ->
  hijab_rule1 rels h || hijab_rule2 rels h || hijab_rule3 rels h = true.
Proof.
  intros M. unfold hijab_rule1, hijab_rule2, hijab_rule3. intros H.
  assert (S : forall k, str_in k rels' = true -> str_in k rels = true).
  { intros k. apply str_in_mono, M. }
  apply orb_true_iff in H. destruct H as [H|H];
    [apply orb_true_iff in H; destruct H as [H|H]|];
    apply andb_true_iff in H; destruct H as [H K]; rewrite K, ?andb_true_r.
  - rewrite (S _ H). reflexivity.
  - apply orb_true_iff in H. destruct H as [H|H];
      [apply orb_true_iff in H; destruct H as [H|H]|]; rewrite (S _ H);
      simpl; rewrite ?orb_true_r; reflexivity.
  - rewrite (S _ H). rewrite ?orb_true_r. reflexivity.
Qed.

(** X13.  A second run of the exclusion pass changes no heir: whoever it
    would block is blocked already. *)
Theorem hijab_twice (c : HeritageCalculator) :
  heirs (apply_hijab_rules (apply_hijab_rules c)) = heirs (apply_hijab_rules c).
Proof.
  rewrite (heirs_apply_hijab_rules (apply_hijab_rules c)), heirs_apply_hijab_rules.
  set (rels := live_kinds (heirs c)).
  set (rels' := live_kinds (map (hijab_one rels) (heirs c))).
  rewrite map_map. apply map_ext. intros h.
  unfold hijab_one at 1. unfold block_if.
  destruct (hijab_rule1 rels' (hijab_one rels h) || hijab_rule2 rels' (hijab_one rels h)
            || hijab_rule3 rels' (hijab_one rels h)) eqn:E; [|reflexivity].
  assert (E' : hijab_rule1 rels h || hijab_rule2 rels h || hijab_rule3 rels h = true).
  { apply (hijab_cond_mono rels rels'); [intros k; apply live_after_hijab|].
    revert E. unfold hijab_rule1, hijab_rule2, hijab_rule3.
    rewrite (proj1 (hijab_one_kind rels h)). exact (fun x => x). }
  unfold hijab_one, block_if. rewrite E'. reflexivity.
Qed.

(** ** The test of the two special cases *)

(** The six orders of a spouse, the father and the mother. *)
Definition orders (spouse : pystr) : list (list pystr) :=
  [ [spouse; FATHER; MOTHER]; [spouse; MOTHER; FATHER]; [FATHER; spouse; MOTHER];
    [FATHER; MOTHER; spouse]; [MOTHER; spouse; FATHER]; [MOTHER; FATHER; spouse] ].

Ltac three_of H :=
  apply andb_true_iff in H; destruct H as [H ?];
  apply str_in_In in H; destruct H as [H|[H|[H|[]]]]; subst.

Lemma set_eqb_orders (spouse : pystr) kinds :
  spouse = SPOUSE_WIFE \/ spouse = SPOUSE_HUSBAND ->
  length kinds = 3%nat -> set_eqb kinds [spouse; FATHER; MOTHER] = true ->
  In kinds (orders spouse).
Proof.
  intros Hs Hl H.
  destruct kinds as [|a [|b [|c [|? ?]]]]; try discriminate Hl.
  unfold set_eqb in H. apply andb_true_iff in H. destruct H as [H1 H2].
  cbn [forallb] in H1.
  apply andb_true_iff in H1; destruct H1 as [Ha H1];
  apply andb_true_iff in H1; destruct H1 as [Hb H1];
  apply andb_true_iff in H1; destruct H1 as [Hc _].
  apply str_in_In in Ha, Hb, Hc.
  destruct Hs; subst spouse;
  destruct Ha as [Ha|[Ha|[Ha|[]]]]; destruct Hb as [Hb|[Hb|[Hb|[]]]];
  destruct Hc as [Hc|[Hc|[Hc|[]]]]; subst a b c;
  first [ discriminate H2
        | unfold orders; cbn [In]; repeat (first [left; reflexivity | right]) ].
Qed.

Lemma umar_orders kinds :
  umar_test kinds (length kinds) = true ->
  In kinds (orders SPOUSE_WIFE) \/ In kinds (orders SPOUSE_HUSBAND).
Proof.
  unfold umar_test. destruct (negb (str_in FATHER kinds)); [discriminate|].
  intros H. apply andb_true_iff in H. destruct H as [H Hl].
  apply Nat.eqb_eq in Hl. apply orb_true_iff in H. destruct H as [H|H].
  - left. apply set_eqb_orders; auto.
  - right. apply set_eqb_orders; auto.
Qed.

Lemma orders_perm spouse kinds :
  In kinds (orders spouse) -> Permutation kinds [spouse; FATHER; MOTHER].
Proof.
  unfold orders. cbn [In]. intros H.
  destruct H as [<-|[<-|[<-|[<-|[<-|[<-|[]]]]]]].
  - apply Permutation_refl.
  - apply perm_skip, perm_swap.
  - apply perm_swap.
  - apply Permutation_sym, (Permutation_cons_app [FATHER; MOTHER] [] spouse),
      Permutation_refl.
  - apply (Permutation_cons_app [spouse; FATHER] [] MOTHER), Permutation_refl.
  - apply (Permutation_cons_app [spouse; FATHER] [] MOTHER), perm_swap.
Qed.

Lemma length_live_kinds hs : length (live_kinds hs) = length (filter unblocked hs).
Proof. apply length_map. Qed.

Lemma perm_umar_test spouse kinds :
  spouse = SPOUSE_WIFE \/ spouse = SPOUSE_HUSBAND ->
  Permutation kinds [spouse; FATHER; MOTHER] -> umar_test kinds (length kinds) = true.
Proof.
  intros Hs P. apply (umar_test_true kinds (length kinds) spouse Hs).
  - intros r. split; [apply (Permutation_in r P) | apply (Permutation_in r (Permutation_sym P))].
  - apply (Permutation_length P).
Qed.

(** X14.  [check_umariyyatayn] holds exactly when the heirs who are not
    blocked are three, one spouse, the father and the mother, in any
    order: set equality with a count of three leaves no room for a second
    heir of one of the three kinds. *)
Theorem check_umariyyatayn_iff (c : HeritageCalculator) :
  check_umariyyatayn c = true <->
  Permutation (live_kinds (heirs c)) [SPOUSE_WIFE; FATHER; MOTHER] \/
  Permutation (live_kinds (heirs c)) [SPOUSE_HUSBAND; FATHER; MOTHER].
Proof.
  rewrite check_umariyyatayn_test, <- length_live_kinds. split.
  - intros H. destruct (umar_orders _ H) as [O|O]; [left|right]; apply orders_perm, O.
  - intros [P|P].
    + apply (perm_umar_test SPOUSE_WIFE); [left; reflexivity | exact P].
    + apply (perm_umar_test SPOUSE_HUSBAND); [right; reflexivity | exact P].
Qed.

(** ** From the list given to the calculator to the list it leaves *)

(** The selections of [distribute_asaba] taken together. *)
Definition in_any_group (h : Heir) : bool :=
  asaba_son h || asaba_daughter h || asaba_father h || asaba_grandfather h
  || asaba_brother_full h || asaba_sister_full h
  || asaba_brother_paternal h || asaba_sister_paternal h.

(** What the residue pass may do to one heir: nothing, or assign a share
    to a heir it selected. *)
Definition asaba_step (a b : Heir) : Prop :=
  b = a \/ (in_any_group a = true /\ exists q, b = set_share q a).

Ltac selected H :=
  unfold in_any_group; rewrite H; repeat (rewrite orb_true_r || rewrite orb_true_l);
  reflexivity.

Lemma Forall2_refl_step hs : Forall2 asaba_step hs hs.
Proof. induction hs; constructor; [left; reflexivity | assumption]. Qed.

Lemma two_to_one_step males females unit_share hs :
  (forall h, males h = true -> in_any_group h = true) ->
  (forall h, females h = true -> in_any_group h = true) ->
  Forall2 asaba_step hs (share_two_to_one males females unit_share hs).
Proof.
  intros Hm Hf. unfold share_two_to_one. apply Forall2_map_r. intros a _.
  destruct (males a) eqn:M; [right; split; [apply Hm, M | eexists; reflexivity]|].
  destruct (females a) eqn:F; [right; split; [apply Hf, F | eexists; reflexivity]|].
  left. reflexivity.
Qed.

Lemma update_first_step p q hs :
  (forall h, p h = true -> in_any_group h = true) ->
  Forall2 asaba_step hs (update_first p (set_share q) hs).
Proof.
  intros Hp. induction hs as [|a hs IH]; simpl; [constructor|].
  destruct (p a) eqn:E.
  - constructor; [|apply Forall2_refl_step].
    right. split; [apply Hp, E | eexists; reflexivity].
  - constructor; [left; reflexivity | exact IH].
Qed.

Lemma asaba_frame r hs : Forall2 asaba_step hs (asaba_hs r hs).
Proof.
  unfold asaba_hs, take_hs.
  repeat match goal with
         | |- Forall2 _ _ (if ?b then _ else _) => destruct b
         | |- Forall2 _ _ (match ?o with Some _ => _ | None => _ end) => destruct o
         end;
    first [ apply Forall2_refl_step
          | apply two_to_one_step; intros x Hx; selected Hx
          | apply update_first_step; intros x Hx; selected Hx ].
Qed.

Lemma heirs_init hs : heirs (init hs) = hs.
Proof. reflexivity. Qed.

Lemma final_special hs :
  check_umariyyatayn (after_hijab hs) = true ->
  final hs
  = map (umar_one (str_in SPOUSE_WIFE (live_kinds (heirs (after_hijab hs)))))
        (heirs (after_hijab hs)).
Proof.
  intros H. rewrite final_run_passes, run_passes_eq, heirs_init, H.
  unfold after_fixed. rewrite heirs_calculate_fixed_shares, H. reflexivity.
Qed.

(** The list after the third pass when the special case does not apply. *)
Definition fixed_list (hs : list Heir) : list Heir :=
  map (fixed_one (heirs (after_hijab hs)) (has_children_of (heirs (after_hijab hs))))
      (heirs (after_hijab hs)).

Lemma after_fixed_heirs hs :
  check_umariyyatayn (after_hijab hs) = false ->
  heirs (snd (after_fixed hs)) = fixed_list hs.
Proof.
  intros H. unfold after_fixed. rewrite heirs_calculate_fixed_shares, H. reflexivity.
Qed.

(** The residue, as [calculate] computes it. *)
Definition residue (hs : list Heir) : Fraction := Frac.sub (1 # 1) (fst (after_fixed hs)).

Lemma final_cases hs :
  check_umariyyatayn (after_hijab hs) = false ->
  final hs = if Frac.gtb (residue hs) (0 # 1) then asaba_hs (residue hs) (fixed_list hs)
             else fixed_list hs.
Proof.
  intros H. rewrite final_run_passes, run_passes_eq, heirs_init, H. fold (residue hs).
  destruct (Frac.gtb (residue hs) (0 # 1)) eqn:G.
  - rewrite (heirs_distribute_asaba _ _ G), (after_fixed_heirs _ H). reflexivity.
  - apply after_fixed_heirs, H.
Qed.

Lemma final_nonspecial hs :
  check_umariyyatayn (after_hijab hs) = false ->
  Forall2 asaba_step (fixed_list hs) (final hs).
Proof.
  intros H. rewrite (final_cases _ H).
  destruct (Frac.gtb (residue hs) (0 # 1)); [apply asaba_frame | apply Forall2_refl_step].
Qed.

Lemma Forall2_In_r (A B : Type) (R : A -> B -> Prop) l l' b :
  Forall2 R l l' -> In b l' -> exists a, In a l /\ R a b.
Proof.
  induction 1 as [|x y l l' Hxy _ IH]; simpl; [intros []|].
  intros [<-|H].
  - exists x. split; [left; reflexivity | exact Hxy].
  - destruct (IH H) as (a & Ha & Hr). exists a. split; [right; exact Ha | exact Hr].
Qed.

Lemma hijab_one_other rels h :
  str_in (relation h) (GRANDFATHER :: blocked_sibling_kinds) = false ->
  hijab_one rels h = h.
Proof.
  intros H. unfold hijab_one, block_if.
  destruct (hijab_rule1 rels h || hijab_rule2 rels h || hijab_rule3 rels h) eqn:E;
    [|reflexivity].
  apply hijab_cond_kind, str_in_In in E. rewrite E in H. discriminate H.
Qed.

(** Where a heir of the final list comes from. *)
Lemma final_origin hs h' :
  check_umariyyatayn (after_hijab hs) = false -> In h' (final hs) ->
  exists a, In a hs /\
    asaba_step (fixed_one (heirs (after_hijab hs)) (has_children_of (heirs (after_hijab hs)))
                          (hijab_one (live_kinds hs) a)) h'.
Proof.
  intros H Hin.
  destruct (Forall2_In_r _ _ _ _ _ _ (final_nonspecial _ H) Hin) as (a3 & Ha3 & St).
  unfold fixed_list in Ha3. apply in_map_iff in Ha3. destruct Ha3 as (a2 & <- & Ha2).
  rewrite heirs_after_hijab in Ha2. apply in_map_iff in Ha2. destruct Ha2 as (a & <- & Ha).
  exists a. split; [exact Ha | exact St].
Qed.

Lemma special_origin hs h' :
  check_umariyyatayn (after_hijab hs) = true -> In h' (final hs) ->
  exists a, In a hs /\
    h' = umar_one (str_in SPOUSE_WIFE (live_kinds (heirs (after_hijab hs))))
                  (hijab_one (live_kinds hs) a).
Proof.
  intros H Hin. rewrite (final_special _ H) in Hin.
  apply in_map_iff in Hin. destruct Hin as (a2 & <- & Ha2).
  rewrite heirs_after_hijab in Ha2. apply in_map_iff in Ha2. destruct Ha2 as (a & <- & Ha).
  exists a. split; [exact Ha | reflexivity].
Qed.

Lemma step_relation a b : asaba_step a b -> relation b = relation a.
Proof. intros [->|(_ & q & ->)]; reflexivity. Qed.

Lemma step_outside a b : asaba_step a b -> in_any_group a = false -> b = a.
Proof. intros [->|(G & _)] N; [reflexivity | rewrite G in N; discriminate N]. Qed.

Definition group_kinds : list pystr :=
  [SON; DAUGHTER; FATHER; GRANDFATHER; BROTHER_FULL; SISTER_FULL;
   BROTHER_PATERNAL; SISTER_PATERNAL].

Lemma not_group_kind h :
  str_in (relation h) group_kinds = false -> in_any_group h = false.
Proof.
  unfold str_in, group_kinds. cbn [existsb]. intros H.
  repeat (apply orb_false_iff in H; destruct H as [? H]).
  unfold in_any_group, asaba_son, asaba_daughter, asaba_father, asaba_grandfather,
    asaba_brother_full, asaba_sister_full, asaba_brother_paternal, asaba_sister_paternal.
  repeat match goal with E : str_eqb (relation h) _ = false |- _ => rewrite E; clear E end.
  reflexivity.
Qed.

(** A heir of a kind that no rule of exclusion names stays as given. *)
Lemma fresh_in hs a : fresh hs -> In a hs -> is_blocked a = false /\ share a = 0 # 1.
Proof. intros F. apply (proj1 (Forall_forall _ _) F). Qed.

Lemma live_fresh hs a :
  fresh hs -> In a hs ->
  str_in (relation a) (GRANDFATHER :: blocked_sibling_kinds) = false ->
  In (relation a) (live_kinds (heirs (after_hijab hs))).
Proof.
  intros F Ha K. rewrite heirs_after_hijab. unfold live_kinds.
  apply in_map_iff. exists a. split; [reflexivity|]. apply filter_In. split.
  - apply in_map_iff. exists a. split; [apply hijab_one_other, K | exact Ha].
  - unfold unblocked. rewrite (proj1 (fresh_in _ _ F Ha)). reflexivity.
Qed.

Lemma special_kinds hs k :
  check_umariyyatayn (after_hijab hs) = true ->
  In k (live_kinds (heirs (after_hijab hs))) ->
  In k [SPOUSE_WIFE; SPOUSE_HUSBAND; FATHER; MOTHER].
Proof.
  intros H Hk. rewrite check_umariyyatayn_test, <- length_live_kinds in H.
  destruct (umar_orders _ H) as [O|O]; apply orders_perm in O;
    apply (Permutation_in k O) in Hk; simpl in *; intuition.
Qed.

Lemma existsb_map_ext (f : Heir -> Heir) (p q : Heir -> bool) l :
  (forall a, In a l -> p (f a) = q a) -> existsb p (map f l) = existsb q l.
Proof.
  induction l as [|a l IH]; simpl; intros H; [reflexivity|].
  rewrite (H a (or_introl eq_refl)), IH; [reflexivity|].
  intros x Hx. apply H. right. exact Hx.
Qed.

Lemma length_filter_map_ext (f : Heir -> Heir) (p q : Heir -> bool) l :
  (forall a, In a l -> p (f a) = q a) ->
  length (filter p (map f l)) = length (filter q l).
Proof.
  induction l as [|a l IH]; simpl; intros H; [reflexivity|].
  rewrite (H a (or_introl eq_refl)).
  assert (E : length (filter p (map f l)) = length (filter q l)).
  { apply IH. intros x Hx. apply H. right. exact Hx. }
  destruct (q a); simpl; rewrite E; reflexivity.
Qed.

(** The kinds no rule of exclusion names. *)
Definition never_blocked (k : pystr) : Prop :=
  str_in k (GRANDFATHER :: blocked_sibling_kinds) = false.

Lemma hijab_fresh_kind rels a k :
  never_blocked k -> is_blocked a = false ->
  str_eqb (relation (hijab_one rels a)) k && negb (is_blocked (hijab_one rels a))
  = str_eqb (relation a) k.
Proof.
  intros K B. rewrite (proj1 (hijab_one_kind rels a)).
  destruct (str_eqb (relation a) k) eqn:E; [|reflexivity].
  apply str_eqb_eq in E. rewrite hijab_one_other, B; [reflexivity|]. rewrite E. exact K.
Qed.

Lemma has_children_fresh hs :
  fresh hs ->
  has_children_of (heirs (after_hijab hs))
  = existsb (fun h => str_in (relation h) [SON; DAUGHTER]) hs.
Proof.
  intros F. unfold has_children_of. rewrite existsb_filter, heirs_after_hijab.
  apply existsb_map_ext. intros a Ha. destruct (fresh_in _ _ F Ha) as [B _].
  unfold str_in. cbn [existsb]. rewrite !orb_false_r, andb_comm, andb_orb_distrib_l.
  unfold unblocked.
  rewrite (hijab_fresh_kind _ a SON eq_refl B), (hijab_fresh_kind _ a DAUGHTER eq_refl B).
  reflexivity.
Qed.

Lemma count_kind_fresh k hs :
  never_blocked k -> fresh hs ->
  length (filter (fun h => str_eqb (relation h) k && negb (is_blocked h))
                 (heirs (after_hijab hs)))
  = length (filter (fun h => str_eqb (relation h) k) hs).
Proof.
  intros K F. rewrite heirs_after_hijab. apply length_filter_map_ext.
  intros a Ha. apply (hijab_fresh_kind _ a k K), (fresh_in _ _ F Ha).
Qed.

(** ** The shares of the spouse and of the mother *)

Lemma fixed_one_wife all hc a :
  is_blocked a = false -> relation a = SPOUSE_WIFE ->
  fixed_one all hc a = set_share (if hc then 1 # 8 else 1 # 4) a.
Proof.
  intros B R. unfold fixed_one, fixed_share_step. rewrite B, R.
  destruct hc; reflexivity.
Qed.

Lemma fixed_one_husband all hc a :
  is_blocked a = false -> relation a = SPOUSE_HUSBAND ->
  fixed_one all hc a = set_share (if hc then 1 # 4 else 1 # 2) a.
Proof.
  intros B R. unfold fixed_one, fixed_share_step. rewrite B, R.
  destruct hc; reflexivity.
Qed.

Lemma fixed_one_mother all hc a :
  is_blocked a = false -> relation a = MOTHER ->
  fixed_one all hc a
  = set_share (if hc || (2 <=? length (filter (fun h => counted_as_sibling h
                                                       && negb (is_blocked h)) all))%nat
               then 1 # 6 else 1 # 3) a.
Proof.
  intros B R. unfold fixed_one, fixed_share_step. rewrite B, R.
  change (str_eqb MOTHER SPOUSE_WIFE) with false.
  change (str_eqb MOTHER SPOUSE_HUSBAND) with false.
  change (str_eqb MOTHER DAUGHTER) with false.
  change (str_eqb MOTHER FATHER) with false.
  change (str_eqb MOTHER GRANDFATHER) with false.
  change (str_eqb MOTHER MOTHER) with true.
  cbv iota. unfold counted_as_sibling.
  match goal with |- context [if ?b then _ else _] => destruct b end; reflexivity.
Qed.

Lemma outside_groups (k : pystr) a b :
  asaba_step a b -> str_in k group_kinds = false -> relation a = k -> b = a.
Proof.
  intros St K R. apply (step_outside _ _ St), not_group_kind. rewrite R. exact K.
Qed.

(** X15.  For a list of heirs as first given (none blocked, all shares 0),
    every wife ends with 1/8 when a son or a daughter is among the heirs
    and 1/4 otherwise, and every husband with 1/4 or 1/2: the special
    case assigns the same values, and no later pass touches a spouse. *)
Theorem spouse_share_table (hs : list Heir) :
  fresh hs ->
  let children := existsb (fun h => str_in (relation h) [SON; DAUGHTER]) hs in
  Forall (fun h =>
            (relation h = SPOUSE_WIFE -> share h = if children then 1 # 8 else 1 # 4) /\
            (relation h = SPOUSE_HUSBAND -> share h = if children then 1 # 4 else 1 # 2))
         (final hs).
Proof.
  intros F. cbv zeta. apply Forall_forall. intros h' Hin.
  destruct (check_umariyyatayn (after_hijab hs)) eqn:Chk.
  - destruct (special_origin _ _ Chk Hin) as (a & Ha & ->).
    destruct (fresh_in _ _ F Ha) as [B S0].
    assert (NC : existsb (fun h => str_in (relation h) [SON; DAUGHTER]) hs = false).
    { rewrite <- (has_children_fresh _ F). unfold has_children_of.
      destruct (existsb _ _) eqn:E; [|reflexivity]. exfalso.
      apply existsb_exists in E. destruct E as (x & Hx & Hk).
      assert (Hl : In (relation x) (live_kinds (heirs (after_hijab hs)))).
      { apply in_map_iff. exists x. split; [reflexivity | exact Hx]. }
      apply (special_kinds _ _ Chk) in Hl. apply str_in_In in Hk.
      simpl in Hl, Hk. destruct Hk as [Hk|[Hk|[]]]; rewrite <- Hk in Hl;
        decompose [or] Hl; try discriminate; assumption. }
    rewrite NC. rewrite (proj1 (umar_one_kind _ _)), (proj1 (hijab_one_kind _ _)).
    split; intros R.
    + rewrite hijab_one_other by (rewrite R; reflexivity).
      assert (W : str_in SPOUSE_WIFE (live_kinds (heirs (after_hijab hs))) = true).
      { apply str_in_In. rewrite <- R. apply (live_fresh _ _ F Ha). rewrite R. reflexivity. }
      rewrite W. unfold umar_one. rewrite R. reflexivity.
    + rewrite hijab_one_other by (rewrite R; reflexivity).
      assert (W : str_in SPOUSE_WIFE (live_kinds (heirs (after_hijab hs))) = false).
      { assert (Hh : In SPOUSE_HUSBAND (live_kinds (heirs (after_hijab hs)))).
        { rewrite <- R. apply (live_fresh _ _ F Ha). rewrite R. reflexivity. }
        rewrite check_umariyyatayn_test, <- length_live_kinds in Chk.
        destruct (umar_orders _ Chk) as [O|O]; apply orders_perm in O.
        - apply (Permutation_in _ O) in Hh. simpl in Hh.
          decompose [or] Hh; try discriminate; contradiction.
        - apply str_in_false. intros Hw. apply (Permutation_in _ O) in Hw. simpl in Hw.
          decompose [or] Hw; try discriminate; contradiction. }
      rewrite W. unfold umar_one. rewrite R. reflexivity.
  - destruct (final_origin _ _ Chk Hin) as (a & Ha & St).
    destruct (fresh_in _ _ F Ha) as [B S0].
    rewrite (has_children_fresh _ F) in St.
    rewrite (step_relation _ _ St), (proj1 (fixed_one_kind _ _ _)),
      (proj1 (hijab_one_kind _ _)).
    split; intros R.
    + rewrite hijab_one_other in St by (rewrite R; reflexivity).
      rewrite (fixed_one_wife _ _ _ B R) in St.
      rewrite (outside_groups SPOUSE_WIFE _ _ St eq_refl R). reflexivity.
    + rewrite hijab_one_other in St by (rewrite R; reflexivity).
      rewrite (fixed_one_husband _ _ _ B R) in St.
      rewrite (outside_groups SPOUSE_HUSBAND _ _ St eq_refl R). reflexivity.
Qed.

Lemma spouse_share_table_witness :
  let hs := [heir_of SPOUSE_WIFE; heir_of SPOUSE_WIFE; heir_of SON] in
  Forall (fun h =>
            (relation h = SPOUSE_WIFE -> share h = 1 # 8) /\
            (relation h = SPOUSE_HUSBAND -> share h = 1 # 4))
         (final hs).
Proof.
  cbv zeta.
  apply (spouse_share_table [heir_of SPOUSE_WIFE; heir_of SPOUSE_WIFE; heir_of SON]).
  repeat constructor.
Defined.

(** X16.  Outside the special case, every mother of a list as first
    given ends with 1/6 when a son or a daughter is among the heirs or
    when, after the exclusion pass, at least two heirs who are not blocked
    have a kind whose name contains the word for brother, and with 1/3
    otherwise; brothers and sisters the pass has blocked are not counted. *)
Theorem mother_share (hs : list Heir) :
  fresh hs ->
  check_umariyyatayn (after_hijab hs) = false ->
  let children := existsb (fun h => str_in (relation h) [SON; DAUGHTER]) hs in
  let siblings :=
    filter (fun h => counted_as_sibling h && negb (is_blocked h)) (heirs (after_hijab hs)) in
  Forall (fun h => relation h = MOTHER ->
                   share h = if children || (2 <=? length siblings)%nat
                             then 1 # 6 else 1 # 3)
         (final hs).
Proof.
  intros F Chk. cbv zeta. apply Forall_forall. intros h' Hin R.
  destruct (final_origin _ _ Chk Hin) as (a & Ha & St).
  destruct (fresh_in _ _ F Ha) as [B S0].
  rewrite (has_children_fresh _ F) in St.
  rewrite (step_relation _ _ St), (proj1 (fixed_one_kind _ _ _)),
    (proj1 (hijab_one_kind _ _)) in R.
  rewrite hijab_one_other in St by (rewrite R; reflexivity).
  rewrite (fixed_one_mother _ _ _ B R) in St.
  rewrite (outside_groups MOTHER _ _ St eq_refl R). reflexivity.
Qed.

Lemma mother_share_witness :
  Forall (fun h => relation h = MOTHER -> share h = 1 # 3)
         (final [heir_of FATHER; heir_of MOTHER; heir_of BROTHER_FULL; heir_of SISTER_FULL])
  /\
  Forall (fun h => relation h = MOTHER -> share h = 1 # 6)
         (final [heir_of MOTHER; heir_of BROTHER_FULL; heir_of SISTER_FULL]).
Proof.
  split.
  - apply (mother_share [heir_of FATHER; heir_of MOTHER; heir_of BROTHER_FULL;
                         heir_of SISTER_FULL]).
    + repeat constructor.
    + vm_compute. reflexivity.
  - apply (mother_share [heir_of MOTHER; heir_of BROTHER_FULL; heir_of SISTER_FULL]).
    + repeat constructor.
    + vm_compute. reflexivity.
Defined.

(** ** Daughters and sons *)

Lemma fixed_one_daughter all hc a :
  is_blocked a = false -> relation a = DAUGHTER ->
  fixed_one all hc a
  = if (length (filter (fun h => str_eqb (relation h) SON && negb (is_blocked h)) all)
        =? 0)%nat
    then set_share
           (if (length (filter (fun h => str_eqb (relation h) DAUGHTER
                                         && negb (is_blocked h)) all) =? 1)%nat
            then 1 # 2
            else Frac.div (Frac.mk 2 3)
                   (Frac.of_nat (length (filter (fun h => str_eqb (relation h) DAUGHTER
                                                          && negb (is_blocked h)) all))))
           a
    else a.
Proof.
  intros B R. unfold fixed_one, fixed_share_step. rewrite B, R.
  change (str_eqb DAUGHTER SPOUSE_WIFE) with false.
  change (str_eqb DAUGHTER SPOUSE_HUSBAND) with false.
  change (str_eqb DAUGHTER DAUGHTER) with true.
  cbv iota.
  destruct (length (filter (fun h => str_eqb (relation h) SON && negb (is_blocked h)) all)
            =? 0)%nat; [|reflexivity].
  destruct (length (filter (fun h => str_eqb (relation h) DAUGHTER
                                     && negb (is_blocked h)) all) =? 1)%nat; reflexivity.
Qed.

Lemma fixed_one_son all hc a : relation a = SON -> fixed_one all hc a = a.
Proof.
  intros R. unfold fixed_one, fixed_share_step. rewrite R.
  destruct (is_blocked a); reflexivity.
Qed.

Lemma daughters_share_positive (n : nat) :
  (0 < n)%nat -> Frac.eqb (Frac.div (Frac.mk 2 3) (Frac.of_nat n)) (0 # 1) = false.
Proof.
  intros Hn. unfold Frac.eqb. destruct (Qeq_bool _ _) eqn:E; [|reflexivity].
  apply Qeq_bool_iff in E. unfold Frac.div, Frac.mk, Frac.of_nat in E.
  rewrite !Qred_correct in E. exfalso.
  assert (P : 0 < inject_Z (Z.of_nat n)).
  { change 0 with (inject_Z 0). rewrite <- Zlt_Qlt. lia. }
  assert (L : 0 < (2 # 3) / inject_Z (Z.of_nat n)).
  { apply Qlt_shift_div_l; [exact P|]. rewrite Qmult_0_l. reflexivity. }
  rewrite E in L. apply (Qlt_irrefl _ L).
Qed.

Lemma existsb_false_filter (p : Heir -> bool) l : existsb p l = false -> filter p l = [].
Proof.
  induction l as [|a l IH]; simpl; [reflexivity|].
  destruct (p a); [discriminate | exact IH].
Qed.

Lemma special_has_no (k : pystr) hs a :
  fresh hs -> In a hs -> relation a = k -> never_blocked k ->
  ~ In k [SPOUSE_WIFE; SPOUSE_HUSBAND; FATHER; MOTHER] ->
  check_umariyyatayn (after_hijab hs) = false.
Proof.
  intros F Ha R K N. destruct (check_umariyyatayn (after_hijab hs)) eqn:Chk; [|reflexivity].
  exfalso. apply N. apply (special_kinds hs k Chk). rewrite <- R.
  apply (live_fresh _ _ F Ha). rewrite R. exact K.
Qed.

Ltac other_kind := simpl; intros H; decompose [or] H; try discriminate; assumption.

(** X17.  Daughters without a son among the heirs keep their prescribed
    share to the end: one half for an only daughter, two thirds divided
    by their number otherwise; the residue pass gives them nothing more. *)
Theorem daughters_without_sons (hs : list Heir) :
  fresh hs ->
  existsb (fun h => str_eqb (relation h) SON) hs = false ->
  let n := length (filter (fun h => str_eqb (relation h) DAUGHTER) hs) in
  Forall (fun h => relation h = DAUGHTER ->
                   share h = if (n =? 1)%nat then 1 # 2
                             else Frac.div (Frac.mk 2 3) (Frac.of_nat n))
         (final hs).
Proof.
  intros F NS. cbv zeta. apply Forall_forall. intros h' Hin R.
  assert (Chk : check_umariyyatayn (after_hijab hs) = false).
  { destruct (check_umariyyatayn (after_hijab hs)) eqn:Chk; [|reflexivity].
    destruct (special_origin _ _ Chk Hin) as (a & Ha & E). rewrite E in R.
    rewrite (proj1 (umar_one_kind _ _)), (proj1 (hijab_one_kind _ _)) in R.
    rewrite <- Chk. apply (special_has_no DAUGHTER hs a F Ha R eq_refl). other_kind. }
  destruct (final_origin _ _ Chk Hin) as (a & Ha & St).
  destruct (fresh_in _ _ F Ha) as [B S0].
  rewrite (step_relation _ _ St), (proj1 (fixed_one_kind _ _ _)),
    (proj1 (hijab_one_kind _ _)) in R.
  rewrite hijab_one_other in St by (rewrite R; reflexivity).
  rewrite (fixed_one_daughter _ _ _ B R) in St.
  rewrite (count_kind_fresh SON hs eq_refl F),
    (count_kind_fresh DAUGHTER hs eq_refl F) in St.
  rewrite (existsb_false_filter _ _ NS) in St. cbn [length Nat.eqb] in St.
  set (n := length (filter (fun h => str_eqb (relation h) DAUGHTER) hs)) in *.
  assert (Hn : (0 < n)%nat).
  { assert (Hf : In a (filter (fun h => str_eqb (relation h) DAUGHTER) hs)).
    { apply filter_In. split; [exact Ha | apply str_eqb_eq, R]. }
    unfold n. destruct (filter _ hs); [destruct Hf | simpl; lia]. }
  rewrite (step_outside _ _ St); [reflexivity|].
  unfold in_any_group, asaba_son, asaba_daughter, asaba_father, asaba_grandfather,
    asaba_brother_full, asaba_sister_full, asaba_brother_paternal, asaba_sister_paternal.
  cbn [relation set_share is_blocked share]. rewrite R, B.
  assert (Z : Frac.eqb (if (n =? 1)%nat then 1 # 2
                        else Frac.div (Frac.mk 2 3) (Frac.of_nat n)) (0 # 1) = false).
  { destruct (n =? 1)%nat; [reflexivity | apply daughters_share_positive, Hn]. }
  rewrite Z. reflexivity.
Qed.

Lemma daughters_without_sons_witness :
  Forall (fun h => relation h = DAUGHTER -> share h = 1 # 3)
         (final [heir_of DAUGHTER; heir_of FATHER; heir_of DAUGHTER]).
Proof.
  apply (daughters_without_sons [heir_of DAUGHTER; heir_of FATHER; heir_of DAUGHTER]).
  - repeat constructor.
  - vm_compute. reflexivity.
Defined.

Lemma fixed_list_in hs x :
  In x (fixed_list hs) ->
  exists a, In a hs /\
    x = fixed_one (heirs (after_hijab hs)) (has_children_of (heirs (after_hijab hs)))
                  (hijab_one (live_kinds hs) a).
Proof.
  unfold fixed_list. intros H. apply in_map_iff in H. destruct H as (a2 & <- & Ha2).
  rewrite heirs_after_hijab in Ha2. apply in_map_iff in Ha2. destruct Ha2 as (a & <- & Ha).
  exists a. split; [exact Ha | reflexivity].
Qed.

(** Beside a son, a son and a daughter leave the third pass as given. *)
Lemma child_beside_son hs x :
  fresh hs -> existsb (fun h => str_eqb (relation h) SON) hs = true ->
  In x (fixed_list hs) -> relation x = SON \/ relation x = DAUGHTER ->
  is_blocked x = false /\ share x = 0 # 1.
Proof.
  intros F HS Hx R. destruct (fixed_list_in _ _ Hx) as (a & Ha & E).
  destruct (fresh_in _ _ F Ha) as [B S0].
  assert (Ra : relation a = relation x).
  { rewrite E, (proj1 (fixed_one_kind _ _ _)), (proj1 (hijab_one_kind _ _)). reflexivity. }
  rewrite <- Ra in R. destruct R as [R|R].
  - rewrite hijab_one_other in E by (rewrite R; reflexivity).
    rewrite (fixed_one_son _ _ _ R) in E. subst x. split; assumption.
  - rewrite hijab_one_other in E by (rewrite R; reflexivity).
    rewrite (fixed_one_daughter _ _ _ B R) in E.
    rewrite (count_kind_fresh SON hs eq_refl F) in E.
    apply DetectorProps.existsb_filter_nonempty in HS.
    destruct (filter (fun h => str_eqb (relation h) SON) hs); [contradiction|].
    cbn [length Nat.eqb] in E. subst x. split; assumption.
Qed.

(** X18.  In the result for a list as first given, every son has twice
    the share of every daughter. *)
Theorem son_twice_daughter (hs : list Heir) (s d : Heir) :
  fresh hs ->
  In s (final hs) -> In d (final hs) ->
  relation s = SON -> relation d = DAUGHTER ->
  share s == 2 * share d.
Proof.
  intros F Hs Hd Rs Rd.
  assert (Chk : check_umariyyatayn (after_hijab hs) = false).
  { destruct (check_umariyyatayn (after_hijab hs)) eqn:Chk; [|reflexivity].
    destruct (special_origin _ _ Chk Hs) as (a & Ha & E). rewrite E in Rs.
    rewrite (proj1 (umar_one_kind _ _)), (proj1 (hijab_one_kind _ _)) in Rs.
    rewrite <- Chk. apply (special_has_no SON hs a F Ha Rs eq_refl). other_kind. }
  assert (HS : existsb (fun h => str_eqb (relation h) SON) hs = true).
  { destruct (final_origin _ _ Chk Hs) as (a & Ha & St).
    rewrite (step_relation _ _ St), (proj1 (fixed_one_kind _ _ _)),
      (proj1 (hijab_one_kind _ _)) in Rs.
    apply existsb_exists. exists a. split; [exact Ha | apply str_eqb_eq, Rs]. }
  rewrite (final_cases _ Chk) in Hs, Hd.
  destruct (Frac.gtb (residue hs) (0 # 1)).
  - assert (N : nonempty (filter asaba_son (fixed_list hs)) = true).
    { rewrite nonempty_filter. apply existsb_exists.
      destruct (Forall2_In_r _ _ _ _ _ _ (asaba_frame (residue hs) (fixed_list hs)) Hs)
        as (x & Hx & St).
      exists x. split; [exact Hx|].
      rewrite (step_relation _ _ St) in Rs.
      destruct (child_beside_son _ _ F HS Hx (or_introl Rs)) as [B _].
      unfold asaba_son. rewrite Rs, B. reflexivity. }
    unfold asaba_hs in Hs, Hd. rewrite N in Hs, Hd. cbn [orb] in Hs, Hd.
    unfold share_two_to_one in Hs, Hd.
    apply in_map_iff in Hs. destruct Hs as (x & <- & Hx).
    apply in_map_iff in Hd. destruct Hd as (y & <- & Hy).
    assert (Rx : relation x = SON).
    { destruct (asaba_son x); [exact Rs|]. destruct (asaba_daughter x); exact Rs. }
    assert (Ry : relation y = DAUGHTER).
    { destruct (asaba_son y); [exact Rd|]. destruct (asaba_daughter y); exact Rd. }
    destruct (child_beside_son _ _ F HS Hx (or_introl Rx)) as [Bx _].
    destruct (child_beside_son _ _ F HS Hy (or_intror Ry)) as [By Sy].
    unfold asaba_son, asaba_daughter. rewrite Rx, Ry, Bx, By, Sy.
    change (str_eqb SON SON) with true. change (str_eqb DAUGHTER SON) with false.
    change (str_eqb DAUGHTER DAUGHTER) with true.
    change (Frac.eqb (0 # 1) (0 # 1)) with true.
    cbn [negb andb share set_share]. unfold Frac.mul. rewrite Qred_correct. ring.
  - destruct (child_beside_son _ _ F HS Hs (or_introl Rs)) as [_ ->].
    destruct (child_beside_son _ _ F HS Hd (or_intror Rd)) as [_ ->]. reflexivity.
Qed.

Lemma son_twice_daughter_witness :
  let hs := [heir_of MOTHER; heir_of DAUGHTER; heir_of SON] in
  map share (final hs) = [1 # 6; 5 # 18; 5 # 9] /\ 5 # 9 == 2 * (5 # 18).
Proof.
  cbv zeta. split; [vm_compute; reflexivity|].
  apply (son_twice_daughter [heir_of MOTHER; heir_of DAUGHTER; heir_of SON]
           (set_share (5 # 9) (heir_of SON)) (set_share (5 # 18) (heir_of DAUGHTER))).
  - repeat constructor.
  - vm_compute. auto.
  - vm_compute. auto.
  - reflexivity.
  - reflexivity.
Defined.

(** ** The total that [get_total_distributed] reports *)

Lemma fold_add_sum (l : list Q) : forall acc : Q,
  fold_left Frac.add l acc == acc + fold_right Qplus 0 l.
Proof.
  induction l as [|a l IH]; simpl; intros acc; [ring|].
  rewrite IH. unfold Frac.add. rewrite Qred_correct. ring.
Qed.

Lemma total_is_sum c :
  get_total_distributed c == sum_shares (filter unblocked (heirs c)).
Proof.
  unfold get_total_distributed, sum_shares. rewrite fold_add_sum. ring.
Qed.

Lemma sum_live hs :
  Forall blocked_zero hs -> sum_shares (filter unblocked hs) == sum_shares hs.
Proof.
  unfold sum_shares. induction 1 as [|a hs Ha _ IH]; simpl; [reflexivity|].
  unfold unblocked at 1. destruct (is_blocked a) eqn:B; simpl.
  - rewrite IH, (Ha B). ring.
  - rewrite IH. reflexivity.
Qed.

Lemma heirs_calculate c : heirs (snd (calculate c)) = heirs (run_passes c).
Proof. reflexivity. Qed.

(** The total reported after [calculate] is the sum of all shares. *)
Lemma total_final hs :
  fresh hs -> get_total_distributed (snd (calculate (init hs))) == sum_shares (final hs).
Proof.
  intros F. rewrite total_is_sum. change (heirs (snd (calculate (init hs)))) with (final hs).
  apply sum_live. rewrite final_run_passes. apply run_passes_blocked_zero, F.
Qed.

Lemma validate_iff c : validate_distribution c = true <-> get_total_distributed c == 1.
Proof. unfold validate_distribution, Frac.eqb. apply Qeq_bool_iff. Qed.

(** One turn of the loop of the third pass adds to the running total
    what it assigns. *)
Lemma fixed_step_total all hc h (t : Q) lg :
  share h = 0 # 1 ->
  fst (snd (fixed_share_step all hc h (t, lg))) == t + share (fixed_one all hc h).
Proof.
  intros S0. unfold fixed_one, fixed_share_step.
  repeat match goal with
         | |- context [if ?b then _ else _] => destruct b
         end;
    cbn [fst snd share set_share]; rewrite ?S0; unfold Frac.add; rewrite ?Qred_correct;
    try ring.
Qed.

Lemma for_each_snd_cons (S : Type) (body : Heir -> S -> Heir * S) h l s :
  snd (for_each body (h :: l) s) = snd (for_each body l (snd (body h s))).
Proof.
  cbn [for_each]. destruct (body h s) as [h' s1]. cbn [snd].
  destruct (for_each body l s1). reflexivity.
Qed.

Lemma fixed_loop_sum all hc l : forall (t : Q) lg,
  Forall (fun h => share h = 0 # 1) l ->
  fst (snd (for_each (fixed_share_step all hc) l (t, lg)))
  == t + sum_shares (map (fixed_one all hc) l).
Proof.
  unfold sum_shares.
  induction l as [|h l IH]; intros t lg Hl; [simpl; ring|].
  inversion Hl as [|? ? Hh Hl']; subst. rewrite for_each_snd_cons.
  assert (E1 := fixed_step_total all hc h t lg Hh).
  destruct (snd (fixed_share_step all hc h (t, lg))) as [t1 l1].
  rewrite (IH t1 l1 Hl'). cbn [fst] in E1. rewrite E1. cbn [map fold_right]. ring.
Qed.

Lemma fixed_total_sum hs :
  fresh hs -> check_umariyyatayn (after_hijab hs) = false ->
  sum_shares (fixed_list hs) == fst (after_fixed hs).
Proof.
  intros F Chk. unfold after_fixed. rewrite (fst_calculate_fixed_shares _ Chk).
  unfold fixed_total, fixed_list. rewrite fixed_loop_sum.
  - change (Frac.mk 0 1) with (0 # 1). ring.
  - rewrite heirs_after_hijab. apply Forall_forall. intros h H.
    apply in_map_iff in H. destruct H as (a & <- & Ha).
    rewrite hijab_one_share. apply (fresh_in _ _ F Ha).
Qed.

Lemma in_any_group_member h :
  in_any_group h = true -> exists g, in_group g h = true.
Proof.
  unfold in_any_group. intros H.
  repeat (apply orb_true_iff in H; destruct H as [H|H]).
  - exists G_children. simpl. rewrite H. reflexivity.
  - exists G_children. simpl. rewrite H. apply orb_true_r.
  - exists G_father. exact H.
  - exists G_grandfather. exact H.
  - exists G_full. simpl. rewrite H. reflexivity.
  - exists G_full. simpl. rewrite H. apply orb_true_r.
  - exists G_paternal. simpl. rewrite H. reflexivity.
  - exists G_paternal. simpl. rewrite H. apply orb_true_r.
Qed.

(** X19.  When the residue is positive and the residue pass selects some
    heir, the shares of a list as first given add up to the whole estate:
    [get_total_distributed] is 1 and [validate_distribution] holds. *)
Theorem total_is_one_with_residuary (hs : list Heir) :
  fresh hs ->
  check_umariyyatayn (after_hijab hs) = false ->
  Frac.gtb (residue hs) (0 # 1) = true ->
  existsb in_any_group (heirs (snd (after_fixed hs))) = true ->
  let c := snd (calculate (init hs)) in
  get_total_distributed c == 1 /\ validate_distribution c = true.
Proof.
  intros F Chk G M. cbv zeta.
  assert (T : get_total_distributed (snd (calculate (init hs))) == 1).
  { rewrite (total_final _ F), (final_cases _ Chk), G.
    rewrite (after_fixed_heirs _ Chk) in M.
    assert (Hg : exists g, has_member g (fixed_list hs) = true).
    { apply existsb_exists in M. destruct M as (x & Hx & Gx).
      destruct (in_any_group_member _ Gx) as (g & Hg). exists g.
      apply existsb_exists. exists x. split; assumption. }
    destruct (asaba_hs_case (residue hs) _ Hg) as (g & Hc).
    rewrite (asaba_case_gain _ _ _ _ (eq_rect _ (Forall before_asaba)
               (after_fixed_before hs F
                  (eq_trans (check_after_fixed (after_hijab hs)) Chk))
               _ (after_fixed_heirs _ Chk)) Hc).
    rewrite (fixed_total_sum _ F Chk). unfold residue, Frac.sub. rewrite Qred_correct.
    ring. }
  split; [exact T | apply validate_iff, T].
Qed.

Lemma total_is_one_with_residuary_witness :
  let c := snd (calculate (init [heir_of SPOUSE_HUSBAND; heir_of MOTHER;
                                 heir_of BROTHER_FULL; heir_of SISTER_FULL])) in
  get_total_distributed c == 1 /\ validate_distribution c = true.
Proof.
  apply (total_is_one_with_residuary
           [heir_of SPOUSE_HUSBAND; heir_of MOTHER; heir_of BROTHER_FULL; heir_of SISTER_FULL]).
  - repeat constructor.
  - vm_compute. reflexivity.
  - vm_compute. reflexivity.
  - vm_compute. reflexivity.
Defined.

Lemma existsb_or_false (p q : Heir -> bool) l :
  existsb (fun h => p h || q h) l = false -> existsb p l = false /\ existsb q l = false.
Proof. rewrite existsb_orb. apply orb_false_iff. Qed.

Lemma existsb_find_none (p : Heir -> bool) l : existsb p l = false -> find p l = None.
Proof.
  induction l as [|a l IH]; simpl; [reflexivity|].
  destruct (p a); [discriminate | exact IH].
Qed.

(** Without a heir to select, the residue pass changes nothing. *)
Lemma asaba_without_member r hs : existsb in_any_group hs = false -> asaba_hs r hs = hs.
Proof.
  unfold in_any_group. intros H.
  repeat (apply existsb_or_false in H; destruct H as [H ?]).
  unfold asaba_hs. rewrite !nonempty_filter.
  repeat match goal with E : existsb _ hs = false |- _ =>
           first [ rewrite (existsb_find_none _ _ E) | idtac ]; rewrite ?E; clear E
         end.
  reflexivity.
Qed.

(** X20.  The calculator neither returns a remainder to the heirs nor
    scales shares down: when the prescribed shares leave nothing, or the
    residue pass finds no heir to select, the heirs keep what the third
    pass gave them, [get_total_distributed] is the sum of the prescribed
    shares, and [validate_distribution] holds exactly when that sum is 1. *)
Theorem no_redistribution (hs : list Heir) :
  fresh hs ->
  check_umariyyatayn (after_hijab hs) = false ->
  Frac.gtb (residue hs) (0 # 1) = false
  \/ existsb in_any_group (heirs (snd (after_fixed hs))) = false ->
  let c := snd (calculate (init hs)) in
  heirs c = heirs (snd (after_fixed hs)) /\
  get_total_distributed c == fst (after_fixed hs) /\
  validate_distribution c = Frac.eqb (fst (after_fixed hs)) (1 # 1).
Proof.
  intros F Chk H. cbv zeta.
  assert (E : final hs = fixed_list hs).
  { rewrite (final_cases _ Chk). destruct H as [H|H]; [rewrite H; reflexivity|].
    rewrite (after_fixed_heirs _ Chk) in H. rewrite (asaba_without_member _ _ H).
    destruct (Frac.gtb _ _); reflexivity. }
  assert (T : get_total_distributed (snd (calculate (init hs))) == fst (after_fixed hs)).
  { rewrite (total_final _ F), E. apply (fixed_total_sum _ F Chk). }
  split; [|split].
  - rewrite (after_fixed_heirs _ Chk). exact E.
  - exact T.
  - unfold validate_distribution, Frac.eqb.
    change (Frac.mk 1 1) with (1 # 1).
    destruct (Qeq_bool (fst (after_fixed hs)) (1 # 1)) eqn:Q.
    + apply Qeq_bool_iff. rewrite T. apply Qeq_bool_iff, Q.
    + destruct (Qeq_bool (get_total_distributed _) (1 # 1)) eqn:Q'; [|reflexivity].
      apply Qeq_bool_iff in Q'. rewrite T in Q'. apply Qeq_bool_iff in Q'.
      rewrite Q' in Q. discriminate Q.
Qed.

Lemma no_redistribution_witness :
  (let c := snd (calculate (init [heir_of SPOUSE_HUSBAND; heir_of DAUGHTER; heir_of DAUGHTER;
                                  heir_of FATHER; heir_of MOTHER])) in
   get_total_distributed c == 5 # 4 /\ validate_distribution c = false) /\
  (let c := snd (calculate (init [heir_of MOTHER; heir_of DAUGHTER])) in
   get_total_distributed c == 2 # 3 /\ validate_distribution c = false).
Proof.
  split; cbv zeta.
  - destruct (no_redistribution
                [heir_of SPOUSE_HUSBAND; heir_of DAUGHTER; heir_of DAUGHTER;
                 heir_of FATHER; heir_of MOTHER]) as (_ & T & V).
    + repeat constructor.
    + vm_compute. reflexivity.
    + left. vm_compute. reflexivity.
    + split; [rewrite T | rewrite V]; vm_compute; reflexivity.
  - destruct (no_redistribution [heir_of MOTHER; heir_of DAUGHTER]) as (_ & T & V).
    + repeat constructor.
    + vm_compute. reflexivity.
    + right. vm_compute. reflexivity.
    + split; [rewrite T | rewrite V]; vm_compute; reflexivity.
Defined.

(** In the special case the three heirs who are not blocked are a spouse,
    the father and the mother in one of six orders. *)
Lemma special_live hs :
  check_umariyyatayn (after_hijab hs) = true ->
  exists x y z : Heir,
    filter unblocked (heirs (after_hijab hs)) = [x; y; z] /\
    (In [relation x; relation y; relation z] (orders SPOUSE_WIFE) \/
     In [relation x; relation y; relation z] (orders SPOUSE_HUSBAND)).
Proof.
  intros Chk. rewrite check_umariyyatayn_test, <- length_live_kinds in Chk.
  apply umar_orders in Chk. unfold live_kinds in Chk.
  destruct (filter unblocked (heirs (after_hijab hs))) as [|x [|y [|z [|w l]]]];
    try (exfalso; simpl in Chk; decompose [or] Chk; discriminate || assumption).
  exists x, y, z. split; [reflexivity | exact Chk].
Qed.

(** X21.  In the special case the shares of the three heirs add up to the
    whole estate: [get_total_distributed] is exactly 1 and
    [validate_distribution] holds. *)
Theorem total_is_one_in_special_case (hs : list Heir) :
  check_umariyyatayn (after_hijab hs) = true ->
  let c := snd (calculate (init hs)) in
  get_total_distributed c = 1 # 1 /\ validate_distribution c = true.
Proof.
  intros Chk. cbv zeta.
  assert (T : get_total_distributed (snd (calculate (init hs))) = 1 # 1).
  { unfold get_total_distributed.
    change (heirs (snd (calculate (init hs)))) with (final hs).
    rewrite (final_special _ Chk), (filter_map_flag _ _ (umar_one_flag _)).
    unfold live_kinds. destruct (special_live _ Chk) as (x & y & z & -> & O).
    cbn [map]. unfold orders in O. cbn [In] in O. unfold umar_one.
    destruct O as [O|O]; decompose [or] O; clear O;
      match goal with
      | E : _ = [relation x; relation y; relation z] |- _ =>
          injection E as Ex Ey Ez; rewrite <- Ex, <- Ey, <- Ez
      | F : False |- _ => destruct F
      end; reflexivity. }
  split; [exact T|]. unfold validate_distribution. rewrite T. reflexivity.
Qed.

Lemma total_is_one_in_special_case_witness :
  let c := snd (calculate (init [heir_of MOTHER; heir_of SPOUSE_HUSBAND; heir_of FATHER;
                                 heir_of GRANDFATHER])) in
  get_total_distributed c = 1 # 1 /\ validate_distribution c = true.
Proof.
  apply (total_is_one_in_special_case
           [heir_of MOTHER; heir_of SPOUSE_HUSBAND; heir_of FATHER; heir_of GRANDFATHER]).
  vm_compute. reflexivity.
Defined.

(** ** The trace *)

(** [c'] has the steps of [c] and its trace, possibly with more lines. *)
Definition grows (c c' : HeritageCalculator) : Prop :=
  steps c' = steps c /\ exists l, reasoning c' = reasoning c ++ l.

Lemma grows_refl c : grows c c.
Proof. split; [reflexivity | exists []; symmetry; apply app_nil_r]. Qed.

Lemma grows_trans c1 c2 c3 : grows c1 c2 -> grows c2 c3 -> grows c1 c3.
Proof.
  intros [S1 (l1 & R1)] [S2 (l2 & R2)]. split; [congruence|].
  exists (l1 ++ l2). rewrite R2, R1, app_assoc. reflexivity.
Qed.

Lemma grows_say c line : grows c (say c line).
Proof. split; [reflexivity | eexists; reflexivity]. Qed.

Lemma grows_say_all c lines : grows c (say_all c lines).
Proof. split; [reflexivity | eexists; reflexivity]. Qed.

Lemma grows_with_heirs c hs : grows c (with_heirs c hs).
Proof. split; [reflexivity | exists []; symmetry; apply app_nil_r]. Qed.

Lemma block_log (cond : Heir -> bool) (line : Heir -> pystr) hs : forall log : list pystr,
  exists l, snd (for_each (fun heir log =>
                             if cond heir then (set_blocked heir, log ++ [line heir])
                             else (heir, log)) hs log) = log ++ l.
Proof.
  induction hs as [|h hs IH]; intros log.
  - exists []. symmetry. apply app_nil_r.
  - rewrite for_each_snd_cons. destruct (cond h); cbn [snd].
    + destruct (IH (log ++ [line h])) as (l & ->). exists ([line h] ++ l).
      rewrite app_assoc. reflexivity.
    + apply IH.
Qed.

Lemma grows_block_where cond line c : grows c (block_where cond line c).
Proof.
  unfold block_where.
  destruct (block_log cond line (heirs c) (reasoning c)) as (l & E).
  destruct (for_each _ (heirs c) (reasoning c)) as [hs log]. cbn [snd] in E. subst log.
  split; [reflexivity | exists l; reflexivity].
Qed.

Ltac grow :=
  repeat
    match goal with
    | |- grows ?c ?c => apply grows_refl
    | |- grows _ (if ?b then _ else _) => destruct b
    | |- grows _ (match ?o with Some _ => _ | None => _ end) => destruct o
    | |- grows ?c (say ?c' _) => apply (grows_trans c c'); [| apply grows_say]
    | |- grows ?c (say_all ?c' _) => apply (grows_trans c c'); [| apply grows_say_all]
    | |- grows ?c (with_heirs ?c' _) => apply (grows_trans c c'); [| apply grows_with_heirs]
    | |- grows ?c (update_heirs _ ?c') => apply (grows_trans c c'); [| apply grows_with_heirs]
    | |- grows ?c (block_where _ _ ?c') =>
        apply (grows_trans c c'); [| apply grows_block_where]
    end.

Lemma grows_apply_hijab_rules c :
  grows (say c (u "🔒 **فحص حالات الحجب:**")) (apply_hijab_rules c).
Proof. unfold apply_hijab_rules. cbv zeta. grow. Qed.

Lemma grows_solve_umariyyatayn c : grows c (snd (solve_umariyyatayn c)).
Proof. unfold solve_umariyyatayn. cbv zeta. cbn [snd]. grow. Qed.

Lemma fixed_step_log all hc h (t : Fraction) log :
  exists l, snd (snd (fixed_share_step all hc h (t, log))) = log ++ l.
Proof.
  unfold fixed_share_step.
  repeat match goal with
         | |- context [if ?b then _ else _] => destruct b
         end;
    cbn [fst snd]; first [ eexists; reflexivity | exists []; symmetry; apply app_nil_r ].
Qed.

Lemma fixed_loop_log all hc hs : forall (t : Fraction) log,
  exists l, snd (snd (for_each (fixed_share_step all hc) hs (t, log))) = log ++ l.
Proof.
  induction hs as [|h hs IH]; intros t log.
  - exists []. symmetry. apply app_nil_r.
  - rewrite for_each_snd_cons.
    destruct (fixed_step_log all hc h t log) as (l1 & E1).
    destruct (snd (fixed_share_step all hc h (t, log))) as [t1 log1]. cbn [snd] in E1.
    subst log1. destruct (IH t1 (log ++ l1)) as (l2 & ->). exists (l1 ++ l2).
    rewrite app_assoc. reflexivity.
Qed.

Lemma grows_calculate_fixed_shares c : grows c (snd (calculate_fixed_shares c)).
Proof.
  unfold calculate_fixed_shares. destruct (check_umariyyatayn c).
  - apply grows_solve_umariyyatayn.
  - cbv zeta.
    match goal with
    | |- context [for_each (fixed_share_step ?all ?hc) ?hs (?t, ?log)] =>
        destruct (fixed_loop_log all hc hs t log) as (l & E);
        destruct (for_each (fixed_share_step all hc) hs (t, log)) as [hs' [t' log']] eqn:F;
        assert (E' : log' = log ++ l) by exact E
    end.
    cbn [snd]. split; [reflexivity|]. cbn [reasoning say] in *. rewrite E'.
    eexists. rewrite <- !app_assoc. reflexivity.
Qed.

Lemma grows_take_remainder p who r a b cc d c :
  grows c (take_remainder p who r a b cc d c).
Proof. unfold take_remainder. cbv zeta. grow. Qed.

Lemma grows_distribute_asaba r c : grows c (distribute_asaba r c).
Proof.
  unfold distribute_asaba. cbv zeta.
  repeat first
    [ match goal with
      | |- grows ?c (take_remainder _ _ _ _ _ _ _ ?c') =>
          apply (grows_trans c c'); [| apply grows_take_remainder]
      | |- grows _ (match (match ?o with Some _ => _ | None => _ end) with _ => _ end) =>
          destruct o
      end
    | progress grow ].
Qed.

(** X22.  Every run of [calculate] starts a new trace: the steps it
    returns are the empty list, its reasoning opens with the start line
    and the heading of the exclusion pass and closes with the heading of
    the results, and nothing of what the calculator held before the call,
    apart from the heirs, reaches the result. *)
Theorem calculate_trace (c : HeritageCalculator) :
  let res := fst (calculate c) in
  res_steps res = [] /\
  (exists middle,
     res_reasoning res
     = [START; u "🔒 **فحص حالات الحجب:**"] ++ middle ++ [NL ++ u "✅ **النتائج النهائية:**"]) /\
  res = fst (calculate (init (heirs c))).
Proof.
  cbv zeta. unfold calculate. cbv zeta. cbn [fst res_steps res_reasoning steps say reasoning].
  assert (G : grows (say (mkCalc (heirs c) [] [START]) (u "🔒 **فحص حالات الحجب:**"))
                    (run_passes c)).
  { assert (A : grows (say (mkCalc (heirs c) [] [START]) (u "🔒 **فحص حالات الحجب:**"))
                      (snd (after_fixed (heirs c)))).
    { apply (grows_trans _ (after_hijab (heirs c))).
      - apply grows_apply_hijab_rules.
      - apply grows_calculate_fixed_shares. }
    rewrite run_passes_eq.
    destruct (check_umariyyatayn (after_hijab (heirs c))); [exact A|].
    destruct (Frac.gtb _ _); [|exact A].
    apply (grows_trans _ _ _ A), grows_distribute_asaba. }
  destruct G as [S (l & R)]. split; [exact S|]. split; [|reflexivity].
  exists l. rewrite R. cbn [reasoning say]. rewrite <- !app_assoc. reflexivity.
Qed.

(** X23.  The test [check_umariyyatayn] gives the same answer after the
    pass of the prescribed shares as before it, so [calculate] skips the
    residue pass exactly when [calculate_fixed_shares] solved the special
    case. *)
Theorem special_case_test_is_stable (c : HeritageCalculator) :
  check_umariyyatayn (snd (calculate_fixed_shares c)) = check_umariyyatayn c.
Proof. apply check_after_fixed. Qed.

(** ** The result dictionary and [get_heir_share] *)

Lemma Forall2_names l l' :
  Forall2 (fun a b : Heir => name b = name a) l l' -> map name l' = map name l.
Proof. induction 1 as [|a b l l' E _ IH]; simpl; [reflexivity | rewrite E, IH; reflexivity]. Qed.

Lemma step_name a b : asaba_step a b -> name b = name a.
Proof. intros [->|(_ & q & ->)]; reflexivity. Qed.

Lemma names_map (f : Heir -> Heir) l : same_kind f -> map name (map f l) = map name l.
Proof.
  intros K. rewrite map_map. apply map_ext. intros h. apply (proj2 (K h)).
Qed.

Lemma names_asaba r hs : map name (asaba_hs r hs) = map name hs.
Proof.
  apply Forall2_names. apply (Forall2_impl _ step_name), asaba_frame.
Qed.

(** No pass renames a heir. *)
Lemma names_run_passes c : map name (heirs (run_passes c)) = map name (heirs c).
Proof.
  assert (A : map name (heirs (after_hijab (heirs c))) = map name (heirs c)).
  { rewrite heirs_after_hijab. apply names_map, hijab_one_kind. }
  assert (B : map name (heirs (snd (after_fixed (heirs c)))) = map name (heirs c)).
  { unfold after_fixed. rewrite heirs_calculate_fixed_shares.
    destruct (check_umariyyatayn _); (rewrite names_map; [exact A|]);
      [apply umar_one_kind | apply fixed_one_kind]. }
  rewrite run_passes_eq.
  destruct (check_umariyyatayn _); [exact B|].
  destruct (Frac.gtb _ _) eqn:G; [|exact B].
  rewrite (heirs_distribute_asaba _ _ G), names_asaba. exact B.
Qed.

Lemma dict_set_new (V : Type) k (v : V) d :
  ~ In k (map fst d) -> dict_set k v d = d ++ [(k, v)].
Proof.
  induction d as [|[k' v'] d IH]; simpl; intros N; [reflexivity|].
  destruct (str_eqb k k') eqn:E.
  - exfalso. apply N. left. symmetry. apply str_eqb_eq, E.
  - rewrite IH; [reflexivity|]. intros H. apply N. right. exact H.
Qed.

Lemma results_fold l : forall acc : list (pystr * HeirResult),
  NoDup (map fst acc ++ map name l) ->
  fold_left (fun results heir => dict_set (name heir) (result_of heir) results) l acc
  = acc ++ map (fun h => (name h, result_of h)) l.
Proof.
  induction l as [|h l IH]; intros acc N; simpl; [rewrite app_nil_r; reflexivity|].
  simpl in N. rewrite dict_set_new.
  - rewrite IH.
    + rewrite <- app_assoc. reflexivity.
    + rewrite map_app, <- app_assoc. exact N.
  - apply NoDup_remove_2 in N. intros H. apply N, in_or_app. left. exact H.
Qed.

Lemma results_ordered c :
  NoDup (map name (heirs c)) ->
  res_results (fst (calculate c))
  = map (fun h => (name h, result_of h)) (heirs (snd (calculate c))).
Proof.
  intros N. unfold calculate. cbv zeta. cbn [fst snd res_results].
  rewrite heirs_say. apply (results_fold _ []). cbn [map app].
  rewrite names_run_passes. exact N.
Qed.

(** X24.  When the names of the heirs are pairwise distinct, the result
    dictionary of [calculate] has one entry per heir, in the order of the
    list, keyed by the name: the blocked sentinel for a blocked heir and
    the share record otherwise. *)
Theorem results_in_order (c : HeritageCalculator) :
  NoDup (map name (heirs c)) ->
  res_results (fst (calculate c))
  = map (fun h => (name h, result_of h)) (heirs (snd (calculate c))).
Proof. apply results_ordered. Qed.

Lemma results_in_order_witness :
  let c := init [new_Heir (u "الأب") FATHER MALE; new_Heir (u "الجد") GRANDFATHER MALE] in
  res_results (fst (calculate c))
  = [ (u "الأب", Share (u "1") (100 # 1) FATHER); (u "الجد", Blocked) ].
Proof.
  cbv zeta. rewrite results_in_order.
  - vm_compute. reflexivity.
  - vm_compute. repeat constructor; simpl; intros H; decompose [or] H;
      discriminate || assumption.
Defined.

(** Two heirs of one name share one entry, which holds the later heir. *)
Example same_name_one_entry :
  let c := init [new_Heir (u "وارث") SON MALE; new_Heir (u "وارث") DAUGHTER FEMALE] in
  res_results (fst (calculate c)) = [ (u "وارث", Share (u "1/3") (100 # 3) DAUGHTER) ] /\
  get_heir_share (snd (calculate c)) (u "وارث") = 2 # 3.
Proof. vm_compute. split; reflexivity. Qed.

Lemma find_name_none l n :
  ~ In n (map name l) -> find (fun heir => str_eqb (name heir) n) l = None.
Proof.
  induction l as [|a l IH]; simpl; intros N; [reflexivity|].
  destruct (str_eqb (name a) n) eqn:E.
  - exfalso. apply N. left. apply str_eqb_eq, E.
  - apply IH. intros H. apply N. right. exact H.
Qed.

Lemma find_name_some l h :
  NoDup (map name l) -> In h l ->
  find (fun heir => str_eqb (name heir) (name h)) l = Some h.
Proof.
  induction l as [|a l IH]; simpl; intros N; [intros []|]. intros [E|H].
  - subst a. rewrite str_eqb_refl. reflexivity.
  - inversion N as [|? ? Na N']; subst.
    destruct (str_eqb (name a) (name h)) eqn:E.
    + exfalso. apply Na. apply str_eqb_eq in E. rewrite E. apply in_map, H.
    + apply IH; assumption.
Qed.

(** X25.  [get_heir_share] returns 0 for a name no heir has and, when the
    names are pairwise distinct, the share of the heir of that name. *)
Theorem get_heir_share_spec (c : HeritageCalculator) :
  (forall n, ~ In n (map name (heirs c)) -> get_heir_share c n = 0 # 1) /\
  (NoDup (map name (heirs c)) ->
   forall h, In h (heirs c) -> get_heir_share c (name h) = share h).
Proof.
  unfold get_heir_share. split.
  - intros n N. rewrite (find_name_none _ _ N). reflexivity.
  - intros N h H. rewrite (find_name_some _ _ N H). reflexivity.
Qed.

Lemma get_heir_share_spec_witness :
  let c := snd (calculate (init [new_Heir (u "الأم") MOTHER FEMALE;
                                 new_Heir (u "الابن") SON MALE])) in
  get_heir_share c (u "البنت") = 0 # 1 /\
  get_heir_share c (u "الابن") = 5 # 6.
Proof.
  cbv zeta. split.
  - apply (proj1 (get_heir_share_spec _)). vm_compute.
    intros H; decompose [or] H; discriminate || assumption.
  - refine (proj2 (get_heir_share_spec
                     (snd (calculate (init [new_Heir (u "الأم") MOTHER FEMALE;
                                            new_Heir (u "الابن") SON MALE]))))
              _ (set_share (5 # 6) (new_Heir (u "الابن") SON MALE)) _).
    + vm_compute. repeat constructor; simpl; intros H; decompose [or] H;
        discriminate || assumption.
    + vm_compute. auto.
Defined.

End CalculatorProps.

Module SystemProps.
Import Calc CalcFacts Inert Unicode Detector DetectFacts System Claims.
Import DetectorProps CalculatorProps.

(** ** The presentation helper *)

(** X26.  The helper [fraction_to_arabic] of the application differs from
    the string that [calculate] stores, [str] of the fraction, exactly
    when the denominator is 1: it then appends "/1". *)
Theorem fraction_to_arabic_vs_str (frac : Fraction) :
  App.fraction_to_arabic frac
  = if (Qden frac =? 1)%positive then Frac.str frac ++ u "/1" else Frac.str frac.
Proof.
  unfold App.fraction_to_arabic, Frac.str.
  destruct (Qden frac =? 1)%positive; reflexivity.
Qed.

(** ** From the text to the result *)

Definition tags (hs : list Heir) : list (pystr * pystr) :=
  map (fun h => (name h, relation h)) hs.

Lemma tags_map (f : Heir -> Heir) l : same_kind f -> tags (map f l) = tags l.
Proof.
  intros K. unfold tags. rewrite map_map. apply map_ext. intros h.
  destruct (K h) as [-> ->]. reflexivity.
Qed.

Lemma tags_asaba r hs : tags (asaba_hs r hs) = tags hs.
Proof.
  unfold tags. generalize (asaba_frame r hs).
  induction 1 as [|a b l l' St _ IH]; simpl; [reflexivity|].
  rewrite IH, (step_name _ _ St), (step_relation _ _ St). reflexivity.
Qed.

(** No pass changes the name or the kind of a heir. *)
Lemma tags_run_passes c : tags (heirs (run_passes c)) = tags (heirs c).
Proof.
  assert (A : tags (heirs (after_hijab (heirs c))) = tags (heirs c)).
  { rewrite heirs_after_hijab. apply tags_map, hijab_one_kind. }
  assert (B : tags (heirs (snd (after_fixed (heirs c)))) = tags (heirs c)).
  { unfold after_fixed. rewrite heirs_calculate_fixed_shares.
    destruct (check_umariyyatayn _); (rewrite tags_map; [exact A|]);
      [apply umar_one_kind | apply fixed_one_kind]. }
  rewrite run_passes_eq.
  destruct (check_umariyyatayn _); [exact B|].
  destruct (Frac.gtb _ _) eqn:G; [|exact B].
  rewrite (heirs_distribute_asaba _ _ G), tags_asaba. exact B.
Qed.

Lemma summary_lines l l' : tags l = tags l' -> forall acc,
  fold_left (fun summary heir =>
               summary ++ u "  • " ++ name heir ++ u " (" ++ relation heir ++ u ")" ++ NL)
            l acc
  = fold_left (fun summary heir =>
                 summary ++ u "  • " ++ name heir ++ u " (" ++ relation heir ++ u ")" ++ NL)
              l' acc.
Proof.
  revert l'. induction l as [|a l IH]; intros [|b l'] E acc; try discriminate E;
    [reflexivity|].
  simpl in E. injection E as En Er E. simpl. rewrite En, Er. apply IH, E.
Qed.

(** The summary reads the gender of the deceased and, of each heir, the
    name and the kind only. *)
Lemma summary_tags d d' :
  deceased_gender d = deceased_gender d' ->
  tags (detected_heirs d) = tags (detected_heirs d') ->
  get_detection_summary d = get_detection_summary d'.
Proof.
  intros G E. unfold get_detection_summary. cbv zeta. rewrite G.
  assert (L : length (detected_heirs d) = length (detected_heirs d')).
  { rewrite <- (length_map (fun h => (name h, relation h)) (detected_heirs d)),
      <- (length_map (fun h => (name h, relation h)) (detected_heirs d')).
    exact (f_equal (@length _) E). }
  rewrite L.
  assert (N : nonempty (detected_heirs d) = nonempty (detected_heirs d')).
  { destruct (detected_heirs d), (detected_heirs d'); try discriminate L; reflexivity. }
  rewrite N. destruct (nonempty (detected_heirs d')); [|reflexivity].
  apply summary_lines, E.
Qed.

Lemma detected_fresh T d text : fresh (fst (detect_heirs T d text)).
Proof.
  apply (Forall_impl _ (fun h (H : as_detected h) =>
           conj (proj1 (proj2 (proj2 H))) (proj1 (proj2 (proj2 (proj2 H)))))),
    detected_as_detected.
Qed.

(** X27.  What [solve] returns for any text.  When nothing is detected:
    the error envelope, with no result, and the calculator of the system
    untouched.  Otherwise: the dictionary of [calculate] on the detected
    heirs, with one result per detected heir in the order of detection,
    a share of 0 for every blocked heir, and the summary the detector
    would have given before the calculation; the list held by the
    detector then shows the heirs as the calculator left them. *)
Theorem solve_envelope (T : tables) (sys : HeritageSystem) (query : pystr) :
  let detected := fst (detect_heirs T (detector sys) query) in
  match fst (solve T sys query) with
  | Failure error results lines =>
      detected = [] /\
      error = u "لم يتم اكتشاف أي ورثة" /\ results = [] /\
      calculator (snd (solve T sys query)) = calculator sys
  | Success result summary =>
      detected <> [] /\
      result = fst (calculate (init detected)) /\
      res_results result = map (fun h => (name h, result_of h)) (final detected) /\
      Forall (fun h => is_blocked h = true -> share h = 0 # 1) (final detected) /\
      summary = get_detection_summary (snd (detect_heirs T (detector sys) query)) /\
      get_heirs_list (detector (snd (solve T sys query))) = final detected
  end.
Proof.
  cbv zeta. unfold solve.
  destruct (detect_heirs T (detector sys) query) as [hs det] eqn:D.
  assert (Hs : hs = fst (detect_heirs T (detector sys) query)) by (rewrite D; reflexivity).
  assert (Hd : det = snd (detect_heirs T (detector sys) query)) by (rewrite D; reflexivity).
  cbn [fst snd].
  destruct (negb (nonempty hs)) eqn:E.
  - cbn [fst snd calculator]. destruct hs; [|discriminate E]. repeat split.
  - rewrite (surjective_pairing (calculate (init hs))).
    cbn [fst snd detector]. split; [destruct hs; [discriminate E | discriminate]|].
    split; [reflexivity|]. split; [|split; [|split]].
    + apply (results_ordered (init hs)). rewrite heirs_init, Hs.
      apply detected_names_nodup.
    + rewrite final_run_passes. apply run_passes_blocked_zero. rewrite Hs.
      apply detected_fresh.
    + apply summary_tags; [reflexivity|]. cbn [detected_heirs]. rewrite heirs_calculate.
      rewrite tags_run_passes, heirs_init, Hd, snd_detect_heirs, <- Hs. reflexivity.
    + reflexivity.
Qed.

End SystemProps.
